(** * Document highlighter: processing pipeline, chunking and merging

    A shallow embedding of the Python back end of the document highlighter
    ([backend/utils/text_chunking.py], [backend/services/llm_service.py],
    [backend/services/storage.py], [backend/agents/simple_workflow.py],
    [backend/models/document.py]) together with the properties of the
    pipeline that the design document states.

    Conventions of the embedding.
    - A Python [str] is a [string]; [len] is [String.length].
    - JSON-like data ([Dict[str, Any]], the payload of an LLM answer) is the
      type [value]; a Python dict is an association list in insertion
      order, read with [dict_get] and written with [dict_set].
    - Scores and coordinates (Python floats written as decimal literals and
      only ever compared, maximised or copied) are rationals of [Q]; a
      literal such as [0.8] is the fraction [8 # 10].
    - The store keyed by transaction id is a [gmap string _].
    - A call that may raise returns a sum [exn + _]. *)

From Stdlib Require Import QArith ZArith String Ascii DecimalString.
From stdpp Require Import gmap strings list.

Set Warnings "-register-all,-clear-no-such-hyp".
Local Open Scope string_scope.
Local Open Scope list_scope.

(** ** Python values *)

Inductive value :=
| VNone
| VBool (b : bool)
| VNum (q : Q)
| VStr (s : string)
| VList (l : list value)
| VDict (d : list (string * value)).

(** A raised exception, carried by its [str(e)]. *)
Record exn := Raise { exn_str : string }.

Module Py.

(** [key in d] and [d[key]] / [d.get(key)]: the binding of [key]. *)
Fixpoint dict_get (key : string) (d : list (string * value)) : option value :=
  match d with
  | [] => None
  | (k, v) :: d' => if String.eqb k key then Some v else dict_get key d'
  end.

(** [d[key] = v]: overwrite in place, or append a new binding. *)
Fixpoint dict_set (key : string) (v : value) (d : list (string * value))
  : list (string * value) :=
  match d with
  | [] => [(key, v)]
  | (k, w) :: d' =>
      if String.eqb k key then (k, v) :: d' else (k, w) :: dict_set key v d'
  end.

(** [d.update(other)] *)
Definition dict_update (d other : list (string * value)) : list (string * value) :=
  fold_left (fun acc kv => dict_set kv.1 kv.2 acc) other d.

Definition keys (d : list (string * value)) : list string := d.*1.

(** [bool(v)] *)
Definition truthy (v : value) : bool :=
  match v with
  | VNone => false
  | VBool b => b
  | VNum q => negb (Qeq_bool q 0%Q)
  | VStr s => negb (String.eqb s "")
  | VList l => match l with [] => false | _ => true end
  | VDict d => match d with [] => false | _ => true end
  end.

Definition is_list (v : value) : bool :=
  match v with VList _ => true | _ => false end.

Definition is_dict (v : value) : bool :=
  match v with VDict _ => true | _ => false end.

(** [v is None] *)
Definition is_none (v : value) : bool :=
  match v with VNone => true | _ => false end.

(** [v == ""] *)
Definition eq_empty_str (v : value) : bool :=
  match v with VStr s => String.eqb s "" | _ => false end.

(** [str(n)] for an integer. *)
Definition str_int (n : Z) : string := NilZero.string_of_int (Z.to_int n).

(** [max(a, b)] on numbers: the first argument unless the second is
    strictly greater. *)
Definition max (a b : Q) : Q := if Qle_bool b a then a else b.

(** [a >= b] *)
Definition ge (a b : Q) : bool := Qle_bool b a.

End Py.

(** ** [services/llm_service.py]: merging per-chunk extraction results *)

Module LLMService.
Import Py.

(** [_fallback_extraction(text, schema)] *)
Definition _fallback_extraction (text : string) (schema : list (string * value))
  : list (string * value) :=
  fold_left
    (fun result kv =>
       if is_dict kv.2 then dict_set kv.1 (VDict []) result
       else if is_list kv.2 then dict_set kv.1 (VList []) result
       else dict_set kv.1 VNone result)
    schema [].

(** The body of the inner loop of [_merge_extraction_results], for one
    [(key, value)] of a later partial. *)
Definition merge_item (merged : list (string * value)) (key : string) (v : value)
  : list (string * value) :=
  match dict_get key merged with
  | None => dict_set key v merged
  | Some old =>
      if is_list old && is_list v then
        match old, v with
        | VList a, VList b => dict_set key (VList (a ++ b)) merged
        | _, _ => merged
        end
      else if is_dict old && is_dict v then
        match old, v with
        | VDict a, VDict b => dict_set key (VDict (dict_update a b)) merged
        | _, _ => merged
        end
      else if is_none old || eq_empty_str old then dict_set key v merged
      else merged
  end.

(** The five rules of the design document for one key of a later
    partial, in its words: (a) absent key: add; (b) two lists:
    concatenate; (c) two maps: merge, last write wins per key; (d) null or
    empty accumulator value: overwrite; (e) otherwise keep. [acc] is the
    accumulator's value for the key, if any. *)
Definition merge_rule_spec (acc : option value) (new : value) : value :=
  match acc with
  | None => new
  | Some old =>
      match old, new with
      | VList a, VList b => VList (a ++ b)
      | VDict a, VDict b => VDict (dict_update a b)
      | _, _ => if is_none old || eq_empty_str old then new else old
      end
  end.

(** [for key, value in result.items(): ...] *)
Definition merge_result (merged result : list (string * value))
  : list (string * value) :=
  fold_left (fun m kv => merge_item m kv.1 kv.2) result merged.

Definition _merge_extraction_results
    (results : list (list (string * value))) (schema : list (string * value))
  : list (string * value) :=
  match results with
  | [] => _fallback_extraction "" schema
  | first :: rest => fold_left merge_result rest first
  end.

End LLMService.

(** ** [models/document.py] *)

Inductive DocumentType := PDF | PNG | JPEG | JPG.

Inductive ProcessingStatus :=
| PENDING | PARSING | STRUCTURING | VALIDATING | HIGHLIGHTING | STORING
| COMPLETED | FAILED.

Record BoundingBox := {
  x : Q;
  y : Q;
  width : Q;
  height : Q
}.

Record VisualGrounding := {
  page_number : Z;
  bounding_box : BoundingBox;
  grounding_confidence : Q
}.

(** [content: Union[str, Dict[str, Any]]] *)
Inductive Content :=
| ContentStr (s : string)
| ContentDict (d : list (string * value)).

Record ExtractedElement := {
  id : string;
  type : string;
  content : Content;
  parent_id : option string;
  children_ids : list string;
  grounding : VisualGrounding;
  metadata : list (string * value);
  confidence : Q;
  validated : bool;
  corrections : option (list (string * value))
}.

(** A [datetime] is the number of the clock reading that produced it. *)
Definition datetime := nat.

Record DocumentMetadata := {
  filename : string;
  file_size : nat;
  document_type : DocumentType;
  page_count : Z;
  upload_timestamp : datetime;
  processing_start : option datetime;
  processing_end : option datetime;
  ocr_languages : list string;
  ocr_models_used : list string
}.

Record ProcessingResult := {
  transaction_id : string;
  status : ProcessingStatus;
  result_metadata : DocumentMetadata;
  extracted_elements : list ExtractedElement;
  raw_text : option string;
  structured_data : option (list (string * value));
  error_message : option string;
  processing_log : list string;
  created_at : datetime;
  updated_at : datetime
}.

Definition set_confidence (c : Q) (e : ExtractedElement) : ExtractedElement :=
  {| id := id e; type := type e; content := content e; parent_id := parent_id e;
     children_ids := children_ids e; grounding := grounding e;
     metadata := metadata e; confidence := c; validated := validated e;
     corrections := corrections e |}.

Definition set_validated (b : bool) (e : ExtractedElement) : ExtractedElement :=
  {| id := id e; type := type e; content := content e; parent_id := parent_id e;
     children_ids := children_ids e; grounding := grounding e;
     metadata := metadata e; confidence := confidence e; validated := b;
     corrections := corrections e |}.

Definition set_metadata (m : list (string * value)) (e : ExtractedElement)
  : ExtractedElement :=
  {| id := id e; type := type e; content := content e; parent_id := parent_id e;
     children_ids := children_ids e; grounding := grounding e;
     metadata := m; confidence := confidence e; validated := validated e;
     corrections := corrections e |}.

(** ** Raw fragments

    The dicts that [services/document_processor.py] builds and
    [_structure_step] reads with [.get]. A field is [None] when the key is
    absent from the dict. *)

Record RawBBox := {
  bbox_x : option Q;
  bbox_y : option Q;
  bbox_width : option Q;
  bbox_height : option Q
}.

Record RawElement := {
  raw_type : option string;        (* 'type' *)
  raw_page : option Z;             (* 'page' *)
  raw_text_field : option string;  (* 'text' *)
  raw_bbox : option RawBBox;       (* 'bbox' *)
  raw_confidence : option Q;       (* 'confidence' *)
  raw_content : option value;      (* 'content': the rows of a table *)
  raw_table_id : option string     (* 'table_id' *)
}.

(** [bbox = elem.get('bbox', {})] *)
Definition empty_bbox : RawBBox :=
  {| bbox_x := None; bbox_y := None; bbox_width := None; bbox_height := None |}.

(** ** Outcomes of calls that may raise *)

Inductive result (A : Type) :=
| Ok (a : A)
| Raised (e : exn).
Arguments Ok {A} a.
Arguments Raised {A} e.

#[global] Instance result_ret : MRet result := fun A a => Ok a.

#[global] Instance result_bind : MBind result := fun A B k r =>
  match r with
  | Ok a => k a
  | Raised e => Raised e
  end.

(** Run [f] on every item, left to right; the first exception ends the loop. *)
Fixpoint result_map {A B} (f : A -> result B) (l : list A) : result (list B) :=
  match l with
  | [] => Ok []
  | a :: l' =>
      b ← f a;
      bs ← result_map f l';
      Ok (b :: bs)
  end.

(** ** External collaborators

    What the pipeline calls but does not define: the clock's rendering, the
    file system, the text extractor, the reasoning service and the schema
    validation done by the model constructors. *)

Class Externals := {
  (** [str(d)] of a [datetime] *)
  str_datetime : datetime -> string;
  (** [os.path.getsize(file_path)] *)
  getsize : string -> nat;
  (** [processor.process_document(file_path, filename)] *)
  processor_process_document :
    string -> string -> result (string * list RawElement * DocumentMetadata);
  (** [llm_service.enhance_document_structure(element_dicts)] *)
  llm_enhance_document_structure : list value -> result value;
  (** [llm_service.validate_extraction(sample_text, elements_dict)] *)
  llm_validate_extraction : string -> list value -> result value;
  (** the [ExtractedElement] constructor applied to the keys of one dict:
      its schema validation *)
  ExtractedElement_of_dict : value -> result ExtractedElement;
  (** [str(d)] of a dict *)
  str_dict : list (string * value) -> string
}.

(** ** [services/storage.py] *)

Module Storage.

(** [results] is the in-memory dict; [files] is the content of
    [storage_dir]: the snapshot a [<id>.json] file loads to, or [None] when
    the file exists but does not load. [clock] counts the readings of
    [datetime.utcnow()] made so far. *)
Record InMemoryStorage := {
  results : gmap string ProcessingResult;
  files : gmap string (option ProcessingResult);
  clock : nat
}.

(** [datetime.utcnow()] *)
Definition utcnow (s : InMemoryStorage) : datetime * InMemoryStorage :=
  (clock s, {| results := results s; files := files s; clock := S (clock s) |}).

Definition store_result (result : ProcessingResult) (s : InMemoryStorage)
  : bool * InMemoryStorage :=
  (true,
   {| results := <[transaction_id result := result]> (results s);
      files := <[transaction_id result := Some result]> (files s);
      clock := clock s |}).

Definition get_result (tid : string) (s : InMemoryStorage)
  : option ProcessingResult * InMemoryStorage :=
  match results s !! tid with
  | Some result => (Some result, s)
  | None =>
      match files s !! tid with
      | Some (Some result) =>
          (Some result,
           {| results := <[tid := result]> (results s);
              files := files s; clock := clock s |})
      | Some None => (None, s)
      | None => (None, s)
      end
  end.

Definition set_status (st : ProcessingStatus) (t : datetime) (log : list string)
    (r : ProcessingResult) : ProcessingResult :=
  {| transaction_id := transaction_id r; status := st;
     result_metadata := result_metadata r;
     extracted_elements := extracted_elements r; raw_text := raw_text r;
     structured_data := structured_data r; error_message := error_message r;
     processing_log := log; created_at := created_at r; updated_at := t |}.

(** [if message:] on an [Optional[str]] *)
Definition message_given (message : option string) : option string :=
  match message with
  | Some m => if String.eqb m "" then None else Some m
  | None => None
  end.

Definition update_status `{Externals} (tid : string) (st : ProcessingStatus)
    (message : option string) (s : InMemoryStorage) : bool * InMemoryStorage :=
  let '(found, s1) := get_result tid s in
  match found with
  | Some result =>
      let '(t_upd, s2) := utcnow s1 in
      let '(log, s3) :=
        match message_given message with
        | Some m =>
            let '(t_log, s3) := utcnow s2 in
            (processing_log result ++ [str_datetime t_log +:+ ": " +:+ m], s3)
        | None => (processing_log result, s2)
        end in
      let '(_, s4) := store_result (set_status st t_upd log result) s3 in
      (true, s4)
  | None => (false, s1)
  end.

(** [delete_result(transaction_id)]: the entry leaves the dict and the file
    leaves the directory, where they exist; the answer is [True] either
    way. The removal of a file that exists is taken to succeed. *)
Definition delete_result (tid : string) (s : InMemoryStorage)
  : bool * InMemoryStorage :=
  (true,
   {| results := delete tid (results s);
      files := delete tid (files s);
      clock := clock s |}).

End Storage.

(** ** [agents/simple_workflow.py] *)

Module Workflow.
Import Py Storage.

(** [DocumentProcessingState]; the fields that share a name with a field
    of [ProcessingResult] carry the prefix [state_]. *)
Record DocumentProcessingState := {
  state_transaction_id : string;
  file_path : string;
  state_filename : string;
  state_raw_text : string;
  raw_elements : list RawElement;
  state_extracted_elements : list ExtractedElement;
  state_structured_data : list (string * value);
  state_metadata : option DocumentMetadata;
  state_status : ProcessingStatus;
  state_error_message : option string;
  state_processing_log : list string;
  confidence_threshold : Q
}.

(** [DocumentProcessingState()] with the three assignments that
    [process_document] makes right after. *)
Definition initial_state (tid path name : string) : DocumentProcessingState :=
  {| state_transaction_id := tid; file_path := path; state_filename := name;
     state_raw_text := ""; raw_elements := []; state_extracted_elements := [];
     state_structured_data := []; state_metadata := None;
     state_status := PENDING; state_error_message := None;
     state_processing_log := []; confidence_threshold := 0.7%Q |}.

Definition with_status (st : ProcessingStatus) (s : DocumentProcessingState) :=
  {| state_transaction_id := state_transaction_id s; file_path := file_path s;
     state_filename := state_filename s; state_raw_text := state_raw_text s;
     raw_elements := raw_elements s;
     state_extracted_elements := state_extracted_elements s;
     state_structured_data := state_structured_data s;
     state_metadata := state_metadata s; state_status := st;
     state_error_message := state_error_message s;
     state_processing_log := state_processing_log s;
     confidence_threshold := confidence_threshold s |}.

(** [state.processing_log.append(line)] *)
Definition log_append (line : string) (s : DocumentProcessingState) :=
  {| state_transaction_id := state_transaction_id s; file_path := file_path s;
     state_filename := state_filename s; state_raw_text := state_raw_text s;
     raw_elements := raw_elements s;
     state_extracted_elements := state_extracted_elements s;
     state_structured_data := state_structured_data s;
     state_metadata := state_metadata s; state_status := state_status s;
     state_error_message := state_error_message s;
     state_processing_log := state_processing_log s ++ [line];
     confidence_threshold := confidence_threshold s |}.

Definition with_error (msg : string) (s : DocumentProcessingState) :=
  {| state_transaction_id := state_transaction_id s; file_path := file_path s;
     state_filename := state_filename s; state_raw_text := state_raw_text s;
     raw_elements := raw_elements s;
     state_extracted_elements := state_extracted_elements s;
     state_structured_data := state_structured_data s;
     state_metadata := state_metadata s; state_status := state_status s;
     state_error_message := Some msg;
     state_processing_log := state_processing_log s;
     confidence_threshold := confidence_threshold s |}.

Definition with_parsed (text : string) (raw : list RawElement)
    (md : DocumentMetadata) (s : DocumentProcessingState) :=
  {| state_transaction_id := state_transaction_id s; file_path := file_path s;
     state_filename := state_filename s; state_raw_text := text;
     raw_elements := raw;
     state_extracted_elements := state_extracted_elements s;
     state_structured_data := state_structured_data s;
     state_metadata := Some md; state_status := state_status s;
     state_error_message := state_error_message s;
     state_processing_log := state_processing_log s;
     confidence_threshold := confidence_threshold s |}.

Definition with_elements (els : list ExtractedElement)
    (s : DocumentProcessingState) :=
  {| state_transaction_id := state_transaction_id s; file_path := file_path s;
     state_filename := state_filename s; state_raw_text := state_raw_text s;
     raw_elements := raw_elements s;
     state_extracted_elements := els;
     state_structured_data := state_structured_data s;
     state_metadata := state_metadata s; state_status := state_status s;
     state_error_message := state_error_message s;
     state_processing_log := state_processing_log s;
     confidence_threshold := confidence_threshold s |}.

Definition with_structured_data (d : list (string * value))
    (s : DocumentProcessingState) :=
  {| state_transaction_id := state_transaction_id s; file_path := file_path s;
     state_filename := state_filename s; state_raw_text := state_raw_text s;
     raw_elements := raw_elements s;
     state_extracted_elements := state_extracted_elements s;
     state_structured_data := d;
     state_metadata := state_metadata s; state_status := state_status s;
     state_error_message := state_error_message s;
     state_processing_log := state_processing_log s;
     confidence_threshold := confidence_threshold s |}.

(** [str(len(l))] *)
Definition str_len {A} (l : list A) : string := str_int (Z.of_nat (length l)).

(** The [except Exception as e] block shared by the five steps. *)
Definition step_failed `{Externals} (e : exn) (state : DocumentProcessingState)
    (store : InMemoryStorage) : DocumentProcessingState * InMemoryStorage :=
  let state := with_error (exn_str e) state in
  let state := with_status FAILED state in
  let '(_, store) :=
    update_status (state_transaction_id state) FAILED (Some (exn_str e)) store in
  (state, store).

(** *** Parsing *)

Definition _parse_step `{Externals} (state : DocumentProcessingState)
    (store : InMemoryStorage) : DocumentProcessingState * InMemoryStorage :=
  let state := with_status PARSING state in
  let '(t, store) := utcnow store in
  let state := log_append ("Started parsing: " +:+ str_datetime t) state in
  let '(_, store) :=
    update_status (state_transaction_id state) PARSING None store in
  match processor_process_document (file_path state) (state_filename state) with
  | Ok (text, raw, md) =>
      let state := with_parsed text raw md state in
      let state := log_append ("Parsed " +:+ str_len raw +:+ " elements") state in
      (state, store)
  | Raised e => step_failed e state store
  end.

(** *** Structuring: the locally built tree *)

(** One entry of [pages]: [{'text': [], 'tables': [], 'other': []}]. *)
Record PageGroup := {
  text : list RawElement;
  tables : list RawElement;
  other : list RawElement
}.

Definition empty_group : PageGroup := {| text := []; tables := []; other := [] |}.

(** [element.get('type') == t] *)
Definition type_is (t : string) (element : RawElement) : bool :=
  match raw_type element with
  | Some ty => String.eqb ty t
  | None => false
  end.

(** The [if]/[elif]/[else] that files a fragment in its page's lists. *)
Definition group_add (element : RawElement) (g : PageGroup) : PageGroup :=
  if type_is "table" element then
    {| text := text g; tables := tables g ++ [element]; other := other g |}
  else if type_is "text" element then
    {| text := text g ++ [element]; tables := tables g; other := other g |}
  else
    {| text := text g; tables := tables g; other := other g ++ [element] |}.

(** [page_num in pages] *)
Definition pages_mem (page_num : Z) (pages : list (Z * PageGroup)) : bool :=
  existsb (fun kv => Z.eqb kv.1 page_num) pages.

(** In-place update of [pages[page_num]]. *)
Fixpoint pages_alter (f : PageGroup -> PageGroup) (page_num : Z)
    (pages : list (Z * PageGroup)) : list (Z * PageGroup) :=
  match pages with
  | [] => []
  | (p, g) :: rest =>
      if Z.eqb p page_num then (p, f g) :: rest
      else (p, g) :: pages_alter f page_num rest
  end.

(** [element.get('page', 1)] *)
Definition page_of (element : RawElement) : Z := default 1%Z (raw_page element).

(** The body of the loop over [state.raw_elements]. *)
Definition group_step (pages : list (Z * PageGroup)) (element : RawElement)
  : list (Z * PageGroup) :=
  let page_num := page_of element in
  let pages :=
    if pages_mem page_num pages then pages
    else pages ++ [(page_num, empty_group)] in
  pages_alter (group_add element) page_num pages.

Definition group_by_page (raw : list RawElement) : list (Z * PageGroup) :=
  fold_left group_step raw [].

Definition page_id_of (page_num : Z) : string := "page_" +:+ str_int page_num.

Definition text_element (page_num : Z) (i : nat) (text_elem : RawElement)
  : ExtractedElement :=
  let elem_id := "text_" +:+ str_int page_num +:+ "_" +:+ str_int (Z.of_nat i) in
  let bbox := default empty_bbox (raw_bbox text_elem) in
  {| id := elem_id;
     type := "text";
     content := ContentStr (default "" (raw_text_field text_elem));
     parent_id := Some (page_id_of page_num);
     children_ids := [];
     grounding :=
       {| page_number := page_num;
          bounding_box :=
            {| x := default 0%Q (bbox_x bbox);
               y := default 0%Q (bbox_y bbox);
               width := default 0.1%Q (bbox_width bbox);
               height := default 0.05%Q (bbox_height bbox) |};
          grounding_confidence := default 0.8%Q (raw_confidence text_elem) |};
     metadata := [];
     confidence := default 0.8%Q (raw_confidence text_elem);
     validated := false;
     corrections := None |}.

Definition table_element (page_num : Z) (i : nat) (table_elem : RawElement)
  : ExtractedElement :=
  let elem_id := "table_" +:+ str_int page_num +:+ "_" +:+ str_int (Z.of_nat i) in
  let bbox := default empty_bbox (raw_bbox table_elem) in
  {| id := elem_id;
     type := "table";
     content :=
       ContentDict
         [("rows", default (VList []) (raw_content table_elem));
          ("table_id", VStr (default elem_id (raw_table_id table_elem)))];
     parent_id := Some (page_id_of page_num);
     children_ids := [];
     grounding :=
       {| page_number := page_num;
          bounding_box :=
            {| x := default 0%Q (bbox_x bbox);
               y := default 0%Q (bbox_y bbox);
               width := default 0.8%Q (bbox_width bbox);
               height := default 0.3%Q (bbox_height bbox) |};
          grounding_confidence := 0.9%Q |};
     metadata := [];
     confidence := 0.9%Q;
     validated := false;
     corrections := None |}.

(** The page container of one page. The source appends it to the output
    first and then appends to its [children_ids] while it emits the
    children; the output holds that same object, so the container in the
    output lists all of them. *)
Definition page_container (page_num : Z) (g : PageGroup) : ExtractedElement :=
  {| id := page_id_of page_num;
     type := "page";
     content := ContentStr ("Page " +:+ str_int page_num);
     parent_id := None;
     children_ids :=
       (id <$> imap (text_element page_num) (text g))
         ++ (id <$> imap (table_element page_num) (tables g));
     grounding :=
       {| page_number := page_num;
          bounding_box := {| x := 0%Q; y := 0%Q; width := 1%Q; height := 1%Q |};
          grounding_confidence := 1%Q |};
     metadata := [];
     confidence := 1%Q;
     validated := false;
     corrections := None |}.

(** The elements of one page: the container, then its text elements, then
    its tables. *)
Definition page_elements (page_num : Z) (g : PageGroup) : list ExtractedElement :=
  page_container page_num g
    :: imap (text_element page_num) (text g)
    ++ imap (table_element page_num) (tables g).

(** [extracted_elements] as built by the two loops of [_structure_step]. *)
Definition build_elements (raw : list RawElement) : list ExtractedElement :=
  group_by_page raw ≫= (fun kv => page_elements kv.1 kv.2).

(** A page-type element for page [p]. *)
Definition is_page_of (p : Z) (e : ExtractedElement) : Prop :=
  type e = "page" /\ page_number (grounding e) = p.

#[export] Instance is_page_of_dec p e : Decision (is_page_of p e).
Proof. unfold is_page_of. apply _. Defined.


(** *** Structuring: the optional LLM enhancement *)

Definition content_value (c : Content) : value :=
  match c with
  | ContentStr s => VStr s
  | ContentDict d => VDict d
  end.

Definition option_value {A} (f : A -> value) (o : option A) : value :=
  match o with
  | Some a => f a
  | None => VNone
  end.

(** [elem.dict()] *)
Definition element_dict (e : ExtractedElement) : value :=
  VDict
    [("id", VStr (id e));
     ("type", VStr (type e));
     ("content", content_value (content e));
     ("parent_id", option_value VStr (parent_id e));
     ("children_ids", VList (VStr <$> children_ids e));
     ("grounding",
      VDict
        [("page_number", VNum (inject_Z (page_number (grounding e))));
         ("bounding_box",
          VDict
            [("x", VNum (x (bounding_box (grounding e))));
             ("y", VNum (y (bounding_box (grounding e))));
             ("width", VNum (width (bounding_box (grounding e))));
             ("height", VNum (height (bounding_box (grounding e))))]);
         ("confidence", VNum (grounding_confidence (grounding e)))]);
     ("metadata", VDict (metadata e));
     ("confidence", VNum (confidence e));
     ("validated", VBool (validated e));
     ("corrections", option_value VDict (corrections e))].

(** The [try] block that follows the local build: the locally built
    [state.extracted_elements] is replaced only when the service returns a
    truthy list, every item of it passes the [ExtractedElement]
    constructor, and the converted list is not empty. *)
Definition enhance_structure `{Externals} (state : DocumentProcessingState)
  : DocumentProcessingState :=
  let element_dicts := element_dict <$> state_extracted_elements state in
  match llm_enhance_document_structure element_dicts with
  | Raised llm_error => state
  | Ok enhanced_elements =>
      if truthy enhanced_elements && is_list enhanced_elements then
        match enhanced_elements with
        | VList items =>
            match result_map ExtractedElement_of_dict items with
            | Ok new_elements =>
                match new_elements with
                | [] => state
                | _ :: _ =>
                    log_append
                      ("Enhanced structure using LLM: " +:+ str_len new_elements
                         +:+ " elements")
                      (with_elements new_elements state)
                end
            | Raised conversion_error => state
            end
        | _ => state
        end
      else state
  end.

Definition _structure_step `{Externals} (state : DocumentProcessingState)
    (store : InMemoryStorage) : DocumentProcessingState * InMemoryStorage :=
  let state := with_status STRUCTURING state in
  let '(t, store) := utcnow store in
  let state := log_append ("Started structuring: " +:+ str_datetime t) state in
  let '(_, store) :=
    update_status (state_transaction_id state) STRUCTURING None store in
  let extracted_elements := build_elements (raw_elements state) in
  let state := with_elements extracted_elements state in
  let state :=
    log_append ("Structured into " +:+ str_len extracted_elements +:+ " elements")
      state in
  (enhance_structure state, store).

(** *** Validation: the base rules *)

(** [c.isspace()] for a code point below 256. *)
Definition isspace (c : ascii) : bool :=
  let n := nat_of_ascii c in
  ((9 <=? n)%nat && (n <=? 13)%nat) || ((28 <=? n)%nat && (n <=? 32)%nat)
  || (n =? 133)%nat || (n =? 160)%nat.

Fixpoint lstrip (s : string) : string :=
  match s with
  | EmptyString => EmptyString
  | String c s' => if isspace c then lstrip s' else s
  end.

Fixpoint rstrip (s : string) : string :=
  match s with
  | EmptyString => EmptyString
  | String c s' =>
      let r := rstrip s' in
      if isspace c && String.eqb r "" then EmptyString else String c r
  end.

(** [s.strip()] *)
Definition strip (s : string) : string := rstrip (lstrip s).


(** [isinstance(content, str) and len(content.strip()) > 0] *)
Definition text_valid (c : Content) : bool :=
  match c with
  | ContentStr s => (0 <? String.length (strip s))%nat
  | ContentDict _ => false
  end.

(** [isinstance(content, dict) and content.get('rows')] *)
Definition table_valid (c : Content) : bool :=
  match c with
  | ContentDict d => truthy (default VNone (dict_get "rows" d))
  | ContentStr _ => false
  end.

(** The body of the loop "Basic validation for all elements". *)
Definition validate_element (threshold : Q) (element : ExtractedElement)
  : ExtractedElement :=
  let element :=
    if String.eqb (type element) "text" then
      if text_valid (content element)
      then set_confidence (max (confidence element) 0.8%Q) element
      else set_confidence 0.3%Q element
    else if String.eqb (type element) "table" then
      if table_valid (content element)
      then set_confidence (max (confidence element) 0.9%Q) element
      else set_confidence 0.4%Q element
    else if String.eqb (type element) "page" then
      set_confidence 1%Q element
    else element in
  set_validated (ge (confidence element) threshold) element.

Definition validate_elements (threshold : Q) (els : list ExtractedElement)
  : list ExtractedElement :=
  validate_element threshold <$> els.

(** *** Validation: the optional LLM overlay

    The answer of the service is untyped JSON. The model follows the
    source on the answers it is written for: a dict whose ["elements"] is a
    list of dicts, each with a string ["id"] and a numeric ["confidence"].
    Where the answer has another shape the source mostly raises [TypeError]
    inside the [try]; the model ends the overlay at that point and keeps the
    updates made so far, as the enclosing [except] does. It does not follow
    the source where Python would iterate over a string or a dict in place
    of the list, or would store a non-numeric ["confidence"] before the
    comparison raises. *)

(** [element_id_map[ident]]: the index of the last element with that id. *)
Fixpoint element_index (ident : string) (els : list ExtractedElement) (i : nat)
  : option nat :=
  match els with
  | [] => None
  | e :: rest =>
      match element_index ident rest (S i) with
      | Some j => Some j
      | None => if String.eqb (id e) ident then Some i else None
      end
  end.

Definition overlay_entry (threshold : Q) (els : list ExtractedElement)
    (val_elem : value) : result (list ExtractedElement * nat) :=
  match val_elem with
  | VDict d =>
      match dict_get "id" d with
      | Some (VStr ident) =>
          match element_index ident els 0 with
          | Some idx =>
              match dict_get "confidence" d with
              | Some (VNum c) =>
                  Ok (alter (fun e => set_validated (ge c threshold)
                                        (set_confidence c e)) idx els, 1)
              | Some (VBool b) =>
                  let c := if b then 1%Q else 0%Q in
                  Ok (alter (fun e => set_validated (ge c threshold)
                                        (set_confidence c e)) idx els, 1)
              | Some _ => Raised (Raise "TypeError")
              | None => Ok (els, 0)
              end
          | None => Ok (els, 0)
          end
      | Some (VList _) | Some (VDict _) => Raised (Raise "TypeError")
      | Some _ | None => Ok (els, 0)
      end
  | _ => Raised (Raise "TypeError")
  end.

(** [for val_elem in validated_elements: ...]; returns the elements as
    updated so far and the count, or the exception that ended the loop. *)
Fixpoint overlay_loop (threshold : Q) (els : list ExtractedElement)
    (vals : list value) (updated_count : nat)
  : list ExtractedElement * result nat :=
  match vals with
  | [] => (els, Ok updated_count)
  | val_elem :: rest =>
      match overlay_entry threshold els val_elem with
      | Ok (els', n) => overlay_loop threshold els' rest (updated_count + n)
      | Raised e => (els, Raised e)
      end
  end.

Definition llm_validation `{Externals} (state : DocumentProcessingState)
  : DocumentProcessingState :=
  let sample_text := String.substring 0 5000 (state_raw_text state) in
  let elements_dict := element_dict <$> state_extracted_elements state in
  match llm_validate_extraction sample_text elements_dict with
  | Raised llm_error => state
  | Ok validation_results =>
      if truthy validation_results && is_dict validation_results then
        match validation_results with
        | VDict d =>
            match dict_get "elements" d with
            | Some (VList validated_elements) =>
                let '(els, outcome) :=
                  overlay_loop (confidence_threshold state)
                    (state_extracted_elements state) validated_elements 0 in
                let state := with_elements els state in
                match outcome with
                | Ok updated_count =>
                    log_append
                      ("Enhanced validation using LLM: updated "
                         +:+ str_int (Z.of_nat updated_count) +:+ " elements")
                      state
                | Raised _ => state
                end
            | Some _ => state
            | None => state   (* [updated_count] is unbound: caught *)
            end
        | _ => state
        end
      else state
  end.

Definition _validate_step `{Externals} (state : DocumentProcessingState)
    (store : InMemoryStorage) : DocumentProcessingState * InMemoryStorage :=
  let state := with_status VALIDATING state in
  let '(t, store) := utcnow store in
  let state := log_append ("Started validation: " +:+ str_datetime t) state in
  let '(_, store) :=
    update_status (state_transaction_id state) VALIDATING None store in
  let state :=
    with_elements
      (validate_elements (confidence_threshold state)
         (state_extracted_elements state)) state in
  let state := llm_validation state in
  let validated_count :=
    length (filter (fun e => validated e = true) (state_extracted_elements state)) in
  let state :=
    log_append ("Validated " +:+ str_int (Z.of_nat validated_count) +:+ " elements")
      state in
  (state, store).

(** *** Highlighting *)

Definition _get_highlight_color (element_type : string) : string :=
  if String.eqb element_type "text" then "#3B82F6"
  else if String.eqb element_type "table" then "#10B981"
  else if String.eqb element_type "form_field" then "#F59E0B"
  else if String.eqb element_type "image" then "#8B5CF6"
  else if String.eqb element_type "header" then "#EF4444"
  else "#6B7280".

Definition highlight_element (element : ExtractedElement) : ExtractedElement :=
  if String.eqb (type element) "page" then element
  else
    set_metadata
      (dict_update (metadata element)
         [("highlight_color", VStr (_get_highlight_color (type element)));
          ("border_width", VNum 2%Q);
          ("opacity", VNum 0.3%Q)])
      element.

Definition _highlight_step `{Externals} (state : DocumentProcessingState)
    (store : InMemoryStorage) : DocumentProcessingState * InMemoryStorage :=
  let state := with_status HIGHLIGHTING state in
  let '(t, store) := utcnow store in
  let state := log_append ("Started highlighting: " +:+ str_datetime t) state in
  let '(_, store) :=
    update_status (state_transaction_id state) HIGHLIGHTING None store in
  let state :=
    with_elements (highlight_element <$> state_extracted_elements state) state in
  let state := log_append "Created visual highlights" state in
  (state, store).

(** *** Storing *)

(** The summary dict appended to a page's list by
    [_group_elements_by_page]. *)
Definition element_summary `{Externals} (element : ExtractedElement) : value :=
  VDict
    [("id", VStr (id element));
     ("type", VStr (type element));
     ("content",
      VStr match content element with
           | ContentStr s => s
           | ContentDict d => String.substring 0 100 (str_dict d)
           end);
     ("confidence", VNum (confidence element));
     ("validated", VBool (validated element))].

(** [_group_elements_by_page]; the integer keys are written as JSON
    writes them. *)
Definition _group_elements_by_page `{Externals} (elements : list ExtractedElement)
  : list (string * value) :=
  fold_left
    (fun pages element =>
       let key := str_int (page_number (grounding element)) in
       match dict_get key pages with
       | Some (VList l) => dict_set key (VList (l ++ [element_summary element])) pages
       | _ => dict_set key (VList [element_summary element]) pages
       end)
    elements [].

Definition count_type (t : string) (els : list ExtractedElement) : nat :=
  length (filter (fun e => type e = t) els).

Definition num_of_nat (n : nat) : value := VNum (inject_Z (Z.of_nat n)).

Definition _store_step `{Externals} (state : DocumentProcessingState)
    (store : InMemoryStorage) : DocumentProcessingState * InMemoryStorage :=
  let state := with_status STORING state in
  let '(t, store) := utcnow store in
  let state := log_append ("Started storing: " +:+ str_datetime t) state in
  let '(_, store) :=
    update_status (state_transaction_id state) STORING None store in
  let els := state_extracted_elements state in
  let state :=
    with_structured_data
      [("summary",
        VDict
          [("total_elements", num_of_nat (length els));
           ("pages",
            VNum (inject_Z (match state_metadata state with
                            | Some md => page_count md
                            | None => 1%Z
                            end)));
           ("text_elements", num_of_nat (count_type "text" els));
           ("table_elements", num_of_nat (count_type "table" els));
           ("validated_elements",
            num_of_nat (length (filter (fun e => validated e = true) els)))]);
       ("elements_by_page", VDict (_group_elements_by_page els))]
      state in
  match state_metadata state with
  | Some md =>
      let '(t_updated, store) := utcnow store in
      let '(t_created, store) := utcnow store in
      let result :=
        {| transaction_id := state_transaction_id state;
           status := COMPLETED;
           result_metadata := md;
           extracted_elements := state_extracted_elements state;
           raw_text := Some (state_raw_text state);
           structured_data := Some (state_structured_data state);
           error_message := None;
           processing_log := state_processing_log state;
           created_at := t_created;
           updated_at := t_updated |} in
      let '(_, store) := store_result result store in
      let state := with_status COMPLETED state in
      let '(t_done, store) := utcnow store in
      let state :=
        log_append ("Completed processing: " +:+ str_datetime t_done) state in
      (state, store)
  | None =>
      (* [metadata=None] is refused by the [ProcessingResult] constructor *)
      step_failed (Raise "metadata: none is not an allowed value") state store
  end.

(** *** The pipeline *)

(** [c.lower()] for an ASCII letter. *)
Definition lower_ascii (c : ascii) : ascii :=
  let n := nat_of_ascii c in
  if ((65 <=? n) && (n <=? 90))%nat then ascii_of_nat (n + 32) else c.

Fixpoint lower (s : string) : string :=
  match s with
  | EmptyString => EmptyString
  | String c s' => String (lower_ascii c) (lower s')
  end.

(** [s.endswith(suffix)] *)
Definition endswith (s suffix : string) : bool :=
  let n := String.length s in
  let k := String.length suffix in
  ((k <=? n)%nat && String.eqb (String.substring (n - k) k s) suffix).

Definition failed (state : DocumentProcessingState) : bool :=
  match state_status state with
  | FAILED => true
  | _ => false
  end.

(** The five steps, with the early returns of [process_document]. *)
Definition run_steps `{Externals} (state : DocumentProcessingState)
    (store : InMemoryStorage) : DocumentProcessingState * InMemoryStorage :=
  let '(state, store) := _parse_step state store in
  if failed state then (state, store) else
  let '(state, store) := _structure_step state store in
  if failed state then (state, store) else
  let '(state, store) := _validate_step state store in
  if failed state then (state, store) else
  let '(state, store) := _highlight_step state store in
  if failed state then (state, store) else
  _store_step state store.

(** The snapshot created on upload acceptance. *)
Definition initial_result `{Externals} (tid path name : string)
    (store : InMemoryStorage) : ProcessingResult * InMemoryStorage :=
  let '(t_upload, store) := utcnow store in
  let initial_metadata :=
    {| filename := name;
       file_size := getsize path;
       document_type :=
         if endswith (lower name) ".pdf" then PDF
         else if endswith (lower name) ".png" then PNG
         else JPEG;
       page_count := 1;
       upload_timestamp := t_upload;
       processing_start := None;
       processing_end := None;
       ocr_languages := ["en"];
       ocr_models_used := ["tesseract"] |} in
  let '(t_log, store) := utcnow store in
  let '(t_created, store) := utcnow store in
  let '(t_updated, store) := utcnow store in
  ({| transaction_id := tid;
      status := PENDING;
      result_metadata := initial_metadata;
      extracted_elements := [];
      raw_text := None;
      structured_data := None;
      error_message := None;
      processing_log := ["Started processing: " +:+ str_datetime t_log];
      created_at := t_created;
      updated_at := t_updated |}, store).

(** [process_document(file_path, filename)]; [tid] is the fresh
    [uuid.uuid4()]. Returns the transaction id and the store it leaves. *)
Definition process_document `{Externals} (tid path name : string)
    (store : InMemoryStorage) : string * InMemoryStorage :=
  let state := initial_state tid path name in
  let '(result, store) := initial_result tid path name store in
  let '(_, store) := store_result result store in
  let '(_, store) := run_steps state store in
  (tid, store).

End Workflow.

(** ** Sample inputs *)

Module Samples.

(** A table fragment on page 2 that carries no ['bbox']. *)
Definition table_without_bbox : RawElement :=
  {| raw_type := Some "table";
     raw_page := Some 2%Z;
     raw_text_field := None;
     raw_bbox := None;
     raw_confidence := None;
     raw_content := Some (VList [VList [VStr "h"]]);
     raw_table_id := Some "table_2_0" |}.

(** A word on page 1, as [extract_text_from_pdf] emits it. *)
Definition word (w : string) (left : Q) : RawElement :=
  {| raw_type := Some "text";
     raw_page := Some 1%Z;
     raw_text_field := Some w;
     raw_bbox :=
       Some {| bbox_x := Some left; bbox_y := Some 0.2%Q;
               bbox_width := Some 0.1%Q; bbox_height := Some 0.02%Q |};
     raw_confidence := None;
     raw_content := None;
     raw_table_id := None |}.

(** Two text fragments on page 1 and one table fragment on page 2. *)
Definition three_fragments : list RawElement :=
  [word "Hello" 0.1%Q; word "world" 0.3%Q; table_without_bbox].

(** Collaborators for a run in which the text extractor raises and the
    reasoning service is unreachable. *)
Definition failing_extractor : Externals :=
  {| str_datetime t := "2024-05-01 10:00:" +:+ Py.str_int (Z.of_nat t);
     getsize _ := 1024;
     processor_process_document _ _ := Raised (Raise "cannot open file");
     llm_enhance_document_structure _ := Raised (Raise "connection refused");
     llm_validate_extraction _ _ := Raised (Raise "connection refused");
     ExtractedElement_of_dict _ := Raised (Raise "validation error");
     str_dict _ := "{}" |}.

(** An empty store. *)
Definition empty_storage : Storage.InMemoryStorage :=
  {| Storage.results := ∅; Storage.files := ∅; Storage.clock := 0 |}.

End Samples.

(** ** [utils/text_chunking.py] *)

Module TextChunking.

(** The two separators of [chunk_text], as pairs of characters. *)
Definition newline : ascii := "010"%char.
Definition paragraph_sep : ascii * ascii := (newline, newline).
Definition sentence_sep : ascii * ascii := ("."%char, " "%char).

Definition sep_string (sep : ascii * ascii) : string :=
  String sep.1 (String sep.2 EmptyString).

Definition cons_head (c : ascii) (pieces : list string) : list string :=
  match pieces with
  | [] => [String c EmptyString]
  | p :: ps => String c p :: ps
  end.

(** [s.split(sep)] for a separator of two characters: the pieces between
    the leftmost non-overlapping occurrences of [sep]. *)
Fixpoint split (sep : ascii * ascii) (s : string) : list string :=
  match s with
  | EmptyString => [EmptyString]
  | String c s' =>
      match s' with
      | EmptyString => [String c EmptyString]
      | String d s'' =>
          if Ascii.eqb c sep.1 && Ascii.eqb d sep.2
          then EmptyString :: split sep s''
          else cons_head c (split sep s')
      end
  end.


(** [range(0, stop, step)] for a positive [step]. *)
Fixpoint range_from (i count step : nat) : list nat :=
  match count with
  | O => []
  | S count' => i :: range_from (i + step) count' step
  end.

Definition range_step (stop step : nat) : list nat :=
  range_from 0 ((stop + step - 1) / step) step.

(** [if current_chunk:] *)
Definition nonempty (s : string) : bool := negb (String.eqb s "").

(** [if current_chunk: chunks.append(current_chunk)] *)
Definition flush (chunks : list string) (current_chunk : string) : list string :=
  if nonempty current_chunk then chunks ++ [current_chunk] else chunks.

(** [sentence[i:i+max_chunk_size] for i in range(0, len(sentence), max_chunk_size)] *)
Definition char_slices (sentence : string) (max_chunk_size : nat) : list string :=
  (fun i => String.substring i max_chunk_size sentence)
    <$> range_step (String.length sentence) max_chunk_size.

(** The body of [for sentence in sentences]; the state is
    [(chunks, current_chunk)]. *)
Definition sentence_step (max_chunk_size : nat) (st : list string * string)
    (sentence : string) : list string * string :=
  let '(chunks, current_chunk) := st in
  if (max_chunk_size <? String.length current_chunk + String.length sentence + 2)%nat
  then
    let chunks := flush chunks current_chunk in
    if (max_chunk_size <? String.length sentence)%nat
    then (chunks ++ char_slices sentence max_chunk_size, EmptyString)
    else (chunks, sentence)
  else
    if nonempty current_chunk
    then (chunks, current_chunk +:+ ". " +:+ sentence)
    else (chunks, sentence).

(** The body of [for paragraph in paragraphs]. *)
Definition paragraph_step (max_chunk_size : nat) (st : list string * string)
    (paragraph : string) : list string * string :=
  let '(chunks, current_chunk) := st in
  if (max_chunk_size <? String.length current_chunk + String.length paragraph + 2)%nat
  then
    let chunks := flush chunks current_chunk in
    if (max_chunk_size <? String.length paragraph)%nat
    then
      fold_left (sentence_step max_chunk_size) (split sentence_sep paragraph)
        (chunks, EmptyString)
    else (chunks, paragraph)
  else
    if nonempty current_chunk
    then (chunks, current_chunk +:+ sep_string paragraph_sep +:+ paragraph)
    else (chunks, paragraph).

(** [chunk_text(text, max_chunk_size)], for [max_chunk_size > 0] (with 0
    the source's [range] raises [ValueError] on an over-long sentence). *)
Definition chunk_text (text : string) (max_chunk_size : nat) : list string :=
  if (String.length text <=? max_chunk_size)%nat then [text]
  else
    let '(chunks, current_chunk) :=
      fold_left (paragraph_step max_chunk_size) (split paragraph_sep text)
        ([], EmptyString) in
    flush chunks current_chunk.






(** *** [process_chunks_with_rate_limit]

    The coroutine is modelled as a transition system driven by the event
    loop. Each chunk has one task [process_with_semaphore(chunk, i)]; a
    task waits for the semaphore, runs [process_func] while holding it,
    then sleeps [delay_between_chunks] still holding it, and releases it on
    leaving the [async with] block, by return or by exception. The event
    loop chooses which enabled task moves next: a run is a list of
    events. *)

Section Scheduler.
Context {T R : Type}.

(** The outcome of awaiting [process_func(chunk, index, total_chunks)]. *)
Variable process_func : T -> nat -> nat -> result R.

Inductive task :=
| Waiting                 (* created, not yet inside [async with semaphore] *)
| Working                 (* awaiting [process_func] *)
| Sleeping (r : R)        (* awaiting [asyncio.sleep(delay_between_chunks)] *)
| Finished.               (* left the [async with] block *)

Inductive event :=
| Acquire (i : nat)       (* task [i] enters the semaphore *)
| WorkerEnds (i : nat)    (* [process_func] of task [i] returns or raises *)
| Wake (i : nat).         (* the sleep of task [i] is over *)

(** [permits] is the value of the semaphore; [started] lists the tasks in
    the order they entered it; [completed] lists the outcomes in the
    order [asyncio.as_completed] yields them. *)
Record sched := {
  tasks : list task;
  permits : nat;
  started : list nat;
  completed : list (nat * result R)
}.

Definition init (chunks : list T) (max_concurrent : nat) : sched :=
  {| tasks := replicate (length chunks) Waiting;
     permits := max_concurrent;
     started := [];
     completed := [] |}.

Definition step (chunks : list T) (s : sched) (ev : event) : option sched :=
  match ev with
  | Acquire i =>
      match tasks s !! i with
      | Some Waiting =>
          if (0 <? permits s)%nat then
            Some {| tasks := <[i := Working]> (tasks s);
                    permits := permits s - 1;
                    started := started s ++ [i];
                    completed := completed s |}
          else None
      | _ => None
      end
  | WorkerEnds i =>
      match tasks s !! i, chunks !! i with
      | Some Working, Some chunk =>
          match process_func chunk i (length chunks) with
          | Ok r =>
              Some {| tasks := <[i := Sleeping r]> (tasks s);
                      permits := permits s;
                      started := started s;
                      completed := completed s |}
          | Raised e =>
              Some {| tasks := <[i := Finished]> (tasks s);
                      permits := permits s + 1;
                      started := started s;
                      completed := completed s ++ [(i, Raised e)] |}
          end
      | _, _ => None
      end
  | Wake i =>
      match tasks s !! i with
      | Some (Sleeping r) =>
          Some {| tasks := <[i := Finished]> (tasks s);
                  permits := permits s + 1;
                  started := started s;
                  completed := completed s ++ [(i, Ok r)] |}
      | _ => None
      end
  end.

(** The state after a run, or [None] when an event of it is not enabled. *)
Fixpoint run (chunks : list T) (s : sched) (events : list event) : option sched :=
  match events with
  | [] => Some s
  | ev :: events' =>
      match step chunks s ev with
      | Some s' => run chunks s' events'
      | None => None
      end
  end.

Definition is_working (t : task) : bool :=
  match t with Working => true | _ => false end.

(** Holding a permit: between entering and leaving [async with]. *)
Definition is_holding (t : task) : bool :=
  match t with Working | Sleeping _ => true | _ => false end.

Definition is_finished (t : task) : bool :=
  match t with Finished => true | _ => false end.

Definition count (f : task -> bool) (l : list task) : nat :=
  length (List.filter f l).

(** The number of invocations of [process_func] that are active. *)
Definition in_flight (s : sched) : nat := count is_working (tasks s).

(** The number of tasks inside [async with semaphore]. *)
Definition holding (s : sched) : nat := count is_holding (tasks s).

(** [for completed_task in asyncio.as_completed(tasks): result = await
    completed_task; results.append(result)]: the results in completion
    order, or the first exception met, which leaves the function. *)
Definition collect (outcomes : list (nat * result R)) : result (list R) :=
  result_map (fun o => o.2) outcomes.

Definition raised (o : nat * result R) : bool :=
  match o.2 with Raised _ => true | Ok _ => false end.

(** What the call has returned or raised in state [s], if anything yet:
    it raises as soon as a failed task completes, and returns once every
    task has completed. *)
Definition outcome (s : sched) : option (result (list R)) :=
  if existsb raised (completed s) then Some (collect (completed s))
  else if forallb is_finished (tasks s) then Some (collect (completed s))
  else None.

(** [process_chunks_with_rate_limit(chunks, process_func, max_concurrent,
    delay)] along the run [events]; [None] when the run is not a run of
    the system or does not let the call finish. *)
Definition process_chunks_with_rate_limit (chunks : list T)
    (max_concurrent : nat) (events : list event) : option (result (list R)) :=
  match run chunks (init chunks max_concurrent) events with
  | Some s => outcome s
  | None => None
  end.

(** Every outcome in [completed] is what [process_func] gave for that
    chunk. *)
Definition outcomes_ok (chunks : list T) (s : sched) : Prop :=
  (forall i o,
      (i, o) ∈ completed s ->
      exists chunk, chunks !! i = Some chunk /\
                    o = process_func chunk i (length chunks)) /\
  (forall i r,
      tasks s !! i = Some (Sleeping r) ->
      exists chunk, chunks !! i = Some chunk /\
                    Ok r = process_func chunk i (length chunks)).

(** With one permit the log is serial: every task that entered the
    semaphore has completed, in the order of entry, except the one task
    that may be inside now. *)
Definition serial_log (s : sched) : Prop :=
  (holding s = 0 /\ started s = (completed s).*1) \/
  (exists i t,
      tasks s !! i = Some t /\ is_holding t = true /\
      started s = (completed s).*1 ++ [i]).

(** The tasks listed in [completed] are those that have left the
    semaphore, each once. *)
Definition done_log (s : sched) : Prop :=
  NoDup (completed s).*1 /\
  forall i, i ∈ (completed s).*1 <-> tasks s !! i = Some Finished.

(** The run that takes the tasks one after the other, in the order of
    the chunks. *)
Definition serial_events (total : nat) (i : nat) (chunk : T) : list event :=
  match process_func chunk i total with
  | Ok _ => [Acquire i; WorkerEnds i; Wake i]
  | Raised _ => [Acquire i; WorkerEnds i]
  end.

Definition serial_run (chunks : list T) : list event :=
  mjoin (imap (serial_events (length chunks)) chunks).

End Scheduler.

End TextChunking.

Module ChunkSamples.
Import TextChunking.

(** A worker that fails on the first chunk and echoes the others. *)
Definition flaky (chunk : string) (index total : nat) : result string :=
  match index with
  | O => Raised (Raise "rate limit exceeded")
  | S _ => Ok chunk
  end.

(** Two tasks run side by side; the second completes, then the first
    raises. *)
Definition overlapping_run : list event :=
  [Acquire 0; Acquire 1; WorkerEnds 1; Wake 1; WorkerEnds 0].

(** A worker that never fails. *)
Definition echo (chunk : string) (index total : nat) : result string :=
  Ok chunk.

(** A text with an empty paragraph: "aaaa", two paragraph separators,
    "bbbb". *)
Definition text_with_empty_paragraph : string :=
  "aaaa" +:+ sep_string paragraph_sep +:+ sep_string paragraph_sep +:+ "bbbb".

End ChunkSamples.

(** ** [services/llm_service.py]: enhancement of the structure *)

Module Enhancement.
Import Py TextChunking.

(** [a == b] on values; numbers by value, [True] and [False] as 1 and 0,
    lists and dicts entry by entry. *)
Fixpoint value_eqb (a b : value) : bool :=
  let fix list_eqb (l1 l2 : list value) : bool :=
    match l1, l2 with
    | [], [] => true
    | v1 :: l1', v2 :: l2' => value_eqb v1 v2 && list_eqb l1' l2'
    | _, _ => false
    end in
  let fix dict_eqb (d1 d2 : list (string * value)) : bool :=
    match d1, d2 with
    | [], [] => true
    | (k1, v1) :: d1', (k2, v2) :: d2' =>
        String.eqb k1 k2 && value_eqb v1 v2 && dict_eqb d1' d2'
    | _, _ => false
    end in
  match a, b with
  | VNone, VNone => true
  | VBool x, VBool y => Bool.eqb x y
  | VBool x, VNum q | VNum q, VBool x => Qeq_bool q (if x then 1%Q else 0%Q)
  | VNum p, VNum q => Qeq_bool p q
  | VStr s, VStr t => String.eqb s t
  | VList l1, VList l2 => list_eqb l1 l2
  | VDict d1, VDict d2 => dict_eqb d1 d2
  | _, _ => false
  end.

(** The page number that [chunk_elements] reads off an element. *)
Definition element_page (element : value) : value :=
  match element with
  | VDict d =>
      match dict_get "grounding" d with
      | Some (VDict g) => default VNone (dict_get "page_number" g)
      | _ => default VNone (dict_get "page_number" d)
      end
  | _ => VNone
  end.

(** The body of the loop of [chunk_elements]; the state is
    [(chunks, current_chunk, current_page)]. *)
Definition chunk_elements_step (max_elements_per_chunk : nat)
    (st : list (list value) * list value * value) (element : value)
  : list (list value) * list value * value :=
  let '(chunks, current_chunk, current_page) := st in
  let page_num := element_page element in
  let '(chunks, current_chunk) :=
    if negb (value_eqb page_num current_page)
       && negb (Qle_bool (inject_Z (Z.of_nat (length current_chunk)))
                  (inject_Z (Z.of_nat max_elements_per_chunk) * 0.8))
    then (chunks ++ [current_chunk], [])
    else (chunks, current_chunk) in
  let current_chunk := current_chunk ++ [element] in
  if (max_elements_per_chunk <=? length current_chunk)%nat
  then (chunks ++ [current_chunk], [], page_num)
  else (chunks, current_chunk, page_num).

Definition chunk_elements (elements : list value) (max_elements_per_chunk : nat)
  : list (list value) :=
  if (length elements <=? max_elements_per_chunk)%nat then [elements]
  else
    let '(chunks, current_chunk, _) :=
      fold_left (chunk_elements_step max_elements_per_chunk) elements
        ([], [], VNone) in
    match current_chunk with
    | [] => chunks
    | _ :: _ => chunks ++ [current_chunk]
    end.

(** The chunks closed so far are neither empty nor over the limit, and the
    open chunk is below the limit. *)
Definition chunks_ok (m : nat) (st : list (list value) * list value * value) : Prop :=
  Forall (fun c => c <> [] /\ length c <= m) st.1.1 /\ length st.1.2 < m.

Section EnhanceDocumentStructure.

(** [os.getenv("OPENAI_API_KEY")] is set. *)
Variable has_api_key : bool.

(** The chat completion for one chunk: the content of its first choice,
    or the exception of the client. *)
Variable chat_completion : list value -> nat -> nat -> result string.

(** [json.loads]; [None] stands for [JSONDecodeError]. *)
Variable json_loads : string -> option value.

Definition process_structure_chunk (element_chunk : list value)
    (index total : nat) : result value :=
  content ← chat_completion element_chunk index total;
  match json_loads content with
  | Some answer =>
      if is_list answer then Ok answer
      else
        match answer with
        | VDict d =>
            match dict_get "elements" d with
            | Some els => Ok els
            | None => Ok (VList element_chunk)
            end
        | _ => Ok (VList element_chunk)
        end
  | None => Ok (VList element_chunk)
  end.

(** [enhanced_elements.extend(chunk)] for the chunks that are lists. *)
Definition combine_chunks (enhanced_chunks : list value) : list value :=
  enhanced_chunks ≫= (fun chunk => match chunk with VList l => l | _ => [] end).

(** [enhance_document_structure(elements)] along the run [events] of its
    scheduler; [None] when that run does not let the scheduler finish. *)
Definition enhance_document_structure (elements : list value)
    (events : list event) : option (list value) :=
  if negb has_api_key then Some elements
  else
    match process_chunks_with_rate_limit process_structure_chunk
            (chunk_elements elements 20) 1 events with
    | Some (Ok enhanced_chunks) => Some (combine_chunks enhanced_chunks)
    | Some (Raised e) => Some elements
    | None => None
    end.

End EnhanceDocumentStructure.

End Enhancement.

(** ** [routers/document_routes.py] *)

Module Routes.
Import Py Storage Workflow.

(** What a route gives back: its response, or the [HTTPException] it
    raises. *)
Inductive http (A : Type) :=
| Response (a : A)
| HTTPException (status_code : nat) (detail : string).
Arguments Response {A} a.
Arguments HTTPException {A} status_code detail.

Record StatusResponse := {
  response_transaction_id : string;
  response_status : ProcessingStatus;
  progress : Q;
  message : option string;
  error : option string
}.

Record CorrectionRequest := {
  element_id : string;
  corrected_content : Content;
  corrected_type : option string;
  notes : option string
}.

(** [progress_map.get(result.status.value, 0)] *)
Definition progress_of (st : ProcessingStatus) : Q :=
  match st with
  | PENDING => 0
  | PARSING => 20
  | STRUCTURING => 40
  | VALIDATING => 60
  | HIGHLIGHTING => 80
  | STORING => 90
  | COMPLETED => 100
  | FAILED => 0
  end.

(** [get_processing_status(transaction_id)] *)
Definition get_processing_status (tid : string) (store : InMemoryStorage)
  : http StatusResponse * InMemoryStorage :=
  let '(found, store) := get_result tid store in
  match found with
  | None => (HTTPException 404 "Transaction not found", store)
  | Some result =>
      (Response
         {| response_transaction_id := tid;
            response_status := status result;
            progress := progress_of (status result);
            message := last (processing_log result);
            error := error_message result |},
       store)
  end.

Section Corrections.
Context `{Externals}.

(** [d.isoformat()] of a [datetime] *)
Variable isoformat : datetime -> string.

(** [if not element.corrections]: [None] or an empty dict. *)
Definition corrections_or_backup (element : ExtractedElement)
  : list (string * value) :=
  match corrections element with
  | Some (kv :: d) => kv :: d
  | Some [] | None => [("original_content", content_value (content element))]
  end.

(** The body of [if element.id == correction.element_id:]; [stamp] is
    [datetime.utcnow().isoformat()]. *)
Definition correct_element (stamp : string) (correction : CorrectionRequest)
    (element : ExtractedElement) : ExtractedElement :=
  {| id := id element;
     type :=
       match corrected_type correction with
       | Some t => if String.eqb t "" then type element else t
       | None => type element
       end;
     content := corrected_content correction;
     parent_id := parent_id element;
     children_ids := children_ids element;
     grounding := grounding element;
     metadata := metadata element;
     confidence := confidence element;
     validated := true;
     corrections :=
       Some (dict_update (corrections_or_backup element)
               [("corrected_at", VStr stamp);
                ("notes", option_value VStr (notes correction))]) |}.

(** The body of [for correction in corrections]: the first element with
    the id is corrected, and the clock is read only then. The state is the
    elements, [corrections_applied] and the store. *)
Definition correction_step
    (st : list ExtractedElement * nat * InMemoryStorage)
    (correction : CorrectionRequest)
  : list ExtractedElement * nat * InMemoryStorage :=
  let '(els, corrections_applied, store) := st in
  match list_find (fun e => id e = element_id correction) els with
  | Some (i, _) =>
      let '(t, store) := utcnow store in
      (alter (correct_element (isoformat t) correction) i els,
       S corrections_applied, store)
  | None => (els, corrections_applied, store)
  end.

(** [submit_corrections(transaction_id, corrections)] *)
Definition submit_corrections (tid : string) (corrections : list CorrectionRequest)
    (store : InMemoryStorage) : http string * InMemoryStorage :=
  let '(found, store) := get_result tid store in
  match found with
  | None => (HTTPException 404 "Transaction not found", store)
  | Some result =>
      let '(els, corrections_applied, store) :=
        fold_left correction_step corrections
          (extracted_elements result, 0, store) in
      let '(t_log, store) := utcnow store in
      let '(t_updated, store) := utcnow store in
      let result :=
        {| transaction_id := transaction_id result;
           status := status result;
           result_metadata := result_metadata result;
           extracted_elements := els;
           raw_text := raw_text result;
           structured_data := structured_data result;
           error_message := error_message result;
           processing_log :=
             processing_log result
               ++ ["Applied " +:+ str_int (Z.of_nat corrections_applied)
                     +:+ " corrections at " +:+ str_datetime t_log];
           created_at := created_at result;
           updated_at := t_updated |} in
      let '(_, store) := store_result result store in
      (Response ("Applied " +:+ str_int (Z.of_nat corrections_applied)
                   +:+ " corrections"),
       store)
  end.

End Corrections.

(** [delete_result(transaction_id)] of the router, as far as the store
    goes: [404] only when the store answers [False]. *)
Definition delete_result_route (tid : string) (store : InMemoryStorage)
  : http string * InMemoryStorage :=
  let '(deleted, store) := delete_result tid store in
  if deleted then (Response "Result deleted successfully", store)
  else (HTTPException 404 "Transaction not found", store).

End Routes.

(** ** Upload: [services/document_processor.py] and the upload route *)

Module Upload.
Import Py Storage Workflow Routes.

(** [s.rfind(c)]: the index of the last occurrence, [None] for [-1]. *)
Fixpoint rfind (c : ascii) (s : string) : option nat :=
  match s with
  | EmptyString => None
  | String a s' =>
      match rfind c s' with
      | Some i => Some (S i)
      | None => if Ascii.eqb a c then Some 0 else None
      end
  end.

(** [os.path.splitext(p)] of [posixpath]: the extension starts at the last
    dot of the last path component, unless only dots come before it
    there. *)
Definition splitext (p : string) : string * string :=
  match rfind "."%char p with
  | Some dotIndex =>
      let after_sep :=
        match rfind "/"%char p with
        | Some sepIndex => (sepIndex <? dotIndex)%nat
        | None => true
        end in
      let filenameIndex :=
        match rfind "/"%char p with
        | Some sepIndex => S sepIndex
        | None => 0
        end in
      if after_sep
         && existsb (fun ch => negb (Ascii.eqb ch "."%char))
              (list_ascii_of_string
                 (String.substring filenameIndex (dotIndex - filenameIndex) p))
      then (String.substring 0 dotIndex p,
            String.substring dotIndex (String.length p - dotIndex) p)
      else (p, EmptyString)
  | None => (p, EmptyString)
  end.

Definition supported_formats : list string := [".pdf"; ".png"; ".jpg"; ".jpeg"].

(** [processor.is_supported_format(filename)] *)
Definition is_supported_format (filename : string) : bool :=
  let ext := (splitext (lower filename)).2 in
  existsb (String.eqb ext) supported_formats.

Record UploadResponse := {
  upload_transaction_id : string;
  upload_status : ProcessingStatus;
  upload_message : string
}.

Section UploadDocument.

(** [os.path.join(UPLOAD_DIR, name)] *)
Variable upload_path : string -> string.

(** The text of [max_size/1000000] in the message of the size check. *)
Variable megabytes : nat -> string.

(** [upload_document]: the answer, and the arguments of the background
    task it schedules. [file_id] is its [uuid.uuid4()]; writing the file
    is taken to succeed. *)
Definition upload_document (filename : option string) (size : option nat)
    (max_size : nat) (file_id : string)
  : http UploadResponse * option (string * string) :=
  match filename with
  | None | Some EmptyString => (HTTPException 400 "No file provided", None)
  | Some name =>
      if negb (is_supported_format name) then
        (HTTPException 400 "Unsupported file format. Supported: PDF, PNG, JPEG",
         None)
      else if match size with
              | Some n => (0 <? n)%nat && (max_size <? n)%nat
              | None => false
              end then
        (HTTPException 400
           ("File too large. Maximum size: " +:+ megabytes max_size +:+ "MB"),
         None)
      else
        let file_extension := (splitext name).2 in
        let saved_filename := file_id +:+ file_extension in
        let file_path := upload_path saved_filename in
        (Response
           {| upload_transaction_id := file_id;
              upload_status := PENDING;
              upload_message :=
                "Document uploaded successfully. Processing started." |},
         Some (file_path, name))
  end.

End UploadDocument.

(** [process_document_background(file_path, filename)]; [tid] is the
    [uuid.uuid4()] that [workflow.process_document] draws for itself. *)
Definition process_document_background `{Externals} (tid : string)
    (file_path filename : string) (store : InMemoryStorage) : InMemoryStorage :=
  (process_document tid file_path filename store).2.

End Upload.

(** ** Sample snapshots and collaborators *)

Module RouteSamples.
Import Storage Workflow Routes.

Definition sample_metadata : DocumentMetadata :=
  {| filename := "report.pdf"; file_size := 1024; document_type := PDF;
     page_count := 2; upload_timestamp := 0; processing_start := None;
     processing_end := None; ocr_languages := ["en"];
     ocr_models_used := ["PyPDF2"] |}.

(** The element built from the first word of the sample fragments. *)
Definition sample_element : ExtractedElement :=
  text_element 1 0 (Samples.word "Hello" 0.1%Q).

(** A completed snapshot in which two elements share the id
    ["text_1_0"]. *)
Definition sample_result : ProcessingResult :=
  {| transaction_id := "t1"; status := COMPLETED;
     result_metadata := sample_metadata;
     extracted_elements := [sample_element; sample_element];
     raw_text := Some "Hello"; structured_data := None; error_message := None;
     processing_log := ["Parsed 1 elements"]; created_at := 0; updated_at := 0 |}.

Definition sample_store : InMemoryStorage :=
  (store_result sample_result Samples.empty_storage).2.

Definition sample_correction : CorrectionRequest :=
  {| element_id := "text_1_0"; corrected_content := ContentStr "Hullo";
     corrected_type := None; notes := Some "typo" |}.

(** [d.isoformat()], rendered as the number of the clock reading. *)
Definition sample_isoformat (t : datetime) : string :=
  "2024-05-01T10:00:" +:+ Py.str_int (Z.of_nat t).

(** Collaborators for a run in which the text extractor returns the three
    sample fragments and the reasoning service is unreachable. *)
Definition working_extractor : Externals :=
  {| str_datetime t := "2024-05-01 10:00:" +:+ Py.str_int (Z.of_nat t);
     getsize _ := 1024;
     processor_process_document _ _ :=
       Ok ("Hello world", Samples.three_fragments, sample_metadata);
     llm_enhance_document_structure _ := Raised (Raise "connection refused");
     llm_validate_extraction _ _ := Raised (Raise "connection refused");
     ExtractedElement_of_dict _ := Raised (Raise "validation error");
     str_dict _ := "{}" |}.

End RouteSamples.

(** ** What a stage may not change *)

Module Observations.

(** An element without its confidence and its validated flag. *)
Definition without_verdict (e : ExtractedElement) :=
  (id e, type e, content e, parent_id e, children_ids e, grounding e,
   metadata e, corrections e).


(** An element without what a correction may change. *)
Definition without_correction (e : ExtractedElement) :=
  (id e, parent_id e, children_ids e, grounding e, metadata e, confidence e).

(** The snapshot a transaction id resolves to. *)
Definition lookup_result (tid : string) (s : Storage.InMemoryStorage)
  : option ProcessingResult :=
  (Storage.get_result tid s).1.

(** The content saved under ["original_content"] by the first correction
    of an element. *)
Definition backup_of (e : ExtractedElement) : option value :=
  d ← corrections e; Py.dict_get "original_content" d.

(** The fields of a snapshot that neither a status update nor a correction
    may change. *)
Definition result_core (r : ProcessingResult) :=
  (transaction_id r, status r, result_metadata r, raw_text r, structured_data r,
   error_message r, created_at r).

(** The store holds, under [tid], a snapshot of that id. *)
Definition owned (tid : string) (s : Storage.InMemoryStorage) : Prop :=
  exists r, lookup_result tid s = Some r /\ transaction_id r = tid.

(** From [s] to [s'] only what [tid] resolves to may have changed, and
    [tid] resolves to a snapshot of its own. *)
Definition touches_only (tid : string) (s s' : Storage.InMemoryStorage) : Prop :=
  owned tid s' /\
  forall tid', tid' <> tid -> lookup_result tid' s' = lookup_result tid' s.

(** What a step hands on from its input state: the transaction id, the
    metadata and the text; and the log only grows. *)
Definition carried (s s' : Workflow.DocumentProcessingState) : Prop :=
  Workflow.state_transaction_id s' = Workflow.state_transaction_id s /\
  Workflow.state_metadata s' = Workflow.state_metadata s /\
  Workflow.state_raw_text s' = Workflow.state_raw_text s /\
  exists more,
    Workflow.state_processing_log s' = Workflow.state_processing_log s ++ more.

(** The number of summaries filed under the pages of
    [elements_by_page]. *)
Definition page_total (pages : list (string * value)) : nat :=
  sum_list_with
    (fun kv => match kv.2 with VList l => length l | _ => 0 end) pages.

(** The parsed answer of the chat completion is one that
    [process_structure_chunk] hands on: a list, or a dict with the key
    ["elements"]. *)
Definition answer_used (answer : option value) : bool :=
  match answer with
  | Some (VList _) => true
  | Some (VDict d) =>
      match Py.dict_get "elements" d with Some _ => true | None => false end
  | _ => false
  end.

(** The value that [_fallback_extraction] puts under a key whose schema
    entry is [v]. *)
Definition skeleton (v : value) : value :=
  if Py.is_dict v then VDict [] else if Py.is_list v then VList [] else VNone.

(** A value that the merger never replaces: a number, a boolean or a
    non-empty string. *)
Definition is_scalar (v : value) : bool :=
  match v with
  | VBool _ | VNum _ => true
  | VStr s => negb (String.eqb s "")
  | VNone | VList _ | VDict _ => false
  end.

End Observations.

(** * Properties *)

(** ** Dicts *)

Module PyFacts.
Import Py.

Lemma dict_get_set_eq key v d : dict_get key (dict_set key v d) = Some v.
Proof.
  induction d as [|[k w] d IH]; simpl.
  - by rewrite String.eqb_refl.
  - destruct (String.eqb k key) eqn:E; simpl; rewrite E; auto.
Qed.

Lemma dict_get_set_ne key key' v d :
  key <> key' -> dict_get key' (dict_set key v d) = dict_get key' d.
Proof.
  intros Hne. induction d as [|[k w] d IH]; simpl.
  - destruct (String.eqb_spec key key'); congruence.
  - destruct (String.eqb_spec k key) as [->|Hk]; simpl.
    + destruct (String.eqb_spec key key'); congruence.
    + destruct (String.eqb_spec k key'); auto.
Qed.

Lemma dict_get_None key d : key ∉ keys d -> dict_get key d = None.
Proof.
  induction d as [|[k w] d IH]; simpl; [done|].
  intros Hn. destruct (String.eqb_spec k key) as [->|Hk].
  - exfalso. apply Hn. left.
  - apply IH. intros Hin. apply Hn. by right.
Qed.

(** [d.update(other)] is last-write-wins per key. *)
Lemma dict_update_get a b key :
  NoDup (keys b) ->
  dict_get key (dict_update a b)
  = match dict_get key b with Some v => Some v | None => dict_get key a end.
Proof.
  unfold dict_update. revert a.
  induction b as [|[k w] b IH]; intros a Hnd; simpl; [done|].
  apply NoDup_cons in Hnd as [Hk Hnd].
  rewrite IH by done.
  destruct (String.eqb_spec k key) as [->|Hne].
  - rewrite (dict_get_None key b) by done. apply dict_get_set_eq.
  - destruct (dict_get key b); [done|]. by apply dict_get_set_ne.
Qed.

End PyFacts.

(** ** The extraction merger *)

Module MergeFacts.
Import Py PyFacts LLMService.

Lemma merge_item_same merged key v :
  dict_get key (merge_item merged key v)
  = Some (merge_rule_spec (dict_get key merged) v).
Proof.
  unfold merge_item, merge_rule_spec.
  destruct (dict_get key merged) as [old|] eqn:E.
  - destruct old, v; simpl; rewrite ?dict_get_set_eq, ?E; try done;
      destruct (String.eqb _ ""); simpl; by rewrite ?dict_get_set_eq, ?E.
  - apply dict_get_set_eq.
Qed.

Lemma merge_item_other merged key key' v :
  key <> key' -> dict_get key' (merge_item merged key v) = dict_get key' merged.
Proof.
  intros Hne. unfold merge_item.
  destruct (dict_get key merged) as [old|].
  - destruct old, v; simpl; rewrite ?dict_get_set_ne; try done;
      destruct (String.eqb _ ""); simpl; by rewrite ?dict_get_set_ne.
  - by apply dict_get_set_ne.
Qed.

Lemma merge_result_get merged result key :
  NoDup (keys result) ->
  dict_get key (merge_result merged result)
  = match dict_get key result with
    | Some v => Some (merge_rule_spec (dict_get key merged) v)
    | None => dict_get key merged
    end.
Proof.
  unfold merge_result. revert merged.
  induction result as [|[k w] result IH]; intros merged Hnd; simpl; [done|].
  apply NoDup_cons in Hnd as [Hk Hnd].
  rewrite IH by done.
  destruct (String.eqb_spec k key) as [->|Hne].
  - rewrite (dict_get_None key result) by done. apply merge_item_same.
  - destruct (dict_get key result); by rewrite merge_item_other.
Qed.

(** C5. [_merge_extraction_results] folds the partials left to right,
    starting from the first; for each key of a later partial the
    accumulator's value becomes what the five rules give ([merge_rule_spec]:
    absent key added, two lists concatenated, two maps merged with last
    write wins, [None] or the empty string overwritten, anything else
    kept), and the other keys are left alone; [update] is last-write-wins
    per key; and the three examples evaluate as stated. *)
Theorem merge_extraction_rules :
  (forall first rest schema,
      _merge_extraction_results (first :: rest) schema
      = fold_left merge_result rest first) /\
  (forall merged result key,
      NoDup (keys result) ->
      dict_get key (merge_result merged result)
      = match dict_get key result with
        | Some v => Some (merge_rule_spec (dict_get key merged) v)
        | None => dict_get key merged
        end) /\
  (forall a b key,
      NoDup (keys b) ->
      dict_get key (dict_update a b)
      = match dict_get key b with Some v => Some v | None => dict_get key a end) /\
  (forall schema,
      _merge_extraction_results [[("a", VNum 1)]] schema = [("a", VNum 1)]) /\
  (forall schema,
      _merge_extraction_results
        [[("a", VList [VNum 1])]; [("a", VList [VNum 2])]] schema
      = [("a", VList [VNum 1; VNum 2])]) /\
  (forall schema,
      _merge_extraction_results [[("a", VNone)]; [("a", VNum 5)]] schema
      = [("a", VNum 5)]).
Proof.
  split; [done|]. split; [apply merge_result_get|].
  split; [apply dict_update_get|]. done.
Qed.

Lemma merge_extraction_rules_witness :
  dict_get "a" (merge_result [("a", VStr "")] [("b", VNone); ("a", VNum 5)])
  = Some (VNum 5).
Proof.
  destruct merge_extraction_rules as (_ & Hget & _).
  rewrite Hget; [reflexivity|].
  apply NoDup_cons. split; [|apply NoDup_singleton].
  intros Hin. apply list_elem_of_singleton in Hin. discriminate Hin.
Defined.

End MergeFacts.

(** ** The validation stage *)

Module ValidationFacts.
Import Py Workflow.






End ValidationFacts.

(** ** The element tree builder *)

Module StructureFacts.
Import Py Workflow.

(** *** Grouping by page *)

Lemma pages_mem_spec p (pages : list (Z * PageGroup)) :
  pages_mem p pages = true <-> p ∈ pages.*1.
Proof.
  unfold pages_mem. induction pages as [|[q g] pages IH]; simpl.
  - split; [done|]. intros H. inversion H.
  - rewrite orb_true_iff, IH, elem_of_cons, Z.eqb_eq. intuition congruence.
Qed.

Lemma pages_alter_keys f p (pages : list (Z * PageGroup)) :
  (pages_alter f p pages).*1 = pages.*1.
Proof.
  induction pages as [|[q g] pages IH]; simpl; [done|].
  destruct (Z.eqb q p); [done|]. rewrite !fmap_cons. by f_equal.
Qed.

(** An entry survives an update, possibly altered. *)
Lemma pages_alter_elem f p pages q g :
  (q, g) ∈ pages ->
  (q, g) ∈ pages_alter f p pages \/ (q = p /\ (q, f g) ∈ pages_alter f p pages).
Proof.
  induction pages as [|[q' g'] pages IH]; simpl; [by intros H; inversion H|].
  intros [Heq|Hin]%elem_of_cons.
  - inversion Heq; subst q' g'.
    destruct (Z.eqb_spec q p) as [->|Hne]; [right|left]; repeat split; left.
  - destruct (Z.eqb_spec q' p) as [->|Hne].
    + left. by right.
    + destruct (IH Hin) as [H|[-> H]]; [left|right; split; [done|]]; by right.
Qed.

(** The entry of a known page is altered. *)
Lemma pages_alter_hit f p pages :
  p ∈ pages.*1 ->
  exists g, (p, g) ∈ pages /\ (p, f g) ∈ pages_alter f p pages.
Proof.
  induction pages as [|[q g] pages IH]; simpl; [by intros H; inversion H|].
  intros Hin. destruct (Z.eqb_spec q p) as [->|Hne].
  - exists g. split; left.
  - apply elem_of_cons in Hin as [->|Hin]; [done|].
    destruct (IH Hin) as (g' & H1 & H2). exists g'. split; by right.
Qed.

Lemma group_step_keys pages f :
  (group_step pages f).*1
  = if pages_mem (page_of f) pages then pages.*1 else pages.*1 ++ [page_of f].
Proof.
  unfold group_step. rewrite pages_alter_keys.
  destruct (pages_mem (page_of f) pages); [done|].
  by rewrite fmap_app.
Qed.

Lemma group_by_page_snoc raw f :
  group_by_page (raw ++ [f]) = group_step (group_by_page raw) f.
Proof. unfold group_by_page. by rewrite fold_left_app. Qed.

(** One entry per distinct page number observed. *)
Lemma group_by_page_keys raw :
  NoDup (group_by_page raw).*1 /\
  forall p, p ∈ (group_by_page raw).*1 <-> p ∈ page_of <$> raw.
Proof.
  induction raw as [|f raw IH] using rev_ind.
  - split; [constructor|]. done.
  - destruct IH as [IHnd IHk].
    rewrite group_by_page_snoc, group_step_keys.
    destruct (pages_mem (page_of f) (group_by_page raw)) eqn:E.
    + split; [done|]. intros p. rewrite fmap_app, elem_of_app, IHk.
      split; [by left|]. intros [H|H]; [done|].
      apply list_elem_of_singleton in H as ->.
      by apply IHk, pages_mem_spec.
    + split.
      * apply NoDup_app. split; [done|]. split; [|apply NoDup_singleton].
        intros p Hp Hp'. apply list_elem_of_singleton in Hp' as ->.
        apply pages_mem_spec in Hp. congruence.
      * intros p. rewrite fmap_app, !elem_of_app, IHk. done.
Qed.

(** Every table fragment is filed in the [tables] list of its page. *)
Lemma group_by_page_tables raw f :
  f ∈ raw -> type_is "table" f = true ->
  exists g i, (page_of f, g) ∈ group_by_page raw /\ tables g !! i = Some f.
Proof.
  induction raw as [|f0 raw IH] using rev_ind; [by intros H; inversion H|].
  intros Hin Hty. rewrite group_by_page_snoc. unfold group_step.
  set (pages := if pages_mem (page_of f0) (group_by_page raw)
                then group_by_page raw
                else group_by_page raw ++ [(page_of f0, empty_group)]).
  assert (Hsub : forall kv, kv ∈ group_by_page raw -> kv ∈ pages).
  { intros kv Hkv. unfold pages. destruct (pages_mem _ _); [done|].
    apply elem_of_app. by left. }
  assert (Hkey : page_of f0 ∈ pages.*1).
  { unfold pages. destruct (pages_mem _ _) eqn:E.
    - by apply pages_mem_spec.
    - rewrite fmap_app. apply elem_of_app. right. left. }
  apply elem_of_app in Hin as [Hin|Hin].
  - destruct (IH Hin Hty) as (g & i & Hg & Hi).
    destruct (pages_alter_elem (group_add f0) (page_of f0) pages _ _ (Hsub _ Hg))
      as [H|[_ H]].
    + by exists g, i.
    + exists (group_add f0 g), i. split; [done|].
      unfold group_add. destruct (type_is "table" f0); simpl.
      * by apply lookup_app_l_Some.
      * by destruct (type_is "text" f0).
  - apply list_elem_of_singleton in Hin as ->.
    destruct (pages_alter_hit (group_add f0) (page_of f0) pages Hkey)
      as (g & _ & Hg).
    exists (group_add f0 g), (length (tables g)). split; [done|].
    unfold group_add. rewrite Hty. simpl.
    rewrite lookup_app_r by lia. by rewrite Nat.sub_diag.
Qed.

(** *** The elements of one page *)

Lemma page_elements_eq p g :
  page_elements p g
  = page_container p g
      :: imap (text_element p) (text g) ++ imap (table_element p) (tables g).
Proof. reflexivity. Qed.

Lemma elem_of_page_elements e p g :
  e ∈ page_elements p g <->
  e = page_container p g \/
  (exists i f, text g !! i = Some f /\ e = text_element p i f) \/
  (exists i f, tables g !! i = Some f /\ e = table_element p i f).
Proof.
  rewrite page_elements_eq, elem_of_cons, elem_of_app,
    !elem_of_lookup_imap.
  naive_solver.
Qed.

Lemma elem_of_build_elements e raw :
  e ∈ build_elements raw <->
  exists p g, (p, g) ∈ group_by_page raw /\ e ∈ page_elements p g.
Proof.
  unfold build_elements. rewrite list_elem_of_bind. split.
  - intros ([p g] & He & Hin). by exists p, g.
  - intros (p & g & Hin & He). by exists (p, g).
Qed.

Lemma filter_imap_nil {A B} (P : B -> Prop) `{!forall b, Decision (P b)}
    (f : nat -> A -> B) (l : list A) :
  (forall i a, ~ P (f i a)) -> filter P (imap f l) = [].
Proof.
  revert f. induction l as [|a l IH]; intros f Hf; [done|].
  rewrite imap_cons, filter_cons_False by apply Hf.
  apply IH. intros i b. apply Hf.
Qed.

Lemma filter_page_elements p q g :
  filter (is_page_of p) (page_elements q g)
  = if decide (q = p) then [page_container q g] else [].
Proof.
  rewrite page_elements_eq, filter_cons, filter_app.
  rewrite !filter_imap_nil by (intros i a [Hty _]; discriminate Hty).
  destruct (decide (q = p)) as [->|Hne].
  - rewrite decide_True; [done|]. by split.
  - rewrite decide_False; [done|]. by intros [_ H].
Qed.

Lemma filter_pages_count p (pages : list (Z * PageGroup)) :
  NoDup pages.*1 ->
  length (filter (is_page_of p) (pages ≫= (fun kv => page_elements kv.1 kv.2)))
  = if decide (p ∈ pages.*1) then 1 else 0.
Proof.
  induction pages as [|[q g] pages IH]; intros Hnd.
  - rewrite decide_False by (intros H; inversion H). done.
  - rewrite fmap_cons in *. apply NoDup_cons in Hnd as [Hq Hnd].
    rewrite bind_cons, filter_app, length_app, IH by done.
    cbn [fst snd]. rewrite filter_page_elements.
    destruct (decide (q = p)) as [->|Hne].
    + rewrite decide_False by done. rewrite decide_True by left. done.
    + destruct (decide (p ∈ pages.*1)) as [Hin|Hin].
      * rewrite decide_True; [done|]. by right.
      * rewrite decide_False; [done|].
        intros [->|H]%elem_of_cons; done.
Qed.

(** *** The tree *)

(** C8. In the locally built tree: each page number observed among the
    fragments (1 when a fragment has none) has exactly one page-type
    element; every page-type element is for an observed page number and has
    box (0,0,1,1) and confidence 1.0; every id in the [children_ids] of a
    page element is the id of an element of the output whose [parent_id] is
    that page; and the [parent_id] of every other element is the id of a
    page element of the output. *)
Theorem build_elements_tree (raw : list RawElement) :
  (forall p,
      p ∈ page_of <$> raw ->
      length (filter (is_page_of p) (build_elements raw)) = 1) /\
  (forall e,
      e ∈ build_elements raw -> type e = "page" ->
      page_number (grounding e) ∈ page_of <$> raw /\
      bounding_box (grounding e)
      = {| x := 0; y := 0; width := 1; height := 1 |} /\
      grounding_confidence (grounding e) = 1%Q /\
      confidence e = 1%Q) /\
  (forall e c,
      e ∈ build_elements raw -> type e = "page" -> c ∈ children_ids e ->
      exists child,
        child ∈ build_elements raw /\ id child = c /\
        parent_id child = Some (id e)) /\
  (forall e pid,
      e ∈ build_elements raw -> type e <> "page" -> parent_id e = Some pid ->
      exists parent,
        parent ∈ build_elements raw /\ id parent = pid /\ type parent = "page").
Proof.
  destruct (group_by_page_keys raw) as [Hnd Hkeys].
  split; [|split; [|split]].
  - intros p Hp. unfold build_elements.
    rewrite filter_pages_count by done.
    rewrite decide_True; [done|]. by apply Hkeys.
  - intros e (p & g & Hg & He)%elem_of_build_elements Hty.
    apply elem_of_page_elements in He
      as [->|[(i & f & _ & ->)|(i & f & _ & ->)]]; try discriminate Hty.
    split; [|done]. apply Hkeys. simpl.
    apply list_elem_of_fmap. by exists (p, g).
  - intros e c (p & g & Hg & He)%elem_of_build_elements Hty Hc.
    apply elem_of_page_elements in He
      as [->|[(i & f & _ & ->)|(i & f & _ & ->)]]; try discriminate Hty.
    simpl in Hc. rewrite elem_of_app, !list_elem_of_fmap in Hc.
    destruct Hc as [(child & -> & Hin)|(child & -> & Hin)].
    + exists child. split.
      * apply elem_of_build_elements. exists p, g. split; [done|].
        rewrite page_elements_eq. right. apply elem_of_app. by left.
      * split; [done|].
        apply elem_of_lookup_imap in Hin as (i & f & -> & _). done.
    + exists child. split.
      * apply elem_of_build_elements. exists p, g. split; [done|].
        rewrite page_elements_eq. right. apply elem_of_app. by right.
      * split; [done|].
        apply elem_of_lookup_imap in Hin as (i & f & -> & _). done.
  - intros e pid (p & g & Hg & He)%elem_of_build_elements Hty Hpid.
    exists (page_container p g). split.
    + apply elem_of_build_elements. exists p, g. split; [done|].
      rewrite page_elements_eq. left.
    + apply elem_of_page_elements in He
        as [->|[(i & f & _ & ->)|(i & f & _ & ->)]]; [done| |];
        simpl in Hpid; by inversion Hpid.
Qed.

Lemma build_elements_tree_witness :
  length (filter (is_page_of 2) (build_elements Samples.three_fragments)) = 1.
Proof.
  destruct (build_elements_tree Samples.three_fragments) as (Hone & _).
  apply (Hone 2%Z). unfold Samples.three_fragments.
  rewrite !fmap_cons. right. right. left.
Defined.

(** The example of the design document: two text fragments on page 1 and
    one table fragment on page 2 give two page elements, wired to their
    children. *)
Example build_three_fragments :
  (fun e => (id e, type e, parent_id e, children_ids e))
    <$> build_elements Samples.three_fragments
  = [("page_1", "page", None, ["text_1_0"; "text_1_1"]);
     ("text_1_0", "text", Some "page_1", []);
     ("text_1_1", "text", Some "page_1", []);
     ("page_2", "page", None, ["table_2_0"]);
     ("table_2_0", "table", Some "page_2", [])].
Proof. reflexivity. Qed.

(** C4, as the code has it. For every table fragment of the input whose
    ['bbox'] is absent, the output holds the table element synthesized from
    it, and that element has the box (x=0, y=0, width=0.8, height=0.3) and
    confidence 0.9, in the element and in its grounding. *)
Theorem table_default_box (raw : list RawElement) (table_elem : RawElement) :
  table_elem ∈ raw ->
  type_is "table" table_elem = true ->
  raw_bbox table_elem = None ->
  exists e i,
    e ∈ build_elements raw /\
    e = table_element (page_of table_elem) i table_elem /\
    type e = "table" /\
    bounding_box (grounding e)
    = {| x := 0; y := 0; width := 0.8; height := 0.3 |} /\
    grounding_confidence (grounding e) = 0.9%Q /\
    confidence e = 0.9%Q.
Proof.
  intros Hin Hty Hbb.
  destruct (group_by_page_tables raw table_elem Hin Hty) as (g & i & Hg & Hi).
  exists (table_element (page_of table_elem) i table_elem), i.
  split.
  - apply elem_of_build_elements. exists (page_of table_elem), g.
    split; [done|]. apply elem_of_page_elements. right. right. eauto.
  - repeat split. simpl. by rewrite Hbb.
Qed.

Lemma table_default_box_witness :
  exists e i,
    e ∈ build_elements Samples.three_fragments /\
    e = table_element 2 i Samples.table_without_bbox /\
    type e = "table" /\
    bounding_box (grounding e)
    = {| x := 0; y := 0; width := 0.8; height := 0.3 |} /\
    grounding_confidence (grounding e) = 0.9%Q /\
    confidence e = 0.9%Q.
Proof.
  apply (table_default_box Samples.three_fragments Samples.table_without_bbox).
  - unfold Samples.three_fragments. right. right. left.
  - reflexivity.
  - reflexivity.
Defined.

(** C4 as stated fails: the box synthesized for a table fragment without
    ['bbox'] starts at (0, 0), not at (0.1, 0.1). *)
Lemma table_default_box_counterexample :
  build_elements [Samples.table_without_bbox]
  = [page_container 2 {| text := []; tables := [Samples.table_without_bbox];
                         other := [] |};
     table_element 2 0 Samples.table_without_bbox] /\
  raw_bbox Samples.table_without_bbox = None /\
  bounding_box (grounding (table_element 2 0 Samples.table_without_bbox))
  = {| x := 0; y := 0; width := 0.8; height := 0.3 |} /\
  ~ (x (bounding_box (grounding (table_element 2 0 Samples.table_without_bbox)))
     == 0.1)%Q /\
  ~ (y (bounding_box (grounding (table_element 2 0 Samples.table_without_bbox)))
     == 0.1)%Q.
Proof. repeat split; intros H; discriminate H. Qed.

End StructureFacts.

(** ** The result store *)

Module StorageFacts.
Import Storage.

(** C10. For a transaction id with no snapshot in memory and no file on
    disk, [update_status] returns [False] and leaves the store as it was:
    no snapshot appears under that id. *)
Theorem update_status_unknown `{Externals} (tid : string)
    (st : ProcessingStatus) (message : option string) (store : InMemoryStorage) :
  results store !! tid = None ->
  files store !! tid = None ->
  update_status tid st message store = (false, store) /\
  results (update_status tid st message store).2 !! tid = None /\
  files (update_status tid st message store).2 !! tid = None.
Proof.
  intros Hmem Hfile.
  assert (Hupd : update_status tid st message store = (false, store)).
  { unfold update_status, get_result. by rewrite Hmem, Hfile. }
  rewrite Hupd. done.
Qed.

Lemma update_status_unknown_witness :
  @update_status Samples.failing_extractor "no-such-id" FAILED (Some "boom")
    Samples.empty_storage
  = (false, Samples.empty_storage).
Proof.
  apply (@update_status_unknown Samples.failing_extractor "no-such-id" FAILED
           (Some "boom") Samples.empty_storage); reflexivity.
Defined.

(** A known id: the status and the time are replaced, a non-empty message
    goes to the log, and [error_message] is left as it was. *)
Lemma update_status_known `{Externals} tid st message store r :
  results store !! tid = Some r ->
  transaction_id r = tid ->
  exists r' store',
    update_status tid st message store = (true, store') /\
    results store' !! tid = Some r' /\
    transaction_id r' = tid /\
    status r' = st /\
    error_message r' = error_message r /\
    processing_log r'
    = processing_log r
        ++ match message_given message with
           | Some m => [str_datetime (S (clock store)) +:+ ": " +:+ m]
           | None => []
           end /\
    clock store'
    = match message_given message with
      | Some _ => S (S (clock store))
      | None => S (clock store)
      end.
Proof.
  intros Hmem Htid. unfold update_status, get_result. rewrite Hmem. simpl.
  destruct (message_given message) as [m|]; simpl; rewrite Htid;
    eexists _, _; (split; [reflexivity|]); simpl;
    rewrite lookup_insert_eq; repeat split; simpl;
    by rewrite ?app_nil_r.
Qed.

End StorageFacts.

(** ** The pipeline runner *)

Module PipelineFacts.
Import Py Storage Workflow StorageFacts.

(** When the extractor raises, no step after [_parse_step] runs. *)
Lemma run_steps_parse_failure `{Externals} state store e :
  processor_process_document (file_path state) (state_filename state) = Raised e ->
  run_steps state store = _parse_step state store /\
  state_status (run_steps state store).1 = FAILED /\
  state_error_message (run_steps state store).1 = Some (exn_str e).
Proof.
  intros Hraise.
  assert (Hst : state_status (_parse_step state store).1 = FAILED
                /\ state_error_message (_parse_step state store).1
                   = Some (exn_str e)).
  { unfold _parse_step. destruct (utcnow store) as [t store1].
    destruct (update_status _ _ _ _) as [b store2]. simpl. rewrite Hraise.
    unfold step_failed. by destruct (update_status _ _ _ _). }
  assert (Hrun : run_steps state store = _parse_step state store).
  { unfold run_steps. destruct (_parse_step state store) as [state1 store1].
    destruct Hst as [Hst _]. simpl in Hst. unfold failed. by rewrite Hst. }
  rewrite Hrun. by destruct Hst.
Qed.

(** What [_parse_step] leaves in the store when the extractor raises. *)
Lemma parse_step_failure `{Externals} state store e r :
  processor_process_document (file_path state) (state_filename state) = Raised e ->
  results store !! state_transaction_id state = Some r ->
  transaction_id r = state_transaction_id state ->
  exists r',
    results (_parse_step state store).2 !! state_transaction_id state = Some r' /\
    status r' = FAILED /\
    error_message r' = error_message r /\
    processing_log r'
    = processing_log r
        ++ match message_given (Some (exn_str e)) with
           | Some m => [str_datetime (clock store + 3) +:+ ": " +:+ m]
           | None => []
           end.
Proof.
  intros Hraise Hmem Htid. unfold _parse_step.
  destruct (utcnow store) as [t store1] eqn:E1.
  assert (Hs1 : results store1 = results store /\ clock store1 = S (clock store)).
  { unfold utcnow in E1. by inversion E1. }
  destruct Hs1 as [Hres1 Hclk1].
  cbn [state_transaction_id log_append with_status file_path state_filename].
  destruct (update_status_known (state_transaction_id state) PARSING None
              store1 r) as (r1 & store2 & Hupd & Hmem2 & Htid2 & _ & Herr2 & Hlog2 & Hclk2);
    [by rewrite Hres1|done|].
  rewrite Hupd, Hraise. unfold step_failed.
  cbn [state_transaction_id log_append with_status with_error].
  destruct (update_status_known (state_transaction_id state) FAILED
              (Some (exn_str e)) store2 r1)
    as (r2 & store3 & Hupd3 & Hmem3 & _ & Hst3 & Herr3 & Hlog3 & _);
    [done|done|].
  rewrite Hupd3. exists r2. cbn [snd].
  split; [done|]. split; [done|]. split; [congruence|].
  rewrite Hlog3, Hlog2. cbn [message_given] in *. rewrite app_nil_r.
  rewrite Hclk2, Hclk1. by replace (clock store + 3) with (S (S (S (clock store)))) by lia.
Qed.

(** When the extractor raises, the snapshot that [process_document] leaves
    in the store has status FAILED, a log made of the line written on
    upload followed by the error (when its text is not empty), and no
    [error_message]: [update_status] writes its [message] to the log only,
    and nothing else copies [state.error_message] to the snapshot. *)
Lemma parse_failure_persisted `{Externals} tid path name store e :
  processor_process_document path name = Raised e ->
  exists r,
    results (process_document tid path name store).2 !! tid = Some r /\
    status r = FAILED /\
    error_message r = None /\
    processing_log r
    = ("Started processing: " +:+ str_datetime (S (clock store)))
        :: match message_given (Some (exn_str e)) with
           | Some m => [str_datetime (clock store + 7) +:+ ": " +:+ m]
           | None => []
           end.
Proof.
  intros Hraise. unfold process_document.
  destruct (initial_result tid path name store) as [r0 store0] eqn:E0.
  unfold initial_result in E0. simpl in E0.
  injection E0 as Hr0 Hs0.
  destruct (store_result r0 store0) as [b store1] eqn:E1.
  unfold store_result in E1. injection E1 as _ Hs1.
  set (state := initial_state tid path name).
  destruct (run_steps_parse_failure state store1 e Hraise) as (Hrun & _ & _).
  rewrite Hrun.
  destruct (parse_step_failure state store1 e r0) as (r & Hmem & Hst & Herr & Hlog).
  - done.
  - rewrite <- Hs1. cbn [results state state_transaction_id initial_state].
    rewrite <- Hr0 at 1. cbn [transaction_id]. apply lookup_insert_eq.
  - by rewrite <- Hr0.
  - exists r. destruct (_parse_step state store1) as [state' store'].
    cbn [snd state state_transaction_id initial_state] in *.
    split; [done|]. split; [done|].
    split; [by rewrite Herr, <- Hr0|].
    rewrite Hlog, <- Hr0, <- Hs1, <- Hs0. cbn [processing_log clock].
    by replace (S (S (S (S (clock store)))) + 3) with (clock store + 7) by lia.
Qed.

(** C1, evaluated. The extractor raises "cannot open file" on the first
    document given to an empty store. The snapshot left under the
    transaction id has status FAILED and a log of two lines, neither of
    them from the structuring step, and its [error_message] is [None]: the
    text of the error is in the log only. *)
Theorem extractor_failure_snapshot :
  exists r,
    results
      (@process_document Samples.failing_extractor
         "tx-1" "/uploads/scan.pdf" "scan.pdf" Samples.empty_storage).2
      !! "tx-1" = Some r /\
    status r = FAILED /\
    processing_log r
    = ["Started processing: 2024-05-01 10:00:1";
       "2024-05-01 10:00:7: cannot open file"] /\
    forallb (fun line => negb (String.prefix "Started structuring" line))
      (processing_log r) = true /\
    error_message r = None.
Proof.
  destruct (@parse_failure_persisted Samples.failing_extractor
              "tx-1" "/uploads/scan.pdf" "scan.pdf" Samples.empty_storage
              (Raise "cannot open file") eq_refl)
    as (r & Hmem & Hst & Herr & Hlog).
  exists r. split; [done|]. split; [done|].
  rewrite Hlog. by repeat split.
Qed.

(** *** Enhancement of the structure *)

Lemma enhance_structure_cases `{Externals} state :
  state_extracted_elements (enhance_structure state)
  = match llm_enhance_document_structure
            (element_dict <$> state_extracted_elements state) with
    | Ok (VList items) =>
        match result_map ExtractedElement_of_dict items with
        | Ok (e :: new_elements) => e :: new_elements
        | _ => state_extracted_elements state
        end
    | _ => state_extracted_elements state
    end.
Proof.
  unfold enhance_structure.
  destruct (llm_enhance_document_structure _) as [v|err]; [|done].
  destruct v as [| | | |items|]; cbn [is_list];
    rewrite ?andb_false_r, ?andb_true_r; try done.
  destruct items as [|v items]; [done|]. cbn [truthy].
  destruct (result_map _ _) as [[|e new_elements]|err]; done.
Qed.

Lemma result_map_roundtrip `{Externals} (l : list ExtractedElement) :
  (forall e, ExtractedElement_of_dict (element_dict e) = Ok e) ->
  result_map ExtractedElement_of_dict (element_dict <$> l) = Ok l.
Proof.
  intros Hrt. induction l as [|e l IH]; [done|].
  rewrite fmap_cons. cbn [result_map]. rewrite Hrt, IH. done.
Qed.

(** The tree that [_structure_step] ends with. *)
Lemma structure_step_elements `{Externals} state store :
  state_extracted_elements (_structure_step state store).1
  = match llm_enhance_document_structure
            (element_dict <$> build_elements (raw_elements state)) with
    | Ok (VList items) =>
        match result_map ExtractedElement_of_dict items with
        | Ok (e :: new_elements) => e :: new_elements
        | _ => build_elements (raw_elements state)
        end
    | _ => build_elements (raw_elements state)
    end.
Proof.
  unfold _structure_step. destruct (utcnow store) as [t store1].
  destruct (update_status _ _ _ _) as [b store2]. cbn [fst].
  by rewrite enhance_structure_cases.
Qed.



(** *** The service's own fallbacks *)

Section ServiceFallback.
Import TextChunking Enhancement.
Variable has_api_key : bool.
Variable chat_completion : list value -> nat -> nat -> result string.
Variable json_loads : string -> option value.

Local Abbreviation worker := (process_structure_chunk chat_completion json_loads).
Local Abbreviation enhance :=
  (enhance_document_structure has_api_key chat_completion json_loads).

Lemma collect_raised {R} (l : list (nat * result R)) i e :
  (i, Raised e) ∈ l ->
  existsb raised l = true /\ exists e', collect l = Raised e'.
Proof.
  unfold collect. induction l as [|[j o] l IH]; intros Hin; [by inversion Hin|].
  apply elem_of_cons in Hin as [Heq|Hin].
  - injection Heq as <- <-. split; [done|]. by exists e.
  - destruct (IH Hin) as [Hex (e' & He')]. split.
    + cbn [existsb]. rewrite Hex. apply orb_true_r.
    + destruct o as [r|e'']; [|by exists e'']. exists e'.
      cbn [result_map]. cbn [snd]. by rewrite He'.
Qed.

(** Without an API key, and whenever a worker has raised in the run, the
    service returns the elements it was given. *)
Lemma enhance_hands_input_back (elements : list value) (events : list event) :
  (has_api_key = false -> enhance elements events = Some elements) /\
  (forall s i e,
      run worker (chunk_elements elements 20) (init (chunk_elements elements 20) 1)
        events = Some s ->
      (i, Raised e) ∈ completed s ->
      enhance elements events = Some elements).
Proof.
  unfold enhance_document_structure. split.
  - by intros ->.
  - intros s i e Hrun Hin. destruct (negb has_api_key); [done|].
    unfold process_chunks_with_rate_limit. rewrite Hrun. unfold outcome.
    destruct (collect_raised _ _ _ Hin) as [-> (e' & ->)]. done.
Qed.

(** In both cases [_structure_step] ends with the locally built tree. *)
Lemma structure_step_service_fallback `{Externals} state store events :
  (forall e, ExtractedElement_of_dict (element_dict e) = Ok e) ->
  (forall elements,
      llm_enhance_document_structure elements
      = match enhance elements events with
        | Some enhanced => Ok (VList enhanced)
        | None => Raised (Raise "no answer")
        end) ->
  (has_api_key = false \/
   exists s i e,
     run worker
       (chunk_elements (element_dict <$> build_elements (raw_elements state)) 20)
       (init (chunk_elements
                (element_dict <$> build_elements (raw_elements state)) 20) 1)
       events = Some s /\
     (i, Raised e) ∈ completed s) ->
  state_extracted_elements (_structure_step state store).1
  = build_elements (raw_elements state).
Proof.
  intros Hrt Hllm Hfail.
  rewrite structure_step_elements, Hllm.
  destruct (enhance_hands_input_back
              (element_dict <$> build_elements (raw_elements state)) events)
    as [Hkey Hraise].
  assert (Hback : enhance (element_dict <$> build_elements (raw_elements state))
                    events
                  = Some (element_dict <$> build_elements (raw_elements state))).
  { destruct Hfail as [Hk|(s & i & e & Hrun & Hin)]; [by apply Hkey|].
    by apply (Hraise s i e). }
  rewrite Hback, (result_map_roundtrip _ Hrt).
  by destruct (build_elements (raw_elements state)).
Qed.

End ServiceFallback.

End PipelineFacts.

(** ** The bounded scheduler *)

Module SchedulerFacts.
Import TextChunking.

Section Scheduler.
Context {T R : Type}.
Variable process_func : T -> nat -> nat -> result R.

Local Abbreviation task := (@task R).
Local Abbreviation sched := (@sched R).
Local Abbreviation step := (step process_func).
Local Abbreviation run := (run process_func).
Local Abbreviation outcomes_ok := (outcomes_ok process_func).

Lemma count_insert (f : task -> bool) (l : list task) i t t' :
  l !! i = Some t ->
  count f (<[i := t']> l) + Nat.b2n (f t) = count f l + Nat.b2n (f t').
Proof.
  unfold count. revert i. induction l as [|a l IH]; intros i Hi; [done|].
  destruct i as [|i]; simpl in *.
  - inversion Hi; subst a. destruct (f t), (f t'); simpl; lia.
  - specialize (IH i Hi). destruct (f a); simpl; lia.
Qed.

Lemma count_replicate (f : task -> bool) n t :
  f t = false -> count f (replicate n t) = 0.
Proof.
  intros Hf. unfold count. induction n as [|n IH]; [done|].
  simpl. by rewrite Hf.
Qed.

Lemma count_le (f g : task -> bool) l :
  (forall t, f t = true -> g t = true) -> count f l <= count g l.
Proof.
  intros Hfg. unfold count. induction l as [|a l IH]; [done|]. simpl.
  destruct (f a) eqn:E.
  - rewrite (Hfg a E). simpl. lia.
  - destruct (g a); simpl; lia.
Qed.

(** Permits plus holders is constant. *)
Lemma step_permits chunks s ev s' :
  step chunks s ev = Some s' ->
  permits s' + holding s' = permits s + holding s.
Proof.
  unfold holding. destruct ev as [i|i|i]; simpl.
  - destruct (tasks s !! i) as [[| | |]|] eqn:E; try done.
    destruct (0 <? permits s)%nat eqn:Hp; [|done].
    apply Nat.ltb_lt in Hp. intros [= <-]. simpl.
    pose proof (count_insert is_holding _ _ _ Working E) as Hc. simpl in Hc. lia.
  - destruct (tasks s !! i) as [[| | |]|] eqn:E; try done.
    destruct (chunks !! i) as [chunk|]; [|done].
    destruct (process_func chunk i (length chunks)) as [r|e]; intros [= <-]; simpl.
    + pose proof (count_insert is_holding _ _ _ (Sleeping r) E) as Hc.
      simpl in Hc. lia.
    + pose proof (count_insert is_holding _ _ _ Finished E) as Hc.
      simpl in Hc. lia.
  - destruct (tasks s !! i) as [[| |r|]|] eqn:E; try done.
    intros [= <-]. simpl.
    pose proof (count_insert is_holding _ _ _ Finished E) as Hc. simpl in Hc. lia.
Qed.

Lemma run_permits chunks events s s' :
  run chunks s events = Some s' ->
  permits s' + holding s' = permits s + holding s.
Proof.
  revert s. induction events as [|ev events IH]; intros s; simpl.
  - by intros [= ->].
  - destruct (step chunks s ev) as [s1|] eqn:E; [|done].
    intros Hrun. rewrite (IH _ Hrun). by eapply step_permits.
Qed.

Lemma step_outcomes chunks s ev s' :
  step chunks s ev = Some s' -> outcomes_ok chunks s -> outcomes_ok chunks s'.
Proof.
  intros Hstep [Hc Hs]. destruct ev as [i|i|i]; simpl in Hstep.
  - destruct (tasks s !! i) as [[| | |]|] eqn:E; try done.
    destruct (0 <? permits s)%nat; [|done]. injection Hstep as <-.
    split; [done|]. simpl. intros j r Hj.
    destruct (decide (i = j)) as [->|Hne].
    + rewrite list_lookup_insert_eq in Hj by (by eapply lookup_lt_Some). done.
    + rewrite list_lookup_insert_ne in Hj by done. eauto.
  - destruct (tasks s !! i) as [[| | |]|] eqn:E; try done.
    destruct (chunks !! i) as [chunk|] eqn:Ec; [|done].
    destruct (process_func chunk i (length chunks)) as [r|e] eqn:Ep;
      injection Hstep as <-; split; simpl.
    + done.
    + intros j r' Hj. destruct (decide (i = j)) as [->|Hne].
      * rewrite list_lookup_insert_eq in Hj by (by eapply lookup_lt_Some).
        injection Hj as <-. exists chunk. by rewrite Ep.
      * rewrite list_lookup_insert_ne in Hj by done. eauto.
    + intros j o [Hin|Hin]%elem_of_app; [eauto|].
      apply list_elem_of_singleton in Hin. injection Hin as -> ->.
      exists chunk. by rewrite Ep.
    + intros j r' Hj. destruct (decide (i = j)) as [->|Hne].
      * rewrite list_lookup_insert_eq in Hj by (by eapply lookup_lt_Some). done.
      * rewrite list_lookup_insert_ne in Hj by done. eauto.
  - destruct (tasks s !! i) as [[| |r|]|] eqn:E; try done.
    injection Hstep as <-. split; simpl.
    + intros j o [Hin|Hin]%elem_of_app; [eauto|].
      apply list_elem_of_singleton in Hin. injection Hin as -> ->.
      destruct (Hs i r E) as (chunk & Hck & Hr). exists chunk. by rewrite Hr.
    + intros j r' Hj. destruct (decide (i = j)) as [->|Hne].
      * rewrite list_lookup_insert_eq in Hj by (by eapply lookup_lt_Some). done.
      * rewrite list_lookup_insert_ne in Hj by done. eauto.
Qed.

Lemma run_outcomes chunks events s s' :
  run chunks s events = Some s' -> outcomes_ok chunks s -> outcomes_ok chunks s'.
Proof.
  revert s. induction events as [|ev events IH]; intros s; simpl.
  - by intros [= ->].
  - destruct (step chunks s ev) as [s1|] eqn:E; [|done].
    intros Hrun Hok. eapply IH; [done|]. by eapply step_outcomes.
Qed.

Lemma count_pos (f : task -> bool) (l : list task) i t :
  l !! i = Some t -> f t = true -> 1 <= count f l.
Proof.
  unfold count. revert i. induction l as [|a l IH]; intros i Hi Hf; [done|].
  destruct i as [|i]; simpl in *.
  - injection Hi as ->. rewrite Hf. simpl. lia.
  - specialize (IH i Hi Hf). destruct (f a); simpl; lia.
Qed.

Lemma count_two (f : task -> bool) (l : list task) i j t t' :
  i <> j -> l !! i = Some t -> l !! j = Some t' ->
  f t = true -> f t' = true -> f Waiting = false -> 2 <= count f l.
Proof.
  intros Hne Hi Hj Hf Hf' Hw.
  pose proof (count_insert f l i t Waiting Hi) as Hc.
  rewrite Hf, Hw in Hc. simpl in Hc.
  assert (Hj' : <[i := Waiting]> l !! j = Some t')
    by (by rewrite list_lookup_insert_ne).
  pose proof (count_pos f _ j t' Hj' Hf'). lia.
Qed.

Lemma count_all (f : task -> bool) (l : list task) :
  forallb f l = true -> count f l = length l.
Proof.
  unfold count. induction l as [|a l IH]; [done|]. simpl.
  intros [Ha Hl]%andb_true_iff. rewrite Ha. simpl. by rewrite IH.
Qed.

(** The tasks that have left the semaphore are those in [completed]. *)
Lemma step_finished chunks s ev s' :
  step chunks s ev = Some s' ->
  length (tasks s') = length (tasks s) /\
  (count is_finished (tasks s) = length (completed s) ->
   count is_finished (tasks s') = length (completed s')).
Proof.
  destruct ev as [i|i|i]; simpl.
  - destruct (tasks s !! i) as [[| | |]|] eqn:E; try done.
    destruct (0 <? permits s)%nat; [|done]. intros [= <-]. simpl.
    rewrite length_insert. split; [done|].
    pose proof (count_insert is_finished _ _ _ Working E) as Hc. simpl in Hc. lia.
  - destruct (tasks s !! i) as [[| | |]|] eqn:E; try done.
    destruct (chunks !! i) as [chunk|]; [|done].
    destruct (process_func chunk i (length chunks)) as [r|e]; intros [= <-];
      simpl; rewrite length_insert; (split; [done|]).
    + pose proof (count_insert is_finished _ _ _ (Sleeping r) E) as Hc.
      simpl in Hc. lia.
    + pose proof (count_insert is_finished _ _ _ Finished E) as Hc.
      simpl in Hc. rewrite length_app. simpl. lia.
  - destruct (tasks s !! i) as [[| |r|]|] eqn:E; try done.
    intros [= <-]. simpl. rewrite length_insert. split; [done|].
    pose proof (count_insert is_finished _ _ _ Finished E) as Hc.
    simpl in Hc. rewrite length_app. simpl. lia.
Qed.

Lemma run_finished chunks events s s' :
  run chunks s events = Some s' ->
  length (tasks s') = length (tasks s) /\
  (count is_finished (tasks s) = length (completed s) ->
   count is_finished (tasks s') = length (completed s')).
Proof.
  revert s. induction events as [|ev events IH]; intros s; simpl.
  - by intros [= ->].
  - destruct (step chunks s ev) as [s1|] eqn:E; [|done].
    intros Hrun. destruct (IH _ Hrun) as [Hlen Hfin].
    destruct (step_finished _ _ _ _ E) as [Hlen1 Hfin1].
    split; [congruence|auto].
Qed.

(** With one permit, a step keeps the log serial. *)
Lemma step_serial chunks s ev s' :
  step chunks s ev = Some s' ->
  permits s + holding s = 1 ->
  serial_log s -> serial_log s'.
Proof.
  intros Hstep Hone Hlog.
  pose proof (step_permits _ _ _ _ Hstep) as Hperm.
  assert (Hholder : forall j t,
             tasks s !! j = Some t -> is_holding t = true ->
             permits s = 0 /\
             started s = (completed s).*1 ++ [j]).
  { intros j t Hj Ht. pose proof (count_pos is_holding _ _ _ Hj Ht) as Hpos.
    fold (holding s) in Hpos. split; [lia|].
    destruct Hlog as [[H0 _]|(i & t' & Hi & Ht' & Hst)]; [lia|].
    destruct (decide (i = j)) as [->|Hne]; [done|].
    pose proof (count_two is_holding _ _ _ _ _ Hne Hi Hj Ht' Ht eq_refl) as H2.
    fold (holding s) in H2. lia. }
  destruct ev as [i|i|i]; simpl in Hstep.
  - destruct (tasks s !! i) as [[| | |]|] eqn:E; try done.
    destruct (0 <? permits s)%nat eqn:Hp; [|done].
    apply Nat.ltb_lt in Hp. injection Hstep as <-.
    right. exists i, Working. simpl.
    rewrite list_lookup_insert_eq by (by eapply lookup_lt_Some).
    split; [done|]. split; [done|].
    destruct Hlog as [[_ ->]|(j & t & Hj & Ht & _)]; [done|].
    destruct (Hholder j t Hj Ht). lia.
  - destruct (tasks s !! i) as [[| | |]|] eqn:E; try done.
    destruct (Hholder i Working E eq_refl) as [Hp0 Hst].
    destruct (chunks !! i) as [chunk|]; [|done].
    destruct (process_func chunk i (length chunks)) as [r|e];
      injection Hstep as <-.
    + right. exists i, (Sleeping r). simpl.
      rewrite list_lookup_insert_eq by (by eapply lookup_lt_Some). done.
    + left. simpl in *. split; [unfold holding in *; simpl in *; lia|].
      by rewrite fmap_app.
  - destruct (tasks s !! i) as [[| |r|]|] eqn:E; try done.
    destruct (Hholder i (Sleeping r) E eq_refl) as [Hp0 Hst].
    injection Hstep as <-.
    left. simpl in *. split; [unfold holding in *; simpl in *; lia|].
    by rewrite fmap_app.
Qed.

Lemma run_serial chunks events s s' :
  run chunks s events = Some s' ->
  permits s + holding s = 1 ->
  serial_log s -> serial_log s'.
Proof.
  revert s. induction events as [|ev events IH]; intros s; simpl.
  - by intros [= ->].
  - destruct (step chunks s ev) as [s1|] eqn:E; [|done].
    intros Hrun Hone Hlog. eapply IH; [done| |by eapply step_serial].
    by rewrite (step_permits _ _ _ _ E).
Qed.

Lemma init_holding (chunks : list T) n : holding (@init T R chunks n) = 0.
Proof. unfold holding, init. simpl. by apply count_replicate. Qed.

(** C9. In every state that a run of the scheduler reaches from its
    start with [max_concurrent] permits, at most [max_concurrent]
    invocations of the worker are active (indeed at most that many tasks
    are inside the semaphore, working or pacing), and every outcome
    recorded is that of the worker on the chunk of that index. With one
    permit the run is serial: the tasks complete in the order in which they
    entered the semaphore, and a task enters only when all the tasks that
    entered before it have completed. *)
Theorem scheduler_concurrency_bound (chunks : list T) (max_concurrent : nat)
    (events : list event) (s : sched) :
  run chunks (init chunks max_concurrent) events = Some s ->
  in_flight s <= max_concurrent /\
  holding s <= max_concurrent /\
  (forall i o,
      (i, o) ∈ completed s ->
      exists chunk,
        chunks !! i = Some chunk /\ o = process_func chunk i (length chunks)) /\
  (max_concurrent = 1 ->
   exists inside,
     started s = (completed s).*1 ++ inside /\ length inside = holding s).
Proof.
  intros Hrun.
  pose proof (run_permits _ _ _ _ Hrun) as Hperm.
  rewrite init_holding in Hperm. simpl in Hperm.
  assert (Hle : in_flight s <= holding s).
  { apply count_le. by intros []. }
  split; [lia|]. split; [lia|]. split.
  - eapply run_outcomes; [done|]. split; simpl.
    + intros i o Hin. inversion Hin.
    + intros i r Hi. apply lookup_replicate in Hi as [Hi _]. done.
  - intros ->.
    assert (Hlog : serial_log s).
    { eapply run_serial; [done|by rewrite init_holding|].
      left. by rewrite init_holding. }
    destruct Hlog as [[H0 Hst]|(i & t & Hi & Ht & Hst)].
    + exists []. by rewrite app_nil_r.
    + exists [i]. split; [done|].
      pose proof (count_pos is_holding _ _ _ Hi Ht) as Hpos.
      fold (holding s) in Hpos. simpl. lia.
Qed.

(** *** Failures *)

Lemma collect_first_raised (before : list (nat * result R)) i e after :
  Forall (fun o => raised o = false) before ->
  collect (before ++ (i, Raised e) :: after) = Raised e /\
  existsb raised (before ++ (i, Raised e) :: after) = true.
Proof.
  unfold collect. induction before as [|[j o] before IH]; intros Hall.
  - done.
  - apply Forall_cons in Hall as [Ho Hall]. destruct (IH Hall) as [IH1 IH2].
    destruct o as [r|e']; [|done]. simpl in *.
    rewrite IH1. by rewrite IH2.
Qed.

Lemma collect_all_ok (l : list (nat * result R)) :
  Forall (fun o => raised o = false) l ->
  exists results,
    collect l = Ok results /\ length results = length l /\
    existsb raised l = false.
Proof.
  unfold collect. induction l as [|[j o] l IH]; intros Hall.
  - by exists [].
  - apply Forall_cons in Hall as [Ho Hall].
    destruct (IH Hall) as (rs & Hrs & Hlen & Hex).
    destruct o as [r|e']; [|done]. exists (r :: rs). simpl in *.
    rewrite Hrs. simpl. by rewrite Hlen, Hex.
Qed.

(** C3, as the code has it. In every state [s] that a run reaches: the end
    of a worker, by return or by exception, changes no task but its own, and
    an exception gives the permit back at once, so no sibling is cancelled
    or blocked; but the call has no fallback for a worker that raises: the
    first exception in completion order leaves the call, whatever results
    were collected before it; and the call returns a list, one result per
    chunk, only when every task has completed and none has raised. *)
Theorem scheduler_failure_propagates (chunks : list T) (max_concurrent : nat)
    (events : list event) (s : sched) :
  run chunks (init chunks max_concurrent) events = Some s ->
  (forall i s',
      step chunks s (WorkerEnds i) = Some s' ->
      (forall j, j <> i -> tasks s' !! j = tasks s !! j) /\
      (forall chunk e,
          chunks !! i = Some chunk ->
          process_func chunk i (length chunks) = Raised e ->
          permits s' = permits s + 1 /\
          completed s' = completed s ++ [(i, Raised e)])) /\
  (forall before i e after,
      completed s = before ++ (i, Raised e) :: after ->
      Forall (fun o => raised o = false) before ->
      outcome s = Some (Raised e)) /\
  (forallb is_finished (tasks s) = true ->
   Forall (fun o => raised o = false) (completed s) ->
   exists results,
     outcome s = Some (Ok results) /\ length results = length chunks).
Proof.
  intros Hrun. split; [|split].
  - intros i s' Hstep. simpl in Hstep.
    destruct (tasks s !! i) as [[| | |]|] eqn:E; try done.
    destruct (chunks !! i) as [chunk|] eqn:Ec; [|done]. split.
    + intros j Hne.
      destruct (process_func chunk i (length chunks)); injection Hstep as <-;
        simpl; by rewrite list_lookup_insert_ne.
    + intros chunk' e [= <-] He. rewrite He in Hstep.
      by injection Hstep as <-.
  - intros before i e after Hc Hall. unfold outcome. rewrite Hc.
    destruct (collect_first_raised before i e after Hall) as [-> ->]. done.
  - intros Hfin Hall.
    destruct (collect_all_ok _ Hall) as (results & Hres & Hlen & Hex).
    exists results. unfold outcome. rewrite Hex, Hfin, Hres. split; [done|].
    destruct (run_finished _ _ _ _ Hrun) as [Hlt Hcount].
    rewrite Hlen, <- Hcount.
    + rewrite count_all by done. rewrite Hlt. simpl. apply length_replicate.
    + simpl. by apply count_replicate.
Qed.

(** *** The serial run lets the call finish *)

Lemma run_app chunks s events1 events2 :
  run chunks s (events1 ++ events2)
  = match run chunks s events1 with
    | Some s' => run chunks s' events2
    | None => None
    end.
Proof.
  revert s. induction events1 as [|ev events1 IH]; intros s; simpl; [done|].
  by destruct (step chunks s ev).
Qed.

Lemma insert_progress (k m : nat) (t : task) :
  <[k := t]> (replicate k Finished ++ Waiting :: replicate m Waiting)
  = replicate k Finished ++ t :: replicate m Waiting.
Proof.
  rewrite insert_app_r_alt by (rewrite length_replicate; lia).
  by rewrite length_replicate, Nat.sub_diag.
Qed.

(** One task taken alone, from the semaphore to its end. *)
Lemma serial_events_run chunks s k c rest :
  tasks s !! k = Some Waiting ->
  chunks !! k = Some c ->
  1 <= permits s ->
  run chunks s (serial_events process_func (length chunks) k c ++ rest)
  = run chunks
      {| tasks := <[k := Finished]> (tasks s);
         permits := permits s;
         started := started s ++ [k];
         completed := completed s ++ [(k, process_func c k (length chunks))] |}
      rest.
Proof.
  intros Hwait Hck Hpos.
  assert (Hlt : k < length (tasks s)) by (by eapply lookup_lt_Some).
  assert (Hp : (0 <? permits s)%nat = true) by (apply Nat.ltb_lt; lia).
  unfold serial_events.
  destruct (process_func c k (length chunks)) as [r|e] eqn:Ep.
  - cbn [app run]. unfold step at 1. rewrite Hwait, Hp.
    unfold step at 1. cbn [tasks permits started completed].
    rewrite list_lookup_insert_eq, Hck, Ep by done.
    unfold step at 1. cbn [tasks permits started completed].
    rewrite list_lookup_insert_eq by (by rewrite length_insert).
    rewrite !list_insert_insert_eq.
    by replace (permits s - 1 + 1) with (permits s) by lia.
  - cbn [app run]. unfold step at 1. rewrite Hwait, Hp.
    unfold step at 1. cbn [tasks permits started completed].
    rewrite list_lookup_insert_eq, Hck, Ep by done.
    rewrite !list_insert_insert_eq.
    by replace (permits s - 1 + 1) with (permits s) by lia.
Qed.

(** The state in which the first [length done] tasks have run one after
    the other and the others have not started. *)
Lemma serial_run_from (max_concurrent : nat) (done todo : list T) :
  1 <= max_concurrent ->
  run (done ++ todo)
    {| tasks := replicate (length done) Finished
                  ++ replicate (length todo) Waiting;
       permits := max_concurrent;
       started := seq 0 (length done);
       completed :=
         imap (fun i c => (i, process_func c i (length (done ++ todo)))) done |}
    (mjoin (imap (fun i => serial_events process_func (length (done ++ todo))
                              (length done + i)) todo))
  = Some {| tasks := replicate (length (done ++ todo)) Finished;
            permits := max_concurrent;
            started := seq 0 (length (done ++ todo));
            completed :=
              imap (fun i c => (i, process_func c i (length (done ++ todo))))
                (done ++ todo) |}.
Proof.
  intros Hpos. revert done. induction todo as [|c todo IH]; intros done.
  - cbn [imap mjoin list_join run]. by rewrite !app_nil_r.
  - rewrite imap_cons. cbn [mjoin list_join]. rewrite Nat.add_0_r.
    rewrite serial_events_run; cbn [tasks permits started completed].
    + specialize (IH (done ++ [c])).
      rewrite <- !(assoc_L (++)) in IH. cbn [app] in IH.
      rewrite length_app in IH. cbn [length] in IH.
      rewrite replicate_add, seq_app, imap_app in IH. cbn [replicate seq imap] in IH.
      rewrite <- (assoc_L (++)) in IH. cbn [app] in IH.
      rewrite Nat.add_0_r in IH.
      cbn [length replicate]. rewrite insert_progress.
      erewrite (imap_ext (_ ∘ S)); [apply IH|].
      intros i x _. simpl. f_equal. lia.
    + rewrite lookup_app_r by (rewrite length_replicate; lia).
      by rewrite length_replicate, Nat.sub_diag.
    + by rewrite lookup_app_r, Nat.sub_diag by lia.
    + done.
Qed.

(** With at least one permit, the serial run is a run of the scheduler
    that lets the call finish: it returns the results in the order of the
    chunks, or raises the first exception in that order. *)
Lemma serial_run_returns (chunks : list T) (max_concurrent : nat) :
  1 <= max_concurrent ->
  process_chunks_with_rate_limit process_func chunks max_concurrent
    (serial_run process_func chunks)
  = Some (collect (imap (fun i c => (i, process_func c i (length chunks))) chunks)).
Proof.
  intros Hpos. unfold process_chunks_with_rate_limit.
  pose proof (serial_run_from max_concurrent [] chunks Hpos) as Hrun.
  cbn [app length replicate seq imap] in Hrun.
  lazymatch type of Hrun with
  | _ = ?final =>
      assert (E : run chunks (init chunks max_concurrent)
                    (serial_run process_func chunks) = final) by exact Hrun
  end.
  rewrite E. unfold outcome. cbn [tasks completed].
  destruct (existsb raised _); [done|].
  assert (Hfin : forall n, forallb is_finished (replicate n (@Finished R)) = true).
  { induction n as [|n IHn]; [done|]. simpl. done. }
  by rewrite Hfin.
Qed.

End Scheduler.

Lemma scheduler_concurrency_bound_witness :
  exists s,
    run ChunkSamples.echo ["a"; "b"] (init ["a"; "b"] 1)
      (serial_run ChunkSamples.echo ["a"; "b"]) = Some s /\
    in_flight s <= 1 /\
    started s = [0; 1] /\
    (completed s).*2 = [Ok "a"; Ok "b"].
Proof.
  eexists. split; [reflexivity|].
  split; [|by split].
  apply (scheduler_concurrency_bound ChunkSamples.echo ["a"; "b"] 1
           (serial_run ChunkSamples.echo ["a"; "b"])).
  reflexivity.
Defined.

Lemma scheduler_failure_propagates_witness :
  process_chunks_with_rate_limit ChunkSamples.flaky ["a"; "b"] 2
    ChunkSamples.overlapping_run
  = Some (Raised (Raise "rate limit exceeded")).
Proof.
  unfold process_chunks_with_rate_limit.
  destruct (run ChunkSamples.flaky ["a"; "b"] (init ["a"; "b"] 2)
              ChunkSamples.overlapping_run) as [s|] eqn:Hrun; [|discriminate Hrun].
  destruct (scheduler_failure_propagates ChunkSamples.flaky ["a"; "b"] 2
              ChunkSamples.overlapping_run s Hrun) as (_ & Hraise & _).
  injection Hrun as <-.
  apply (Hraise [(1, Ok "b")] 0 (Raise "rate limit exceeded") []).
  - reflexivity.
  - by repeat constructor.
Defined.

(** C3 as stated fails: the first worker raises after its sibling has
    completed with a result; the call raises, and returns neither a
    fallback for the failed chunk nor the sibling's result. *)
Lemma scheduler_fallback_counterexample :
  process_chunks_with_rate_limit ChunkSamples.flaky ["a"; "b"] 2
    ChunkSamples.overlapping_run
  = Some (Raised (Raise "rate limit exceeded")) /\
  ~ (exists results,
        process_chunks_with_rate_limit ChunkSamples.flaky ["a"; "b"] 2
          ChunkSamples.overlapping_run
        = Some (Ok results)).
Proof.
  split; [reflexivity|]. intros [results H]. discriminate H.
Qed.

End SchedulerFacts.

(** ** The chunk splitter *)

Module ChunkFacts.
Import TextChunking.

(** *** Strings *)

Lemma str_app_nil_l s : "" +:+ s = s.
Proof. reflexivity. Qed.

Lemma str_app_cons c s t : String c s +:+ t = String c (s +:+ t).
Proof. reflexivity. Qed.

Lemma str_app_nil_r s : s +:+ "" = s.
Proof.
  induction s as [|c s IH]; [done|]. by rewrite str_app_cons, IH.
Qed.


Lemma str_length_app s1 s2 :
  String.length (s1 +:+ s2) = String.length s1 + String.length s2.
Proof.
  induction s1 as [|c s1 IH]; [done|]. rewrite str_app_cons. simpl.
  by rewrite IH.
Qed.

Lemma nonempty_true s : nonempty s = true <-> s <> "".
Proof.
  unfold nonempty. destruct (String.eqb_spec s ""); split; try done.
Qed.



Lemma substring_all m s : String.length s <= m -> String.substring 0 m s = s.
Proof.
  revert m. induction s as [|c s IH]; intros [|m]; simpl; try done; try lia.
  intros Hle. rewrite IH; [done|lia].
Qed.


Lemma substring_add k a b s :
  String.substring k a s +:+ String.substring (k + a) b s
  = String.substring k (a + b) s.
Proof.
  revert k a. induction s as [|c s IH]; intros k a.
  - destruct k, a, b; done.
  - destruct k as [|k]; simpl.
    + destruct a as [|a]; simpl; [done|].
      rewrite str_app_cons. f_equal. apply (IH 0 a).
    + apply IH.
Qed.

(** *** [split] and [join] *)






(** *** The slices of an over-long sentence *)






(** *** The size of the chunks *)







(** *** Putting the chunks back together *)


















(** *** The loops *)








End ChunkFacts.

(** ** The element chunker *)

Module ChunkElementsFacts.
Import Enhancement.

Lemma chunk_elements_step_concat m chunks cur page element :
  let st := chunk_elements_step m (chunks, cur, page) element in
  concat st.1.1 ++ st.1.2 = concat chunks ++ cur ++ [element].
Proof.
  unfold chunk_elements_step.
  destruct (negb _ && negb _); destruct (_ <=? _)%nat; cbn [fst snd];
    rewrite ?concat_app; simpl; rewrite ?app_nil_r, <- ?(assoc_L (++)); done.
Qed.

Lemma chunk_elements_fold_concat m elements chunks cur page :
  let st := fold_left (chunk_elements_step m) elements (chunks, cur, page) in
  concat st.1.1 ++ st.1.2 = concat chunks ++ cur ++ elements.
Proof.
  revert chunks cur page. induction elements as [|e elements IH];
    intros chunks cur page; cbn [fold_left].
  - by rewrite app_nil_r.
  - pose proof (chunk_elements_step_concat m chunks cur page e) as Hstep.
    destruct (chunk_elements_step m (chunks, cur, page) e) as [[chunks1 cur1] page1].
    cbn [fst snd] in Hstep. cbn zeta in IH. rewrite IH.
    rewrite (assoc_L (++)), Hstep. by rewrite <- !(assoc_L (++)).
Qed.

Lemma chunk_elements_flat (elements : list value) (max_elements_per_chunk : nat) :
  concat (chunk_elements elements max_elements_per_chunk) = elements.
Proof.
  unfold chunk_elements. destruct (_ <=? _)%nat.
  - simpl. apply app_nil_r.
  - pose proof (chunk_elements_fold_concat max_elements_per_chunk elements
                  [] [] VNone) as Hfold.
    destruct (fold_left _ _ _) as [[chunks cur] page]. cbn [fst snd] in Hfold.
    simpl in Hfold. destruct cur as [|e cur].
    + by rewrite app_nil_r in Hfold.
    + rewrite concat_app. simpl. by rewrite app_nil_r.
Qed.

(** X1. The chunks of [chunk_elements], one after the other, are the
    elements given, each once and in the same order, whatever the limit. *)
Theorem chunk_elements_concat (elements : list value) (max_elements_per_chunk : nat) :
  concat (chunk_elements elements max_elements_per_chunk) = elements.
Proof. apply chunk_elements_flat. Qed.

Lemma page_flush_needs_elements (m : nat) :
  negb (Qle_bool (inject_Z (Z.of_nat 0)) (inject_Z (Z.of_nat m) * 0.8)) = false.
Proof.
  apply negb_false_iff, Qle_bool_iff.
  unfold Qle, Qmult, inject_Z. simpl. lia.
Qed.

Lemma chunk_elements_step_ok m st element :
  chunks_ok m st -> chunks_ok m (chunk_elements_step m st element).
Proof.
  destruct st as [[chunks cur] page]. intros [Hall Hcur]. cbn [fst snd] in *.
  unfold chunk_elements_step.
  destruct (negb _ && negb _) eqn:Hflush.
  - assert (Hne : cur <> []).
    { intros ->. apply andb_true_iff in Hflush as [_ Hlen].
      simpl length in Hlen. by rewrite page_flush_needs_elements in Hlen. }
    assert (Hall' : Forall (fun c => c <> [] /\ length c <= m) (chunks ++ [cur])).
    { apply Forall_app. split; [done|]. apply Forall_singleton. split; [done|lia]. }
    simpl. destruct (m <=? 1)%nat eqn:Hm; split; cbn [fst snd]; simpl.
    + apply Nat.leb_le in Hm. apply Forall_app. split; [done|].
      apply Forall_singleton. split; [done|simpl; lia].
    + lia.
    + done.
    + apply Nat.leb_gt in Hm. lia.
  - destruct (m <=? length (cur ++ [element]))%nat eqn:Hm; split; cbn [fst snd].
    + apply Forall_app. split; [done|]. apply Forall_singleton.
      split; [by destruct cur|]. rewrite length_app. simpl. lia.
    + simpl. lia.
    + done.
    + by apply Nat.leb_gt in Hm.
Qed.

Lemma chunk_elements_fold_ok m elements st :
  chunks_ok m st -> chunks_ok m (fold_left (chunk_elements_step m) elements st).
Proof.
  revert st. induction elements as [|e elements IH]; intros st Hok; [done|].
  cbn [fold_left]. by apply IH, chunk_elements_step_ok.
Qed.

(** X2. For a limit of at least 1, no chunk of [chunk_elements] holds
    more elements than the limit, and no chunk is empty unless the input
    is. *)
Theorem chunk_elements_bounded (elements : list value) (max_elements_per_chunk : nat) :
  1 <= max_elements_per_chunk ->
  Forall (fun c => length c <= max_elements_per_chunk)
    (chunk_elements elements max_elements_per_chunk) /\
  (elements <> [] ->
   Forall (fun c => c <> []) (chunk_elements elements max_elements_per_chunk)).
Proof.
  intros Hm. unfold chunk_elements.
  destruct (_ <=? _)%nat eqn:Hle.
  - apply Nat.leb_le in Hle. split; intros; by apply Forall_singleton.
  - pose proof (chunk_elements_fold_ok max_elements_per_chunk elements
                  ([], [], VNone)) as Hok.
    destruct (fold_left _ _ _) as [[chunks cur] page].
    destruct Hok as [Hall Hcur]; [split; simpl; [constructor|lia]|].
    cbn [fst snd] in *.
    assert (Hall' : Forall (fun c => c <> [] /\ length c <= max_elements_per_chunk)
                      match cur with [] => chunks | _ :: _ => chunks ++ [cur] end).
    { destruct cur as [|e cur]; [done|]. apply Forall_app. split; [done|].
      apply Forall_singleton. split; [done|lia]. }
    split; [|intros _]; eapply Forall_impl; try exact Hall'; by intros c [].
Qed.

Lemma chunk_elements_bounded_witness :
  Forall (fun c => length c <= 2)
    (chunk_elements [VNum 1; VNum 2; VNum 3; VNum 4; VNum 5] 2).
Proof.
  apply (chunk_elements_bounded [VNum 1; VNum 2; VNum 3; VNum 4; VNum 5] 2). lia.
Defined.

End ChunkElementsFacts.

(** ** The bounded scheduler: what the call returns *)

Module SchedulerReturnFacts.
Import TextChunking SchedulerFacts.

Section Scheduler.
Context {T R : Type}.
Variable process_func : T -> nat -> nat -> result R.

Local Abbreviation sched := (@sched R).
Local Abbreviation step := (step process_func).
Local Abbreviation run := (run process_func).

Lemma finished_insert (l : list (@task R)) i t j :
  i < length l ->
  <[i := t]> l !! j = Some Finished <->
  (j = i /\ t = Finished) \/ (j <> i /\ l !! j = Some Finished).
Proof.
  intros Hi. destruct (decide (j = i)) as [->|Hne].
  - rewrite list_lookup_insert_eq by done. split.
    + intros [= ->]. by left.
    + intros [[_ ->]|[? _]]; done.
  - rewrite list_lookup_insert_ne by done. split.
    + intros Hj. by right.
    + intros [[? _]|[_ Hj]]; done.
Qed.

Lemma step_done chunks s ev s' :
  step chunks s ev = Some s' -> done_log s -> done_log s'.
Proof.
  intros Hstep [Hnd Hiff].
  assert (Hkeep : forall i t,
             tasks s !! i <> Some Finished -> t <> Finished ->
             forall j, j ∈ (completed s).*1 <->
                       <[i := t]> (tasks s) !! j = Some Finished).
  { intros i t Hi Ht j. rewrite Hiff. destruct (decide (j = i)) as [->|Hne].
    - split; [done|]. intros Hj. apply list_lookup_insert_Some in Hj.
      destruct Hj as [(_ & ? & _)|[? _]]; done.
    - by rewrite list_lookup_insert_ne. }
  assert (Hadd : forall i o,
             i < length (tasks s) -> tasks s !! i <> Some Finished ->
             NoDup (completed s ++ [(i, o)]).*1 /\
             forall j, j ∈ (completed s ++ [(i, o)]).*1 <->
                       <[i := Finished]> (tasks s) !! j = Some Finished).
  { intros i o Hlt Hi. rewrite fmap_app. simpl. split.
    - apply NoDup_app. split; [done|]. split; [|apply NoDup_singleton].
      intros j Hj ->%list_elem_of_singleton. by apply Hiff in Hj.
    - intros j. rewrite finished_insert by done.
      rewrite elem_of_app, list_elem_of_singleton, Hiff.
      destruct (decide (j = i)) as [->|Hne]; [|by intuition].
      split; [by left|by right]. }
  destruct ev as [i|i|i]; simpl in Hstep.
  - destruct (tasks s !! i) as [[| | |]|] eqn:E; try done.
    destruct (0 <? permits s)%nat; [|done]. injection Hstep as <-.
    split; [done|]. cbn [tasks completed]. apply Hkeep; congruence.
  - destruct (tasks s !! i) as [[| | |]|] eqn:E; try done.
    destruct (chunks !! i) as [chunk|]; [|done].
    destruct (process_func chunk i (length chunks)) as [r|e];
      injection Hstep as <-; unfold done_log; cbn [tasks completed].
    + split; [done|]. apply Hkeep; congruence.
    + apply Hadd; [by eapply lookup_lt_Some|congruence].
  - destruct (tasks s !! i) as [[| |r|]|] eqn:E; try done.
    injection Hstep as <-. unfold done_log. cbn [tasks completed].
    apply Hadd; [by eapply lookup_lt_Some|congruence].
Qed.

Lemma run_done chunks events s s' :
  run chunks s events = Some s' -> done_log s -> done_log s'.
Proof.
  revert s. induction events as [|ev events IH]; intros s; simpl.
  - by intros [= ->].
  - destruct (step chunks s ev) as [s1|] eqn:E; [|done].
    intros Hrun Hd. eapply IH; [done|]. by eapply step_done.
Qed.

Lemma collect_ok_inv (l : list (nat * result R)) results :
  collect l = Ok results ->
  Forall2 (fun o r => o.2 = Ok r) l results /\ existsb raised l = false.
Proof.
  unfold collect. revert results.
  induction l as [|[j o] l IH]; intros results; simpl.
  - intros [= <-]. split; [constructor|done].
  - destruct o as [r|e]; simpl; [|done].
    destruct (result_map _ l) as [rs|e] eqn:E; simpl; [|done].
    intros [= <-]. destruct (IH rs eq_refl) as [Hall Hex].
    split; [by constructor|done].
Qed.

Lemma returns_each_result_once (chunks : list T)
    (max_concurrent : nat) (events : list event) (results : list R) :
  process_chunks_with_rate_limit process_func chunks max_concurrent events
  = Some (Ok results) ->
  exists order,
    order ≡ₚ seq 0 (length chunks) /\
    Forall2
      (fun i r =>
         exists chunk,
           chunks !! i = Some chunk /\
           process_func chunk i (length chunks) = Ok r)
      order results.
Proof.
  unfold process_chunks_with_rate_limit.
  destruct (run chunks _ events) as [s|] eqn:Hrun; [|done].
  intros Hout. exists (completed s).*1.
  assert (Hcol : collect (completed s) = Ok results
                 /\ forallb is_finished (tasks s) = true).
  { unfold outcome in Hout. destruct (existsb raised (completed s)) eqn:Hex.
    - injection Hout as Hc. destruct (collect_ok_inv _ _ Hc) as [_ Hex'].
      congruence.
    - destruct (forallb is_finished (tasks s)); [|done]. by injection Hout as ->. }
  destruct Hcol as [Hcol Hfin].
  destruct (collect_ok_inv _ _ Hcol) as [Hall _].
  destruct (run_finished process_func _ _ _ _ Hrun) as [Hlen _].
  simpl in Hlen. rewrite length_replicate in Hlen.
  assert (Hdone : done_log s).
  { eapply run_done; [done|]. split; [constructor|]. simpl. intros i.
    split; [by intros ?%elem_of_nil|].
    intros Hi. apply lookup_replicate in Hi as [Hi _]. discriminate Hi. }
  destruct Hdone as [Hnd Hiff].
  pose proof (run_outcomes process_func _ _ _ _ Hrun) as Hok.
  destruct Hok as [Hok _].
  { split; simpl; [by intros i o ?%elem_of_nil|].
    intros i r Hi. apply lookup_replicate in Hi as [Hi _]. discriminate Hi. }
  split.
  - apply NoDup_Permutation; [done|apply NoDup_seq|].
    intros i. rewrite Hiff, elem_of_seq. split.
    + intros Hi%lookup_lt_Some. lia.
    + intros [_ Hi]. simpl in Hi. rewrite <- Hlen in Hi.
      apply lookup_lt_is_Some in Hi as [t Ht]. rewrite Ht. f_equal.
      pose proof (proj1 (forallb_forall _ _) Hfin t) as Ht'.
      destruct t; try done; discriminate Ht';
        by apply list_elem_of_In, (list_elem_of_lookup_2 _ i).
  - apply Forall2_fmap_l.
    assert (Hin : Forall (fun o => o ∈ completed s) (completed s))
      by (by apply Forall_forall).
    clear Hout Hcol. revert Hall Hin. generalize (completed s) at 1 3 4.
    intros l Hall. induction Hall as [|[i o] r l rs Hor Hall IH];
      intros Hin; [constructor|].
    apply Forall_cons in Hin as [Hi Hin]. constructor; [|by apply IH].
    destruct (Hok i o Hi) as (chunk & Hck & Ho). exists chunk.
    split; [done|]. simpl in *. congruence.
Qed.

(** X3. When the call returns a list, the list holds the result of the
    worker for every chunk exactly once: it is the results of the chunks in
    the order of completion, which is a permutation of the order of
    submission. *)
Theorem scheduler_returns_each_result_once (chunks : list T)
    (max_concurrent : nat) (events : list event) (results : list R) :
  process_chunks_with_rate_limit process_func chunks max_concurrent events
  = Some (Ok results) ->
  exists order,
    order ≡ₚ seq 0 (length chunks) /\
    Forall2
      (fun i r =>
         exists chunk,
           chunks !! i = Some chunk /\
           process_func chunk i (length chunks) = Ok r)
      order results.
Proof. apply returns_each_result_once. Qed.

(** With no permit, no event is enabled at the start. *)
Lemma run_without_permits chunks events (s : sched) :
  run chunks (init chunks 0) events = Some s -> events = [].
Proof.
  destruct events as [|ev events]; [done|]. simpl.
  assert (Hstep : step chunks (init chunks 0) ev = None); [|by rewrite Hstep].
  destruct ev as [i|i|i]; simpl.
  - destruct (replicate (length chunks) Waiting !! i) as [[| | |]|]; done.
  - destruct (replicate (length chunks) (@Waiting R) !! i) as [t|] eqn:E; [|done].
    apply lookup_replicate in E as [-> _]. done.
  - destruct (replicate (length chunks) (@Waiting R) !! i) as [t|] eqn:E; [|done].
    apply lookup_replicate in E as [-> _]. done.
Qed.

(** X4. The two edges of the batch: for an empty list of chunks the call
    returns the empty list at once, whatever the number of permits; with
    [max_concurrent = 0] and at least one chunk no task can ever enter the
    semaphore, and no run lets the call return or raise. *)
Theorem scheduler_edges (chunks : list T) :
  (forall max_concurrent,
      process_chunks_with_rate_limit process_func [] max_concurrent [] = Some (Ok [])) /\
  (chunks <> [] ->
   forall events,
     process_chunks_with_rate_limit process_func chunks 0 events = None).
Proof.
  split; [done|]. intros Hne events. unfold process_chunks_with_rate_limit.
  destruct (run chunks (init chunks 0) events) as [s|] eqn:Hrun; [|done].
  pose proof (run_without_permits _ _ _ Hrun) as ->.
  injection Hrun as <-. by destruct chunks.
Qed.

(** X27. With at least one permit the call can finish: on the run in
    which the event loop serves the tasks one after the other in the order
    of submission, it returns the results in the order of the chunks, or
    raises the first exception in that order. *)
Theorem scheduler_serial_order (chunks : list T) (max_concurrent : nat) :
  1 <= max_concurrent ->
  process_chunks_with_rate_limit process_func chunks max_concurrent
    (serial_run process_func chunks)
  = Some (collect (imap (fun i c => (i, process_func c i (length chunks))) chunks)).
Proof. apply serial_run_returns. Qed.

End Scheduler.

Lemma scheduler_returns_each_result_once_witness :
  exists order,
    order ≡ₚ seq 0 2 /\
    Forall2
      (fun i r =>
         exists chunk,
           ["a"; "b"] !! i = Some chunk /\ ChunkSamples.echo chunk i 2 = Ok r)
      order ["b"; "a"].
Proof.
  apply (scheduler_returns_each_result_once ChunkSamples.echo ["a"; "b"] 2
           [Acquire 1; Acquire 0; WorkerEnds 1; WorkerEnds 0; Wake 1; Wake 0]).
  reflexivity.
Defined.

Lemma scheduler_edges_witness :
  process_chunks_with_rate_limit ChunkSamples.echo ["a"; "b"] 0
    [Acquire 0; WorkerEnds 0; Wake 0] = None.
Proof.
  apply (proj2 (scheduler_edges ChunkSamples.echo ["a"; "b"])). discriminate.
Defined.

Lemma scheduler_serial_order_witness :
  process_chunks_with_rate_limit ChunkSamples.flaky ["a"; "b"; "c"] 2
    (serial_run ChunkSamples.flaky ["a"; "b"; "c"])
  = Some (Raised (Raise "rate limit exceeded")).
Proof.
  rewrite (scheduler_serial_order ChunkSamples.flaky ["a"; "b"; "c"] 2);
    [reflexivity|lia].
Defined.

End SchedulerReturnFacts.

(** ** The extraction merger: the whole fold *)

Module MergeFoldFacts.
Import Py PyFacts LLMService MergeFacts Observations.

Lemma merge_item_is_Some merged key key' v :
  is_Some (dict_get key (merge_item merged key' v))
  <-> key = key' \/ is_Some (dict_get key merged).
Proof.
  destruct (decide (key = key')) as [->|Hne].
  - rewrite merge_item_same. split; [by left|by eexists].
  - rewrite merge_item_other by done. split; [by right|]. by intros [?|?].
Qed.

Lemma merge_result_is_Some merged partial key :
  is_Some (dict_get key (merge_result merged partial))
  <-> is_Some (dict_get key merged) \/ is_Some (dict_get key partial).
Proof.
  unfold merge_result. revert merged.
  induction partial as [|[k v] partial IH]; intros merged; simpl.
  - split; [by left|]. intros [?|[? ?]]; done.
  - rewrite IH, merge_item_is_Some.
    destruct (String.eqb_spec k key) as [->|Hne].
    + split; [|by intros; left; left]. intros _. right. by eexists.
    + split; [intros [[?|?]|?]|intros [?|?]]; try congruence; auto.
Qed.

(** X5. No key is lost and none is invented: the keys of the merged
    result are the keys of the partials, whatever their values. *)
Theorem merge_keeps_every_key (first : list (string * value))
    (rest : list (list (string * value))) (schema : list (string * value))
    (key : string) :
  is_Some (dict_get key (_merge_extraction_results (first :: rest) schema))
  <-> exists partial,
        partial ∈ first :: rest /\ is_Some (dict_get key partial).
Proof.
  simpl. revert first. induction rest as [|r rest IH]; intros first; simpl.
  - split.
    + intros Hk. exists first. split; [left|done].
    + intros (p & ->%list_elem_of_singleton & Hk). done.
  - rewrite IH. split.
    + intros (p & [->|Hin]%elem_of_cons & Hk).
      * apply merge_result_is_Some in Hk as [Hk|Hk].
        -- exists first. split; [left|done].
        -- exists r. split; [right; left|done].
      * exists p. split; [by right; right|done].
    + intros (p & Hin & Hk). apply elem_of_cons in Hin as [Hp|Hin];
        [|apply elem_of_cons in Hin as [Hp|Hin]].
      * subst p. exists (merge_result first r). split; [left|].
        apply merge_result_is_Some. by left.
      * subst p. exists (merge_result first r). split; [left|].
        apply merge_result_is_Some. by right.
      * exists p. split; [by right|done].
Qed.

Lemma fold_lists key rest lists acc l :
  dict_get key acc = Some (VList l) ->
  Forall2 (fun r l' => NoDup (keys r) /\ dict_get key r = Some (VList l'))
    rest lists ->
  dict_get key (fold_left merge_result rest acc) = Some (VList (l ++ concat lists)).
Proof.
  intros Hacc Hall. revert acc l Hacc.
  induction Hall as [|r l' rest lists [Hnd Hr] Hall IH]; intros acc l Hacc; simpl.
  - by rewrite app_nil_r.
  - rewrite (assoc_L (++)). apply IH.
    by rewrite merge_result_get, Hr, Hacc.
Qed.

(** X6. A key that holds a list in every partial holds, in the merged
    result, the lists of all the partials one after the other, in the order
    of the partials. *)
Theorem merge_concatenates_lists (results : list (list (string * value)))
    (lists : list (list value)) (schema : list (string * value)) (key : string) :
  results <> [] ->
  Forall2 (fun r l => NoDup (keys r) /\ dict_get key r = Some (VList l))
    results lists ->
  dict_get key (_merge_extraction_results results schema)
  = Some (VList (concat lists)).
Proof.
  intros Hne Hall. destruct Hall as [|first l rest lists [_ Hfirst] Hall]; [done|].
  simpl. by apply fold_lists.
Qed.

Lemma merge_concatenates_lists_witness :
  dict_get "items"
    (_merge_extraction_results
       [[("items", VList [VNum 1])];
        [("total", VNum 3); ("items", VList [VNum 2; VNum 3])]] [])
  = Some (VList [VNum 1; VNum 2; VNum 3]).
Proof.
  apply (merge_concatenates_lists _ [[VNum 1]; [VNum 2; VNum 3]]); [done|].
  repeat constructor; try (intros Hin; inversion Hin; subst;
    (discriminate || match goal with H : _ ∈ [] |- _ => inversion H end ||
     match goal with H : _ ∈ [_] |- _ => inversion H; subst end)).
  all: try match goal with H : _ ∈ [] |- _ => inversion H end.
Defined.

(** X7. First write wins for scalars: once the accumulator holds a
    number, a boolean or a non-empty string under a key, no later partial
    changes the value under that key. *)
Theorem merge_keeps_scalar (acc : list (string * value))
    (rest : list (list (string * value))) (key : string) (old : value) :
  dict_get key acc = Some old ->
  is_scalar old = true ->
  Forall (fun r => NoDup (keys r)) rest ->
  dict_get key (fold_left merge_result rest acc) = Some old /\
  forall schema,
    dict_get key (_merge_extraction_results (acc :: rest) schema) = Some old.
Proof.
  intros Hacc Hold Hall.
  assert (Hfold : dict_get key (fold_left merge_result rest acc) = Some old);
    [|by split].
  revert acc Hacc. induction Hall as [|r rest Hnd Hall IH]; intros acc Hacc;
    simpl; [done|].
  apply IH. rewrite merge_result_get, Hacc by done.
  destruct (dict_get key r) as [v|]; [|done]. f_equal.
  destruct old as [| | |s| |]; try done; simpl in *.
  by destruct (String.eqb s "").
Qed.

Lemma merge_keeps_scalar_witness :
  dict_get "title"
    (fold_left merge_result
       [[("title", VStr "Annex")]; [("title", VNone)]]
       [("title", VStr "Report")])
  = Some (VStr "Report").
Proof.
  apply (merge_keeps_scalar [("title", VStr "Report")]
           [[("title", VStr "Annex")]; [("title", VNone)]] "title" (VStr "Report")).
  - reflexivity.
  - reflexivity.
  - repeat constructor; intros Hin; inversion Hin.
Defined.

Lemma fallback_fold_get schema acc key :
  NoDup (keys schema) ->
  dict_get key
    (fold_left
       (fun result kv =>
          if is_dict kv.2 then dict_set kv.1 (VDict []) result
          else if is_list kv.2 then dict_set kv.1 (VList []) result
          else dict_set kv.1 VNone result)
       schema acc)
  = match dict_get key schema with
    | Some v => Some (skeleton v)
    | None => dict_get key acc
    end.
Proof.
  revert acc. induction schema as [|[k v] schema IH]; intros acc Hnd; simpl;
    [done|].
  apply NoDup_cons in Hnd as [Hk Hnd]. rewrite IH by done.
  destruct (String.eqb_spec k key) as [->|Hne].
  - rewrite (dict_get_None key schema) by done. unfold skeleton.
    destruct (is_dict v); [|destruct (is_list v)]; apply dict_get_set_eq.
  - destruct (dict_get key schema); [done|].
    destruct (is_dict v); [|destruct (is_list v)]; by apply dict_get_set_ne.
Qed.

(** X8. With no partial at all the merger gives the skeleton of the
    schema: under each key of the schema an empty dict where the schema
    has a dict, an empty list where it has a list, and [None] elsewhere;
    and no other key. *)
Theorem merge_of_nothing (schema : list (string * value)) (key : string) :
  NoDup (keys schema) ->
  dict_get key (_merge_extraction_results [] schema)
  = skeleton <$> dict_get key schema.
Proof.
  intros Hnd. simpl. unfold _fallback_extraction.
  rewrite fallback_fold_get by done. by destruct (dict_get key schema).
Qed.

Lemma merge_of_nothing_witness :
  dict_get "lines"
    (_merge_extraction_results []
       [("title", VStr "string"); ("lines", VList [VStr "string"])])
  = Some (VList []).
Proof.
  rewrite (merge_of_nothing
             [("title", VStr "string"); ("lines", VList [VStr "string"])] "lines");
    [reflexivity|].
  repeat constructor; intros Hin; inversion Hin; subst;
    try discriminate;
    match goal with H : _ ∈ [] |- _ => inversion H end.
Defined.

End MergeFoldFacts.

(** ** The result store: writing, reading back, deleting *)

Module StoreFacts.
Import Storage Routes Observations.

Lemma lookup_result_eq tid s :
  lookup_result tid s
  = match results s !! tid with
    | Some r => Some r
    | None => mjoin (files s !! tid)
    end.
Proof.
  unfold lookup_result, get_result.
  destruct (results s !! tid); [done|]. by destruct (files s !! tid) as [[?|]|].
Qed.

(** X9. What is stored is what is read back under the snapshot's own id,
    also over an older snapshot with that id; every other id resolves as
    before. *)
Theorem store_then_get (r : ProcessingResult) (s : InMemoryStorage) :
  lookup_result (transaction_id r) (store_result r s).2 = Some r /\
  forall tid, tid <> transaction_id r ->
    lookup_result tid (store_result r s).2 = lookup_result tid s.
Proof.
  split.
  - rewrite lookup_result_eq. simpl. by rewrite lookup_insert_eq.
  - intros tid Hne. rewrite !lookup_result_eq. simpl.
    by rewrite !lookup_insert_ne.
Qed.

Lemma get_result_spec (tid tid' : string) (s : InMemoryStorage) :
  lookup_result tid' (get_result tid s).2 = lookup_result tid' s /\
  (get_result tid (get_result tid s).2).1 = (get_result tid s).1 /\
  files (get_result tid s).2 = files s /\
  clock (get_result tid s).2 = clock s.
Proof.
  assert (Hfiles : files (get_result tid s).2 = files s).
  { unfold get_result. destruct (results s !! tid); [done|].
    by destruct (files s !! tid) as [[?|]|]. }
  assert (Hlook : forall t, lookup_result t (get_result tid s).2 = lookup_result t s).
  { intros t. rewrite !lookup_result_eq, Hfiles. unfold get_result.
    destruct (results s !! tid) as [r|] eqn:Hmem; [done|].
    destruct (files s !! tid) as [[r|]|] eqn:Hfile; try done. simpl.
    destruct (decide (t = tid)) as [->|Hne].
    - by rewrite lookup_insert_eq, Hmem, Hfile.
    - by rewrite lookup_insert_ne. }
  split; [apply Hlook|]. split; [apply Hlook|]. split; [done|].
  unfold get_result. destruct (results s !! tid); [done|].
  by destruct (files s !! tid) as [[?|]|].
Qed.

(** X10. Reading never changes what an id resolves to: the snapshot that
    [get_result] loads from a file into memory is the one a second read
    finds there, and no other id is affected. Reading leaves the files and
    the clock alone. *)
Theorem get_result_transparent (tid tid' : string) (s : InMemoryStorage) :
  lookup_result tid' (get_result tid s).2 = lookup_result tid' s /\
  (get_result tid (get_result tid s).2).1 = (get_result tid s).1 /\
  files (get_result tid s).2 = files s /\
  clock (get_result tid s).2 = clock s.
Proof. apply get_result_spec. Qed.

(** X11. Deleting answers [True] whether or not the id was ever stored,
    so the delete route answers with success and never with 404; after it
    the id resolves to nothing, and every other id resolves as before. *)
Theorem delete_result_always_true (tid : string) (s : InMemoryStorage) :
  (delete_result tid s).1 = true /\
  lookup_result tid (delete_result tid s).2 = None /\
  (forall tid', tid' <> tid ->
     lookup_result tid' (delete_result tid s).2 = lookup_result tid' s) /\
  delete_result_route tid s
  = (Response "Result deleted successfully", (delete_result tid s).2).
Proof.
  split; [done|]. split; [|split; [|done]].
  - rewrite lookup_result_eq. simpl. by rewrite !lookup_delete_eq.
  - intros tid' Hne. rewrite !lookup_result_eq. simpl.
    by rewrite !lookup_delete_ne.
Qed.

Lemma update_status_spec `{Externals} (tid : string) (st : ProcessingStatus)
    (message : option string) (s : InMemoryStorage) (r : ProcessingResult) :
  lookup_result tid s = Some r ->
  transaction_id r = tid ->
  (update_status tid st message s).1 = true /\
  (exists r',
     lookup_result tid (update_status tid st message s).2 = Some r' /\
     status r' = st /\
     updated_at r' = clock s /\
     processing_log r'
     = processing_log r
         ++ match message_given message with
            | Some m => [str_datetime (S (clock s)) +:+ ": " +:+ m]
            | None => []
            end /\
     (transaction_id r', result_metadata r', extracted_elements r', raw_text r',
      structured_data r', error_message r', created_at r')
     = (transaction_id r, result_metadata r, extracted_elements r, raw_text r,
        structured_data r, error_message r, created_at r)) /\
  forall tid', tid' <> tid ->
    lookup_result tid' (update_status tid st message s).2 = lookup_result tid' s.
Proof.
  intros Hlook Htid.
  pose proof (get_result_spec tid tid s) as (_ & _ & _ & Hclock).
  assert (Hother : forall t, lookup_result t (get_result tid s).2 = lookup_result t s).
  { intros t. apply (get_result_spec tid t s). }
  unfold update_status. unfold lookup_result in Hlook.
  destruct (get_result tid s) as [found s1] eqn:Hget. simpl in *. subst found.
  unfold utcnow.
  destruct (message_given message) as [m|]; simpl; rewrite Htid, Hclock;
    (split; [done|]); (split; [eexists; split;
      [rewrite lookup_result_eq; simpl; by rewrite lookup_insert_eq|];
      simpl; by rewrite ?app_nil_r, ?Htid|]);
    intros tid' Hne; rewrite <- Hother, !lookup_result_eq; simpl;
    by rewrite !lookup_insert_ne.
Qed.

(** X12. [update_status] on an id that resolves to a snapshot of that id
    replaces the status and the time of update, appends the message to the
    log when it is a non-empty string, and leaves every other field of the
    snapshot, the error message among them, and every other id as they
    were. *)
Theorem update_status_effect `{Externals} (tid : string) (st : ProcessingStatus)
    (message : option string) (s : InMemoryStorage) (r : ProcessingResult) :
  lookup_result tid s = Some r ->
  transaction_id r = tid ->
  (update_status tid st message s).1 = true /\
  (exists r',
     lookup_result tid (update_status tid st message s).2 = Some r' /\
     status r' = st /\
     updated_at r' = clock s /\
     processing_log r'
     = processing_log r
         ++ match message_given message with
            | Some m => [str_datetime (S (clock s)) +:+ ": " +:+ m]
            | None => []
            end /\
     (transaction_id r', result_metadata r', extracted_elements r', raw_text r',
      structured_data r', error_message r', created_at r')
     = (transaction_id r, result_metadata r, extracted_elements r, raw_text r,
        structured_data r, error_message r, created_at r)) /\
  forall tid', tid' <> tid ->
    lookup_result tid' (update_status tid st message s).2 = lookup_result tid' s.
Proof. apply update_status_spec. Qed.

Lemma update_status_effect_witness :
  exists r',
    lookup_result "t1"
      (@update_status Samples.failing_extractor "t1" FAILED (Some "boom")
         (store_result
            (@Workflow.initial_result Samples.failing_extractor "t1" "a.pdf" "a.pdf"
               Samples.empty_storage).1 Samples.empty_storage).2).2
    = Some r' /\ status r' = FAILED /\ error_message r' = None.
Proof.
  destruct (@update_status_effect Samples.failing_extractor "t1" FAILED
              (Some "boom")
              (store_result
                 (@Workflow.initial_result Samples.failing_extractor "t1" "a.pdf"
                    "a.pdf" Samples.empty_storage).1 Samples.empty_storage).2
              (@Workflow.initial_result Samples.failing_extractor "t1" "a.pdf" "a.pdf"
                 Samples.empty_storage).1)
    as (_ & (r' & Hr' & Hst & _ & _ & Hsame) & _).
  - reflexivity.
  - reflexivity.
  - exists r'. split; [exact Hr'|]. split; [exact Hst|].
    injection Hsame as _ _ _ _ _ Herr _. exact Herr.
Defined.

End StoreFacts.

(** ** The validation and highlighting stages: what they leave alone *)

Module StageFacts.
Import Py PyFacts Storage Workflow Observations.

Lemma without_verdict_set c b e :
  without_verdict (set_validated b (set_confidence c e)) = without_verdict e.
Proof. reflexivity. Qed.







Lemma max_idem a b : max (max a b) b = max a b.
Proof.
  unfold max. destruct (Qle_bool b a) eqn:E; [by rewrite E|].
  assert (Hb : Qle_bool b b = true) by (apply Qle_bool_iff, Qle_refl).
  by rewrite Hb.
Qed.

(** X14. Running the base rules a second time changes nothing. *)
Theorem validate_elements_idempotent (threshold : Q) (els : list ExtractedElement) :
  validate_elements threshold (validate_elements threshold els)
  = validate_elements threshold els.
Proof.
  unfold validate_elements. rewrite <- list_fmap_compose.
  apply list_fmap_ext. intros _ e _. cbn [compose].
  unfold validate_element.
  destruct (String.eqb (type e) "text") eqn:Htext.
  - destruct (text_valid (content e)) eqn:Hvalid; cbn; rewrite Htext, Hvalid; cbn;
      by rewrite ?max_idem.
  - destruct (String.eqb (type e) "table") eqn:Htable.
    + destruct (table_valid (content e)) eqn:Hvalid; cbn;
        rewrite Htext, Htable, Hvalid; cbn; by rewrite ?max_idem.
    + destruct (String.eqb (type e) "page") eqn:Hpage; cbn;
        rewrite Htext, Htable, Hpage; cbn; done.
Qed.

Lemma element_index_last ident els k i :
  element_index ident els k = Some i
  <-> exists j e, i = k + j /\ els !! j = Some e /\ id e = ident /\
        forall j' e', j < j' -> els !! j' = Some e' -> id e' <> ident.
Proof.
  revert k i. induction els as [|e0 els IH]; intros k i; simpl.
  - split; [done|]. by intros (j & e & _ & Hj & _).
  - destruct (element_index ident els (S k)) as [i'|] eqn:Hrest.
    + apply IH in Hrest as (j & e & -> & Hj & Hid & Hlast). split.
      * intros [= <-]. exists (S j), e. repeat split; [lia|done..|].
        intros [|j'] e' Hlt; [lia|]. simpl. apply Hlast. lia.
      * intros (j2 & e2 & -> & Hj2 & Hid2 & Hlast2). f_equal.
        destruct (lt_eq_lt_dec (S j) j2) as [[Hlt|Heq]|Hgt]; [|lia|].
        -- destruct j2 as [|j2]; [lia|]. simpl in Hj2.
           exfalso. apply (Hlast j2 e2); [lia|done..].
        -- exfalso. by apply (Hlast2 (S j) e).
    + assert (Hnone : forall j e, els !! j = Some e -> id e <> ident).
      { intros j e Hj Hid.
        assert (Hsome : is_Some (element_index ident els (S k))).
        { clear Hrest IH. revert k j Hj.
          induction els as [|e1 els IH]; intros k [|j] Hj; simplify_eq/=.
          - destruct (element_index (id e) els (S (S k))); [done|].
            by rewrite String.eqb_refl.
          - destruct (IH (S k) j Hj) as [x ->]. done. }
        rewrite Hrest in Hsome. by destruct Hsome. }
      destruct (String.eqb_spec (id e0) ident) as [Hid|Hid].
      * split.
        -- intros [= <-]. exists 0, e0. repeat split; [lia|done..|].
           intros [|j'] e' Hlt; [lia|]. simpl. apply Hnone.
        -- intros ([|j] & e & -> & Hj & Hide & _); [f_equal; lia|].
           simpl in Hj. by destruct (Hnone j e).
      * split; [done|].
        intros ([|j] & e & -> & Hj & Hide & _); simplify_eq/=.
        by destruct (Hnone j e).
Qed.

(** X15. Where several elements share an id, the answer of the reasoning
    service for that id goes to the last of them: its confidence and its
    flag are replaced, and every other element, the earlier ones with the
    same id among them, stays as it was. *)
Theorem overlay_goes_to_last (threshold c : Q) (els : list ExtractedElement)
    (d : list (string * value)) (ident : string) (i : nat) (e : ExtractedElement) :
  dict_get "id" d = Some (VStr ident) ->
  dict_get "confidence" d = Some (VNum c) ->
  els !! i = Some e ->
  id e = ident ->
  (forall j e', i < j -> els !! j = Some e' -> id e' <> ident) ->
  overlay_entry threshold els (VDict d)
  = Ok (<[i := set_validated (ge c threshold) (set_confidence c e)]> els, 1).
Proof.
  intros Hid Hconf Hi Hide Hlast. unfold overlay_entry. rewrite Hid, Hconf.
  assert (Hidx : element_index ident els 0 = Some i).
  { apply element_index_last. by exists i, e. }
  rewrite Hidx. do 2 f_equal.
  apply list_eq. intros j. destruct (decide (j = i)) as [->|Hne].
  - rewrite list_lookup_alter_eq, Hi. simpl.
    by rewrite list_lookup_insert_eq by (by eapply lookup_lt_Some).
  - by rewrite list_lookup_alter_ne, list_lookup_insert_ne.
Qed.

Lemma overlay_goes_to_last_witness :
  let e := text_element 1 0 (Samples.word "Hello" 0.1) in
  overlay_entry 0.7 [e; e]
    (VDict [("id", VStr "text_1_0"); ("confidence", VNum 0.2)])
  = Ok ([e; set_validated false (set_confidence 0.2 e)], 1).
Proof.
  intros e.
  apply (overlay_goes_to_last 0.7 0.2 [e; e]
           [("id", VStr "text_1_0"); ("confidence", VNum 0.2)]
           "text_1_0" 1 e); try reflexivity.
  intros [|[|j]] e' Hlt Hj; try lia. discriminate Hj.
Defined.

End StageFacts.

Module HighlightFacts.
Import Py PyFacts Storage Workflow Observations.






End HighlightFacts.

(** ** The element tree: how many elements *)

Module CountFacts.
Import Py Workflow StructureFacts.

Lemma pages_alter_sum (h : PageGroup -> nat) f d p (pages : list (Z * PageGroup)) :
  (forall g, h (f g) = h g + d) ->
  p ∈ pages.*1 ->
  sum_list_with (fun kv => h kv.2) (pages_alter f p pages)
  = sum_list_with (fun kv => h kv.2) pages + d.
Proof.
  intros Hf. induction pages as [|[q g] pages IH]; [by intros Hin; inversion Hin|].
  intros Hin. cbn [pages_alter]. destruct (Z.eqb_spec q p) as [->|Hne].
  - cbn. rewrite Hf. lia.
  - apply elem_of_cons in Hin as [Hin|Hin]; [done|].
    cbn. rewrite IH by done. lia.
Qed.

Lemma group_step_sum (h : PageGroup -> nat) d pages element :
  h empty_group = 0 ->
  (forall g, h (group_add element g) = h g + d) ->
  sum_list_with (fun kv => h kv.2) (group_step pages element)
  = sum_list_with (fun kv => h kv.2) pages + d.
Proof.
  intros Hempty Hadd. unfold group_step.
  destruct (pages_mem (page_of element) pages) eqn:Hmem.
  - apply pages_alter_sum; [done|]. by apply pages_mem_spec.
  - rewrite (pages_alter_sum h _ d) by
      (done || (rewrite fmap_app; apply elem_of_app; right; left)).
    rewrite sum_list_with_app. cbn. lia.
Qed.

Lemma group_by_page_sums raw :
  sum_list_with (fun kv => length (text kv.2)) (group_by_page raw)
  = length (filter (fun f => type_is "table" f = false /\ type_is "text" f = true) raw)
  /\
  sum_list_with (fun kv => length (tables kv.2)) (group_by_page raw)
  = length (filter (fun f => type_is "table" f = true) raw).
Proof.
  induction raw as [|f raw [IHtext IHtables]] using rev_ind; [done|].
  rewrite group_by_page_snoc, !filter_app, !length_app.
  destruct (type_is "table" f) eqn:Htable.
  - rewrite (group_step_sum (fun g => length (text g)) 0),
      (group_step_sum (fun g => length (tables g)) 1); try done.
    + rewrite IHtext, IHtables, filter_cons_False, filter_cons_True; [done|done|].
      intros [? _]. congruence.
    + intros g. unfold group_add. rewrite Htable. cbn. rewrite length_app. done.
    + intros g. unfold group_add. rewrite Htable. cbn. lia.
  - destruct (type_is "text" f) eqn:Htext.
    + rewrite (group_step_sum (fun g => length (text g)) 1),
        (group_step_sum (fun g => length (tables g)) 0); try done.
      * rewrite IHtext, IHtables, filter_cons_True, filter_cons_False; [done| |done].
        congruence.
      * intros g. unfold group_add. rewrite Htable, Htext. cbn. lia.
      * intros g. unfold group_add. rewrite Htable, Htext. cbn.
        rewrite length_app. done.
    + rewrite (group_step_sum (fun g => length (text g)) 0),
        (group_step_sum (fun g => length (tables g)) 0); try done.
      * rewrite IHtext, IHtables, !filter_cons_False; [done| |].
        -- congruence.
        -- intros [_ ?]. congruence.
      * intros g. unfold group_add. rewrite Htable, Htext. cbn. lia.
      * intros g. unfold group_add. rewrite Htable, Htext. cbn. lia.
Qed.

Lemma length_pages (pages : list (Z * PageGroup)) :
  length (pages ≫= (fun kv => page_elements kv.1 kv.2))
  = length pages
    + sum_list_with (fun kv => length (text kv.2)) pages
    + sum_list_with (fun kv => length (tables kv.2)) pages.
Proof.
  induction pages as [|[p g] pages IH]; [done|].
  rewrite bind_cons, length_app, IH, page_elements_eq. cbn.
  rewrite length_app, !length_imap. lia.
Qed.

(** X17. The locally built tree has one element for each distinct page
    number among the fragments (1 where a fragment names none), one for
    each fragment of type [text] and one for each fragment of type
    [table]; a fragment of any other type, or of none, adds no element,
    though its page still gets its page element. *)
Theorem build_elements_count (raw : list RawElement) :
  length (build_elements raw)
  = length (remove_dups (page_of <$> raw))
    + length (filter (fun f => type_is "text" f = true) raw)
    + length (filter (fun f => type_is "table" f = true) raw).
Proof.
  unfold build_elements. rewrite length_pages.
  destruct (group_by_page_sums raw) as [-> ->].
  destruct (group_by_page_keys raw) as [Hnd Hkeys].
  assert (Hpages : length (group_by_page raw)
                   = length (remove_dups (page_of <$> raw))).
  { rewrite <- (length_fmap fst). apply Permutation_length.
    apply NoDup_Permutation; [done|apply NoDup_remove_dups|].
    intros p. rewrite Hkeys, elem_of_remove_dups. done. }
  assert (Htexts : filter (fun f => type_is "table" f = false /\ type_is "text" f = true) raw
                   = filter (fun f => type_is "text" f = true) raw).
  { apply list_filter_iff. intros f. split; [by intros [_ ?]|].
    intros Htext. split; [|done]. unfold type_is in *.
    destruct (raw_type f) as [ty|]; [|done].
    apply String.eqb_eq in Htext as ->. done. }
  by rewrite Hpages, Htexts.
Qed.

End CountFacts.

(** ** Text chunks: none is empty *)

Module ChunkNonEmptyFacts.
Import TextChunking ChunkFacts.

Lemma range_from_elem x k count step :
  x ∈ range_from k count step -> exists j, j < count /\ x = k + j * step.
Proof.
  revert k. induction count as [|count IH]; intros k; simpl.
  - intros Hin. inversion Hin.
  - intros [->|Hin]%elem_of_cons.
    + exists 0. split; lia.
    + destruct (IH _ Hin) as (j & Hj & ->). exists (S j). split; lia.
Qed.

Lemma range_step_lt x stop step :
  0 < step -> x ∈ range_step stop step -> x < stop.
Proof.
  intros Hpos (j & Hj & ->)%range_from_elem.
  pose proof (Nat.div_mod (stop + step - 1) step).
  pose proof (Nat.mod_upper_bound (stop + step - 1) step).
  nia.
Qed.

Lemma substring_nonempty i m s :
  i < String.length s -> 0 < m -> String.substring i m s <> "".
Proof.
  revert i. induction s as [|c s IH]; intros i; simpl; [lia|].
  intros Hi Hm. destruct i as [|i].
  - destruct m as [|m]; [lia|]. done.
  - apply IH; lia.
Qed.

Lemma char_slices_nonempty s m :
  0 < m -> Forall (fun c => c <> "") (char_slices s m).
Proof.
  intros Hm. unfold char_slices. apply Forall_fmap, Forall_forall.
  intros i Hi. apply substring_nonempty; [|done]. by eapply range_step_lt.
Qed.

Lemma flush_all_nonempty chunks current_chunk :
  Forall (fun c => c <> "") chunks ->
  Forall (fun c => c <> "") (flush chunks current_chunk).
Proof.
  intros Hall. unfold flush. destruct (nonempty current_chunk) eqn:Hne; [|done].
  apply Forall_app. split; [done|]. apply Forall_singleton.
  by apply nonempty_true.
Qed.

Lemma sentence_step_nonempty m st sentence :
  0 < m ->
  Forall (fun c => c <> "") st.1 ->
  Forall (fun c => c <> "") (sentence_step m st sentence).1.
Proof.
  destruct st as [chunks cur]. intros Hm Hall. unfold sentence_step.
  destruct (m <? _ + _ + 2)%nat.
  - destruct (m <? String.length sentence)%nat; simpl.
    + apply Forall_app. split; [by apply flush_all_nonempty|].
      by apply char_slices_nonempty.
    + by apply flush_all_nonempty.
  - by destruct (nonempty cur).
Qed.

Lemma sentences_nonempty m sentences st :
  0 < m ->
  Forall (fun c => c <> "") st.1 ->
  Forall (fun c => c <> "") (fold_left (sentence_step m) sentences st).1.
Proof.
  intros Hm. revert st. induction sentences as [|q sentences IH]; intros st Hall;
    [done|].
  simpl. by apply IH, sentence_step_nonempty.
Qed.

Lemma paragraph_step_nonempty m st paragraph :
  0 < m ->
  Forall (fun c => c <> "") st.1 ->
  Forall (fun c => c <> "") (paragraph_step m st paragraph).1.
Proof.
  destruct st as [chunks cur]. intros Hm Hall. unfold paragraph_step.
  destruct (m <? _ + _ + 2)%nat.
  - destruct (m <? String.length paragraph)%nat; simpl.
    + apply sentences_nonempty; [done|]. by apply flush_all_nonempty.
    + by apply flush_all_nonempty.
  - by destruct (nonempty cur).
Qed.

Lemma paragraphs_nonempty m paragraphs st :
  0 < m ->
  Forall (fun c => c <> "") st.1 ->
  Forall (fun c => c <> "") (fold_left (paragraph_step m) paragraphs st).1.
Proof.
  intros Hm. revert st. induction paragraphs as [|p paragraphs IH]; intros st Hall;
    [done|].
  simpl. by apply IH, paragraph_step_nonempty.
Qed.

(** X18. For a positive size, the only text with an empty chunk is the
    empty text, whose one chunk is the empty string: no chunk of any
    other text is empty, empty paragraphs and sentences being dropped
    rather than emitted. *)
Theorem chunk_text_no_empty_chunk (text : string) (max_chunk_size : nat) :
  0 < max_chunk_size ->
  chunk_text "" max_chunk_size = [""] /\
  (text <> "" -> Forall (fun c => c <> "") (chunk_text text max_chunk_size)).
Proof.
  intros Hm. split; [done|]. intros Htext. unfold chunk_text.
  destruct (_ <=? _)%nat; [by apply Forall_singleton|].
  pose proof (paragraphs_nonempty max_chunk_size (split paragraph_sep text)
                ([], "") Hm) as Hall.
  destruct (fold_left _ _ _) as [chunks cur]. apply flush_all_nonempty, Hall.
  constructor.
Qed.

Lemma chunk_text_no_empty_chunk_witness :
  Forall (fun c => c <> "")
    (chunk_text ChunkSamples.text_with_empty_paragraph 5).
Proof.
  apply (chunk_text_no_empty_chunk ChunkSamples.text_with_empty_paragraph 5);
    [lia|discriminate].
Defined.

End ChunkNonEmptyFacts.

(** ** The routes over the store *)

Module RouteFacts.
Import Py PyFacts Storage Workflow Routes Observations StoreFacts.

Lemma get_result_unknown tid s :
  lookup_result tid s = None -> get_result tid s = (None, s).
Proof.
  unfold lookup_result, get_result.
  destruct (results s !! tid); [done|]. by destruct (files s !! tid) as [[?|]|].
Qed.

Lemma ids_of_without_correction (a b : list ExtractedElement) :
  without_correction <$> a = without_correction <$> b -> id <$> a = id <$> b.
Proof.
  intros Heq.
  assert (Hid : forall l : list ExtractedElement,
             id <$> l = (fun t => t.1.1.1.1.1) <$> (without_correction <$> l)).
  { intros l. rewrite <- list_fmap_compose. done. }
  by rewrite !Hid, Heq.
Qed.

Section Corrections.
Context `{Externals}.
Variable isoformat : datetime -> string.

Lemma without_correction_alter stamp correction (i : nat)
    (els : list ExtractedElement) :
  without_correction <$> alter (correct_element stamp correction) i els
  = without_correction <$> els.
Proof.
  revert i. induction els as [|e els IH]; intros [|i]; try done.
  cbn. f_equal. apply IH.
Qed.

(** One pass of the loop: the elements keep what a correction may not
    change, the count goes up by one exactly when the id is known, and the
    store is touched at its clock only. *)
Lemma correction_step_spec els n store correction :
  without_correction <$> (correction_step isoformat (els, n, store) correction).1.1
  = without_correction <$> els /\
  (correction_step isoformat (els, n, store) correction).1.2
  = n + (if decide (element_id correction ∈ id <$> els) then 1 else 0) /\
  results (correction_step isoformat (els, n, store) correction).2 = results store /\
  files (correction_step isoformat (els, n, store) correction).2 = files store.
Proof.
  unfold correction_step.
  destruct (list_find _ els) as [[i e]|] eqn:Hfind; cbn.
  - apply list_find_Some in Hfind as (Hi & Hid & _).
    rewrite without_correction_alter. repeat split.
    rewrite decide_True; [lia|]. apply list_elem_of_fmap. exists e.
    split; [done|]. by eapply list_elem_of_lookup_2.
  - apply list_find_None in Hfind. repeat split.
    rewrite decide_False; [lia|].
    intros (e & Hid & Hin)%list_elem_of_fmap.
    rewrite Forall_forall in Hfind. by apply (Hfind e).
Qed.

Lemma corrections_fold_spec corrections els n store :
  without_correction
    <$> (fold_left (correction_step isoformat) corrections (els, n, store)).1.1
  = without_correction <$> els /\
  (fold_left (correction_step isoformat) corrections (els, n, store)).1.2
  = n + length (filter (fun c => element_id c ∈ id <$> els) corrections) /\
  results (fold_left (correction_step isoformat) corrections (els, n, store)).2
  = results store /\
  files (fold_left (correction_step isoformat) corrections (els, n, store)).2
  = files store.
Proof.
  revert els n store. induction corrections as [|c corrections IH];
    intros els n store.
  - cbn. repeat split. lia.
  - cbn [fold_left].
    pose proof (correction_step_spec els n store c) as (Hels & Hn & Hres & Hfiles).
    destruct (correction_step isoformat (els, n, store) c) as [[els1 n1] store1].
    cbn [fst snd] in *.
    destruct (IH els1 n1 store1) as (IHels & IHn & IHres & IHfiles).
    rewrite IHels, IHn, IHres, IHfiles, Hels, Hn, Hres, Hfiles.
    repeat split. rewrite (ids_of_without_correction _ _ Hels).
    destruct (decide (element_id c ∈ id <$> els)).
    + rewrite filter_cons_True by done. cbn. lia.
    + rewrite filter_cons_False by done. lia.
Qed.

(** The snapshot that [submit_corrections] stores for a known id. *)
Lemma submit_corrections_known tid corrections store r :
  lookup_result tid store = Some r ->
  transaction_id r = tid ->
  let loop :=
    fold_left (correction_step isoformat) corrections
      (extracted_elements r, 0, (get_result tid store).2) in
  exists r',
    (submit_corrections isoformat tid corrections store).1
    = Response ("Applied " +:+ str_int (Z.of_nat loop.1.2) +:+ " corrections") /\
    lookup_result tid (submit_corrections isoformat tid corrections store).2
    = Some r' /\
    extracted_elements r' = loop.1.1 /\
    result_core r' = result_core r /\
    (exists line, processing_log r' = processing_log r ++ [line]) /\
    forall tid', tid' <> tid ->
      lookup_result tid' (submit_corrections isoformat tid corrections store).2
      = lookup_result tid' store.
Proof.
  intros Hlook Htid loop.
  assert (Hother : forall t, lookup_result t (get_result tid store).2
                             = lookup_result t store).
  { intros t. apply (get_result_spec tid t store). }
  pose proof (corrections_fold_spec corrections (extracted_elements r) 0
                (get_result tid store).2) as (_ & _ & Hres & Hfiles).
  fold loop in Hres, Hfiles.
  unfold submit_corrections. unfold lookup_result in Hlook.
  destruct (get_result tid store) as [found store1] eqn:Hget.
  cbn [fst snd] in *. subst found. fold loop.
  destruct loop as [[els n] store2]. cbn [fst snd] in *.
  unfold utcnow, store_result. cbn [fst snd results files clock transaction_id].
  eexists. split; [reflexivity|]. split.
  { rewrite lookup_result_eq. cbn [results]. rewrite Htid.
    by rewrite lookup_insert_eq. }
  split; [done|]. split; [unfold result_core; cbn; by rewrite Htid|].
  split; [by eexists|].
  intros tid' Hne. rewrite <- Hother, !lookup_result_eq. cbn [results files].
  by rewrite Htid, !lookup_insert_ne, Hres, Hfiles.
Qed.

(** X19. For an id that resolves to nothing, be it unknown or the name
    of a file that does not load, the status route and the correction
    route both answer 404 [Transaction not found], and the store is as it
    was. *)
Theorem routes_unknown_id (tid : string) (corrections : list CorrectionRequest)
    (store : InMemoryStorage) :
  lookup_result tid store = None ->
  get_processing_status tid store
  = (HTTPException 404 "Transaction not found", store) /\
  submit_corrections isoformat tid corrections store
  = (HTTPException 404 "Transaction not found", store).
Proof.
  intros Hnone. unfold get_processing_status, submit_corrections.
  by rewrite (get_result_unknown _ _ Hnone).
Qed.

(** X20. On a known id the correction route answers with the number of
    corrections whose element id is the id of some element, one repeated
    or naming a shared id counting once each time; the snapshot it stores
    has the same elements in the same order as to id, parent, children,
    box, metadata and confidence; its status, metadata, text, structured
    data, error message and creation time are unchanged; its log is one
    line longer; and no other id is affected. *)
Theorem submit_corrections_effect (tid : string)
    (corrections : list CorrectionRequest) (store : InMemoryStorage)
    (r : ProcessingResult) :
  lookup_result tid store = Some r ->
  transaction_id r = tid ->
  exists r',
    (submit_corrections isoformat tid corrections store).1
    = Response
        ("Applied "
           +:+ str_int
                 (Z.of_nat
                    (length
                       (filter
                          (fun c => element_id c ∈ id <$> extracted_elements r)
                          corrections)))
           +:+ " corrections") /\
    lookup_result tid (submit_corrections isoformat tid corrections store).2
    = Some r' /\
    without_correction <$> extracted_elements r'
    = without_correction <$> extracted_elements r /\
    result_core r' = result_core r /\
    length (processing_log r') = S (length (processing_log r)) /\
    forall tid', tid' <> tid ->
      lookup_result tid' (submit_corrections isoformat tid corrections store).2
      = lookup_result tid' store.
Proof.
  intros Hlook Htid.
  destruct (submit_corrections_known tid corrections store r Hlook Htid)
    as (r' & Hanswer & Hr' & Hels & Hcore & (line & Hlog) & Hother).
  pose proof (corrections_fold_spec corrections (extracted_elements r) 0
                (get_result tid store).2) as (Hkeep & Hcount & _).
  exists r'. rewrite Hanswer, Hcount, Hels, Hkeep, Hlog, length_app.
  repeat split; try done. cbn. lia.
Qed.

Lemma backup_kept stamp correction e v :
  backup_of e = Some v -> backup_of (correct_element stamp correction e) = Some v.
Proof.
  unfold backup_of. destruct (corrections e) as [[|kv d]|] eqn:Hc; try done.
  unfold correct_element, corrections_or_backup. cbn [corrections]. rewrite Hc.
  generalize (kv :: d). intros d' Hget.
  unfold dict_update. cbn [fold_left fst snd mbind option_bind].
  by rewrite !dict_get_set_ne.
Qed.

Lemma backup_made stamp correction e :
  corrections e = None \/ corrections e = Some [] ->
  backup_of (correct_element stamp correction e)
  = Some (content_value (content e)).
Proof.
  intros Hc. unfold backup_of, correct_element, corrections_or_backup.
  cbn [corrections].
  assert (Hd : match corrections e with
               | Some (kv :: d) => kv :: d
               | _ => [("original_content", content_value (content e))]
               end = [("original_content", content_value (content e))]).
  { by destruct Hc as [-> | ->]. }
  rewrite Hd. reflexivity.
Qed.

(** The state of an element during the loop: as it came, or validated
    with its first content in the backup. *)
Lemma correction_step_backup els0 els n store correction :
  Forall2 (fun e0 e =>
             e = e0 \/
             (validated e = true /\ backup_of e = Some (content_value (content e0))))
    els0 els ->
  Forall (fun e0 => corrections e0 = None \/ corrections e0 = Some []) els0 ->
  Forall2 (fun e0 e =>
             e = e0 \/
             (validated e = true /\ backup_of e = Some (content_value (content e0))))
    els0 (correction_step isoformat (els, n, store) correction).1.1.
Proof.
  intros Hrel Hfresh. unfold correction_step.
  destruct (list_find _ els) as [[i e]|] eqn:Hfind; cbn; [|done].
  apply list_find_Some in Hfind as (Hi & _ & _).
  apply Forall2_same_length_lookup. split.
  { rewrite length_alter. by eapply Forall2_length. }
  intros j e0 e' Hj0 Hj. destruct (decide (j = i)) as [->|Hne].
  - rewrite list_lookup_alter_eq, Hi in Hj. injection Hj as <-. right.
    split; [done|].
    destruct (Forall2_lookup_lr _ _ _ _ _ _ Hrel Hj0 Hi) as [->|[_ Hbackup]].
    + apply backup_made. rewrite Forall_forall in Hfresh. apply Hfresh.
      by eapply list_elem_of_lookup_2.
    + by apply backup_kept.
  - rewrite list_lookup_alter_ne in Hj by done.
    by apply (Forall2_lookup_lr _ _ _ _ _ _ Hrel Hj0 Hj).
Qed.

Lemma corrections_fold_backup requests els0 els n store :
  Forall2 (fun e0 e =>
             e = e0 \/
             (validated e = true /\ backup_of e = Some (content_value (content e0))))
    els0 els ->
  Forall (fun e0 => corrections e0 = None \/ corrections e0 = Some []) els0 ->
  Forall2 (fun e0 e =>
             e = e0 \/
             (validated e = true /\ backup_of e = Some (content_value (content e0))))
    els0 (fold_left (correction_step isoformat) requests (els, n, store)).1.1.
Proof.
  revert els n store. induction requests as [|c requests IH];
    intros els n store Hrel Hfresh; [done|].
  cbn [fold_left].
  pose proof (correction_step_backup els0 els n store c Hrel Hfresh) as Hstep.
  destruct (correction_step isoformat (els, n, store) c) as [[els1 n1] store1].
  by apply IH.
Qed.

(** X21. When no element of the snapshot carries corrections yet, then
    after any list of corrections every element of the stored snapshot is
    either exactly as it was, or is marked validated and carries under
    [original_content] the content it had before the first correction,
    however many corrections it received. *)
Theorem corrections_keep_first_content (tid : string)
    (requests : list CorrectionRequest) (store : InMemoryStorage)
    (r : ProcessingResult) :
  lookup_result tid store = Some r ->
  transaction_id r = tid ->
  Forall (fun e0 => corrections e0 = None) (extracted_elements r) ->
  exists r',
    lookup_result tid (submit_corrections isoformat tid requests store).2
    = Some r' /\
    Forall2 (fun e0 e =>
               e = e0 \/
               (validated e = true /\
                backup_of e = Some (content_value (content e0))))
      (extracted_elements r) (extracted_elements r').
Proof.
  intros Hlook Htid Hfresh.
  destruct (submit_corrections_known tid requests store r Hlook Htid)
    as (r' & _ & Hr' & Hels & _).
  exists r'. split; [done|]. rewrite Hels. apply corrections_fold_backup.
  - apply Forall2_same_length_lookup. split; [done|].
    intros i e0 e He0 He. left. congruence.
  - eapply Forall_impl; [exact Hfresh|]. intros e0 He0. by left.
Qed.

(** X22. A correction goes to the first element with its id, stamped
    with the current reading of the clock; the elements after it, those
    with the same id among them, stay as they were. *)
Theorem correction_goes_to_first (els : list ExtractedElement) (n : nat)
    (store : InMemoryStorage) (correction : CorrectionRequest) (i : nat)
    (e : ExtractedElement) :
  els !! i = Some e ->
  id e = element_id correction ->
  (forall j e', j < i -> els !! j = Some e' -> id e' <> element_id correction) ->
  correction_step isoformat (els, n, store) correction
  = (<[i := correct_element (isoformat (clock store)) correction e]> els,
     S n, (utcnow store).2).
Proof.
  intros Hi Hid Hfirst. unfold correction_step.
  assert (Hfind : list_find (fun e => id e = element_id correction) els
                  = Some (i, e)).
  { apply list_find_Some. repeat split; [done..|]. intros j e' Hj Hlt.
    by apply Hfirst with j. }
  rewrite Hfind. cbn. f_equal. f_equal.
  apply list_eq. intros j. destruct (decide (j = i)) as [->|Hne].
  - rewrite list_lookup_alter_eq, Hi. cbn.
    by rewrite list_lookup_insert_eq by (by eapply lookup_lt_Some).
  - by rewrite list_lookup_alter_ne, list_lookup_insert_ne.
Qed.

End Corrections.

Lemma routes_unknown_id_witness :
  get_processing_status "no-such-id" Samples.empty_storage
  = (HTTPException 404 "Transaction not found", Samples.empty_storage).
Proof.
  apply (@routes_unknown_id Samples.failing_extractor
           RouteSamples.sample_isoformat "no-such-id" [] Samples.empty_storage).
  reflexivity.
Defined.

Lemma submit_corrections_effect_witness :
  exists r',
    (@submit_corrections Samples.failing_extractor RouteSamples.sample_isoformat
       "t1" [RouteSamples.sample_correction; RouteSamples.sample_correction]
       RouteSamples.sample_store).1
    = Response "Applied 2 corrections" /\
    lookup_result "t1"
      (@submit_corrections Samples.failing_extractor RouteSamples.sample_isoformat
         "t1" [RouteSamples.sample_correction; RouteSamples.sample_correction]
         RouteSamples.sample_store).2
    = Some r' /\
    id <$> extracted_elements r' = ["text_1_0"; "text_1_0"].
Proof.
  destruct (@submit_corrections_effect Samples.failing_extractor
              RouteSamples.sample_isoformat "t1"
              [RouteSamples.sample_correction; RouteSamples.sample_correction]
              RouteSamples.sample_store RouteSamples.sample_result)
    as (r' & Hanswer & Hr' & Hels & _).
  - reflexivity.
  - reflexivity.
  - exists r'. split; [exact Hanswer|]. split; [exact Hr'|].
    exact (ids_of_without_correction _ _ Hels).
Defined.

Lemma corrections_keep_first_content_witness :
  exists r',
    lookup_result "t1"
      (@submit_corrections Samples.failing_extractor RouteSamples.sample_isoformat
         "t1" [RouteSamples.sample_correction; RouteSamples.sample_correction]
         RouteSamples.sample_store).2
    = Some r' /\
    Forall2 (fun e0 e =>
               e = e0 \/
               (validated e = true /\
                backup_of e = Some (content_value (content e0))))
      [RouteSamples.sample_element; RouteSamples.sample_element]
      (extracted_elements r').
Proof.
  apply (@corrections_keep_first_content Samples.failing_extractor
           RouteSamples.sample_isoformat "t1"
           [RouteSamples.sample_correction; RouteSamples.sample_correction]
           RouteSamples.sample_store RouteSamples.sample_result).
  - reflexivity.
  - reflexivity.
  - repeat constructor.
Defined.

Lemma correction_goes_to_first_witness :
  (correction_step RouteSamples.sample_isoformat
     ([RouteSamples.sample_element; RouteSamples.sample_element], 0,
      Samples.empty_storage)
     RouteSamples.sample_correction).1.1
  = [correct_element "2024-05-01T10:00:0" RouteSamples.sample_correction
       RouteSamples.sample_element;
     RouteSamples.sample_element].
Proof.
  rewrite (correction_goes_to_first RouteSamples.sample_isoformat
             [RouteSamples.sample_element; RouteSamples.sample_element] 0
             Samples.empty_storage RouteSamples.sample_correction 0
             RouteSamples.sample_element).
  - reflexivity.
  - reflexivity.
  - reflexivity.
  - intros j e' Hlt. lia.
Defined.

End RouteFacts.

(** ** The pipeline on a document that parses *)

Module PipelineRunFacts.
Import Py Storage Workflow Routes Observations StoreFacts.

Lemma lookup_result_utcnow t s : lookup_result t (utcnow s).2 = lookup_result t s.
Proof. by rewrite !lookup_result_eq. Qed.

Lemma touches_refl tid s : owned tid s -> touches_only tid s s.
Proof. by split. Qed.

Lemma touches_trans tid s1 s2 s3 :
  touches_only tid s1 s2 -> touches_only tid s2 s3 -> touches_only tid s1 s3.
Proof.
  intros [_ H12] [Hown H23]. split; [done|].
  intros tid' Hne. by rewrite H23, H12.
Qed.

Lemma touches_utcnow tid s : owned tid s -> touches_only tid s (utcnow s).2.
Proof.
  intros (r & Hr & Htid). split.
  - exists r. by rewrite lookup_result_utcnow.
  - intros tid' _. apply lookup_result_utcnow.
Qed.

Lemma touches_update_status `{Externals} tid st message s :
  owned tid s -> touches_only tid s (update_status tid st message s).2.
Proof.
  intros (r & Hr & Htid).
  destruct (update_status_spec tid st message s r Hr Htid)
    as (_ & (r' & Hr' & _ & _ & _ & Hcore) & Hother).
  split; [|done]. exists r'. split; [done|]. congruence.
Qed.

Lemma touches_store_result tid r s :
  transaction_id r = tid -> touches_only tid s (store_result r s).2.
Proof.
  intros Htid. split.
  - exists r. split; [|done]. rewrite lookup_result_eq. cbn.
    by rewrite Htid, lookup_insert_eq.
  - intros tid' Hne. rewrite !lookup_result_eq. cbn.
    by rewrite Htid, !lookup_insert_ne.
Qed.

Lemma carried_refl s : carried s s.
Proof. repeat split. exists []. by rewrite app_nil_r. Qed.

Lemma carried_trans s1 s2 s3 : carried s1 s2 -> carried s2 s3 -> carried s1 s3.
Proof.
  intros (Ht & Hm & Hr & more & Hl) (Ht' & Hm' & Hr' & more' & Hl').
  repeat split; try congruence. exists (more ++ more').
  by rewrite Hl', Hl, (assoc_L (++)).
Qed.

Lemma carried_log_append line s : carried s (log_append line s).
Proof. repeat split. by exists [line]. Qed.

Lemma carried_with_status st s : carried s (with_status st s).
Proof. repeat split. exists []. cbn. by rewrite app_nil_r. Qed.

Lemma carried_with_elements els s : carried s (with_elements els s).
Proof. repeat split. exists []. cbn. by rewrite app_nil_r. Qed.

Lemma carried_with_structured_data d s : carried s (with_structured_data d s).
Proof. repeat split. exists []. cbn. by rewrite app_nil_r. Qed.

Lemma carried_with_error msg s : carried s (with_error msg s).
Proof. repeat split. exists []. cbn. by rewrite app_nil_r. Qed.

Lemma enhance_structure_carried `{Externals} s :
  carried s (enhance_structure s) /\
  state_status (enhance_structure s) = state_status s.
Proof.
  unfold enhance_structure.
  destruct (llm_enhance_document_structure _) as [answer|err];
    [|split; [apply carried_refl|done]].
  destruct (truthy answer && is_list answer); [|split; [apply carried_refl|done]].
  destruct answer as [| | | |items|]; try (split; [apply carried_refl|done]).
  destruct (result_map ExtractedElement_of_dict items) as [[|e new_elements]|err];
    try (split; [apply carried_refl|done]).
  split; [|done].
  eapply carried_trans; [apply carried_with_elements|apply carried_log_append].
Qed.

Lemma llm_validation_carried `{Externals} s :
  carried s (llm_validation s) /\
  state_status (llm_validation s) = state_status s.
Proof.
  unfold llm_validation.
  destruct (llm_validate_extraction _ _) as [answer|err];
    [|split; [apply carried_refl|done]].
  destruct (truthy answer && is_dict answer); [|split; [apply carried_refl|done]].
  destruct answer as [| | | | |d]; try (split; [apply carried_refl|done]).
  destruct (dict_get "elements" d) as [[| | | |validated_elements|]|];
    try (split; [apply carried_refl|done]).
  destruct (overlay_loop _ _ _ _) as [els [updated_count|err]].
  - split; [|done].
    eapply carried_trans; [apply carried_with_elements|apply carried_log_append].
  - split; [apply carried_with_elements|done].
Qed.

(** *** The store and the state after each step *)

Lemma step_failed_spec `{Externals} e state store :
  owned (state_transaction_id state) store ->
  touches_only (state_transaction_id state) store (step_failed e state store).2 /\
  carried state (step_failed e state store).1.
Proof.
  intros Hown. unfold step_failed.
  pose proof (touches_update_status (state_transaction_id state) FAILED
                (Some (exn_str e)) store Hown) as Htouch.
  cbn [state_transaction_id with_status with_error] in *.
  destruct (update_status _ _ _ _) as [b store1]. cbn [fst snd] in *.
  split; [done|].
  eapply carried_trans; [apply carried_with_error|apply carried_with_status].
Qed.

Lemma parse_step_spec `{Externals} state store :
  owned (state_transaction_id state) store ->
  touches_only (state_transaction_id state) store (_parse_step state store).2 /\
  state_transaction_id (_parse_step state store).1 = state_transaction_id state /\
  (exists more,
     state_processing_log (_parse_step state store).1
     = state_processing_log state
         ++ ("Started parsing: " +:+ str_datetime (clock store)) :: more) /\
  forall text raw md,
    processor_process_document (file_path state) (state_filename state)
    = Ok (text, raw, md) ->
    state_status (_parse_step state store).1 = PARSING /\
    state_metadata (_parse_step state store).1 = Some md /\
    state_raw_text (_parse_step state store).1 = text /\
    raw_elements (_parse_step state store).1 = raw.
Proof.
  intros Hown. unfold _parse_step.
  pose proof (touches_utcnow _ _ Hown) as Hnow.
  pose proof (touches_update_status (state_transaction_id state) PARSING None
                (utcnow store).2 (proj1 Hnow)) as Hupd.
  unfold utcnow in *. cbn [fst snd] in *.
  cbn [state_transaction_id log_append with_status file_path state_filename] in *.
  destruct (update_status _ _ _ _) as [b store2]. cbn [fst snd] in *.
  assert (Htouch : touches_only (state_transaction_id state) store store2)
    by (by eapply touches_trans).
  destruct (processor_process_document _ _) as [[[text raw] md]|e].
  - split; [done|]. split; [done|]. split.
    + cbn. rewrite <- (assoc_L (++)). by eexists.
    + by intros ? ? ? [= <- <- <-].
  - match goal with
    | |- context [step_failed e ?st store2] =>
        destruct (step_failed_spec e st store2) as [Hfail Hcar]; [apply Htouch|]
    end.
    split; [by eapply touches_trans|].
    destruct Hcar as (Ht & _ & _ & more & Hl). split; [done|]. split; [|done].
    exists more. rewrite Hl. cbn. by rewrite <- (assoc_L (++)).
Qed.

Lemma structure_step_spec `{Externals} state store :
  owned (state_transaction_id state) store ->
  touches_only (state_transaction_id state) store (_structure_step state store).2 /\
  carried state (_structure_step state store).1 /\
  state_status (_structure_step state store).1 = STRUCTURING.
Proof.
  intros Hown. unfold _structure_step.
  pose proof (touches_utcnow _ _ Hown) as Hnow.
  pose proof (touches_update_status (state_transaction_id state) STRUCTURING None
                (utcnow store).2 (proj1 Hnow)) as Hupd.
  unfold utcnow in *. cbn [fst snd] in *.
  cbn [state_transaction_id log_append with_status] in *.
  destruct (update_status _ _ _ _) as [b store2]. cbn [fst snd] in *.
  split; [by eapply touches_trans|].
  match goal with
  | |- context [enhance_structure ?st] =>
      destruct (enhance_structure_carried st) as [Hcar Hst]
  end.
  split; [|exact Hst].
  eapply carried_trans; [|exact Hcar].
  eapply carried_trans; [apply carried_with_status|].
  eapply carried_trans; [apply carried_log_append|].
  eapply carried_trans; [apply carried_with_elements|apply carried_log_append].
Qed.

Lemma validate_step_spec `{Externals} state store :
  owned (state_transaction_id state) store ->
  touches_only (state_transaction_id state) store (_validate_step state store).2 /\
  carried state (_validate_step state store).1 /\
  state_status (_validate_step state store).1 = VALIDATING.
Proof.
  intros Hown. unfold _validate_step.
  pose proof (touches_utcnow _ _ Hown) as Hnow.
  pose proof (touches_update_status (state_transaction_id state) VALIDATING None
                (utcnow store).2 (proj1 Hnow)) as Hupd.
  unfold utcnow in *. cbn [fst snd] in *.
  cbn [state_transaction_id log_append with_status] in *.
  destruct (update_status _ _ _ _) as [b store2]. cbn [fst snd] in *.
  split; [by eapply touches_trans|].
  match goal with
  | |- context [llm_validation ?st] =>
      destruct (llm_validation_carried st) as [Hcar Hst]
  end.
  split; [|exact Hst].
  eapply carried_trans; [|apply carried_log_append].
  eapply carried_trans; [|exact Hcar].
  eapply carried_trans; [apply carried_with_status|].
  eapply carried_trans; [apply carried_log_append|apply carried_with_elements].
Qed.

Lemma highlight_step_spec `{Externals} state store :
  owned (state_transaction_id state) store ->
  touches_only (state_transaction_id state) store (_highlight_step state store).2 /\
  carried state (_highlight_step state store).1 /\
  state_status (_highlight_step state store).1 = HIGHLIGHTING.
Proof.
  intros Hown. unfold _highlight_step.
  pose proof (touches_utcnow _ _ Hown) as Hnow.
  pose proof (touches_update_status (state_transaction_id state) HIGHLIGHTING None
                (utcnow store).2 (proj1 Hnow)) as Hupd.
  unfold utcnow in *. cbn [fst snd] in *.
  cbn [state_transaction_id log_append with_status] in *.
  destruct (update_status _ _ _ _) as [b store2]. cbn [fst snd] in *.
  split; [by eapply touches_trans|]. split; [|done].
  eapply carried_trans; [apply carried_with_status|].
  eapply carried_trans; [apply carried_log_append|].
  eapply carried_trans; [apply carried_with_elements|apply carried_log_append].
Qed.

Lemma store_step_spec `{Externals} state store :
  owned (state_transaction_id state) store ->
  touches_only (state_transaction_id state) store (_store_step state store).2 /\
  forall md,
    state_metadata state = Some md ->
    exists r t,
      lookup_result (state_transaction_id state) (_store_step state store).2
      = Some r /\
      (transaction_id r, status r, result_metadata r, extracted_elements r,
       raw_text r, error_message r)
      = (state_transaction_id state, COMPLETED, md,
         state_extracted_elements state, Some (state_raw_text state), None) /\
      processing_log r
      = state_processing_log state ++ ["Started storing: " +:+ str_datetime t].
Proof.
  intros Hown. unfold _store_step.
  pose proof (touches_utcnow _ _ Hown) as Hnow.
  pose proof (touches_update_status (state_transaction_id state) STORING None
                (utcnow store).2 (proj1 Hnow)) as Hupd.
  unfold utcnow in *. cbn [fst snd] in *.
  cbn [state_transaction_id log_append with_status with_structured_data
         state_metadata] in *.
  destruct (update_status _ _ _ _) as [b store2]. cbn [fst snd] in *.
  assert (Htouch : touches_only (state_transaction_id state) store store2)
    by (by eapply touches_trans).
  destruct (state_metadata state) as [md|].
  - cbn [store_result fst snd]. split.
    + eapply touches_trans; [exact Htouch|]. split.
      * eexists. split; [rewrite lookup_result_eq; cbn; by rewrite lookup_insert_eq|done].
      * intros tid' Hne. rewrite !lookup_result_eq. cbn.
        by rewrite !lookup_insert_ne.
    + intros ? [= <-]. eexists _, _. split.
      * rewrite lookup_result_eq. cbn. by rewrite lookup_insert_eq.
      * done.
  - match goal with
    | |- context [step_failed ?e ?st store2] =>
        destruct (step_failed_spec e st store2) as [Hfail _]; [apply Htouch|]
    end.
    split; [by eapply touches_trans|]. done.
Qed.

(** The store after the five steps, whichever of them fails. *)
Lemma run_steps_touches `{Externals} state store :
  owned (state_transaction_id state) store ->
  touches_only (state_transaction_id state) store (run_steps state store).2.
Proof.
  intros Hown. unfold run_steps.
  destruct (parse_step_spec state store Hown) as (Ht1 & Hid1 & _).
  destruct (_parse_step state store) as [state1 store1]. cbn [fst snd] in *.
  destruct (failed state1); [done|].
  destruct (structure_step_spec state1 store1) as (Ht2 & (Hid2 & _) & _);
    [rewrite Hid1; apply Ht1|].
  destruct (_structure_step state1 store1) as [state2 store2]. cbn [fst snd] in *.
  rewrite Hid1 in Ht2.
  destruct (failed state2); [by eapply touches_trans|].
  destruct (validate_step_spec state2 store2) as (Ht3 & (Hid3 & _) & _);
    [rewrite Hid2, Hid1; apply Ht2|].
  destruct (_validate_step state2 store2) as [state3 store3]. cbn [fst snd] in *.
  rewrite Hid2, Hid1 in Ht3.
  destruct (failed state3); [eauto using touches_trans|].
  destruct (highlight_step_spec state3 store3) as (Ht4 & (Hid4 & _) & _);
    [rewrite Hid3, Hid2, Hid1; apply Ht3|].
  destruct (_highlight_step state3 store3) as [state4 store4]. cbn [fst snd] in *.
  rewrite Hid3, Hid2, Hid1 in Ht4.
  destruct (failed state4); [eauto using touches_trans|].
  destruct (store_step_spec state4 store4) as (Ht5 & _);
    [rewrite Hid4, Hid3, Hid2, Hid1; apply Ht4|].
  rewrite Hid4, Hid3, Hid2, Hid1 in Ht5.
  eauto using touches_trans.
Qed.

Lemma process_document_store `{Externals} tid path name store :
  exists store0,
    (process_document tid path name store).2
    = (run_steps (initial_state tid path name) store0).2 /\
    touches_only tid store store0.
Proof.
  exists (store_result (initial_result tid path name store).1
            (initial_result tid path name store).2).2.
  assert (Hr0 : transaction_id (initial_result tid path name store).1 = tid)
    by reflexivity.
  assert (Hs0 : forall t, lookup_result t (initial_result tid path name store).2
                          = lookup_result t store).
  { intros t. by rewrite !lookup_result_eq. }
  split.
  - unfold process_document.
    destruct (initial_result tid path name store) as [r0 s0]. cbn [fst snd].
    destruct (store_result r0 s0) as [b s1]. cbn [fst snd].
    by destruct (run_steps _ s1).
  - destruct (touches_store_result tid _ (initial_result tid path name store).2 Hr0)
      as [Hown Hother].
    split; [done|]. intros tid' Hne. by rewrite Hother, Hs0.
Qed.

(** X23. Processing a document leaves every other transaction as it
    was: whatever the extractor and the reasoning service do, and
    whichever step fails, only the snapshot under the new transaction id
    is written. *)
Theorem process_document_isolated `{Externals} (tid path name : string)
    (store : InMemoryStorage) (tid' : string) :
  tid' <> tid ->
  lookup_result tid' (process_document tid path name store).2
  = lookup_result tid' store.
Proof.
  intros Hne.
  destruct (process_document_store tid path name store) as (store0 & -> & Hown & H0).
  destruct (run_steps_touches (initial_state tid path name) store0 Hown)
    as [_ Hrun].
  cbn [initial_state state_transaction_id] in Hrun.
  by rewrite Hrun, H0.
Qed.

Lemma process_document_isolated_witness :
  lookup_result "t1"
    (@process_document RouteSamples.working_extractor "t2" "/uploads/b.pdf" "b.pdf"
       RouteSamples.sample_store).2
  = Some RouteSamples.sample_result.
Proof.
  rewrite (@process_document_isolated RouteSamples.working_extractor
             "t2" "/uploads/b.pdf" "b.pdf" RouteSamples.sample_store "t1").
  - reflexivity.
  - discriminate.
Defined.

Lemma run_steps_completed `{Externals} (tid path name : string)
    (store0 : InMemoryStorage) (text : string) (raw : list RawElement)
    (md : DocumentMetadata) :
  processor_process_document path name = Ok (text, raw, md) ->
  owned tid store0 ->
  exists r t_store,
    lookup_result tid (run_steps (initial_state tid path name) store0).2 = Some r /\
    (transaction_id r, status r, result_metadata r, raw_text r, error_message r)
    = (tid, COMPLETED, md, Some text, None) /\
    head (processing_log r)
    = Some ("Started parsing: " +:+ str_datetime (clock store0)) /\
    last (processing_log r) = Some ("Started storing: " +:+ str_datetime t_store).
Proof.
  intros Hparse Hown.
  set (state := initial_state tid path name).
  unfold run_steps.
  destruct (parse_step_spec state store0 Hown) as (Ht1 & Hid1 & (more1 & Hlog1) & Hok).
  destruct (Hok text raw md Hparse) as (Hst1 & Hmd1 & Htext1 & _). clear Hok.
  destruct (_parse_step state store0) as [state1 store1]. cbn [fst snd] in *.
  cbn [state initial_state state_transaction_id state_processing_log] in Hid1, Hlog1, Ht1.
  unfold failed at 1. rewrite Hst1.
  destruct (structure_step_spec state1 store1) as (Ht2 & Hc2 & Hst2);
    [rewrite Hid1; apply Ht1|].
  destruct (_structure_step state1 store1) as [state2 store2]. cbn [fst snd] in *.
  unfold failed at 1. rewrite Hst2.
  assert (Hid2 : state_transaction_id state2 = tid)
    by (destruct Hc2 as (? & _); congruence).
  destruct (validate_step_spec state2 store2) as (Ht3 & Hc3 & Hst3);
    [rewrite Hid2; rewrite Hid1 in Ht2; apply Ht2|].
  destruct (_validate_step state2 store2) as [state3 store3]. cbn [fst snd] in *.
  unfold failed at 1. rewrite Hst3.
  pose proof (carried_trans _ _ _ Hc2 Hc3) as Hc13.
  assert (Hid3 : state_transaction_id state3 = tid)
    by (destruct Hc13 as (? & _); congruence).
  destruct (highlight_step_spec state3 store3) as (Ht4 & Hc4 & Hst4);
    [rewrite Hid3; rewrite Hid2 in Ht3; apply Ht3|].
  destruct (_highlight_step state3 store3) as [state4 store4]. cbn [fst snd] in *.
  unfold failed at 1. rewrite Hst4.
  pose proof (carried_trans _ _ _ Hc13 Hc4) as Hc14.
  destruct Hc14 as (Hid4 & Hmd4 & Htext4 & more & Hlog4).
  rewrite Hid1 in Hid4. rewrite Hmd1 in Hmd4. rewrite Htext1 in Htext4.
  rewrite Hlog1 in Hlog4. cbn [app] in Hlog4.
  pose proof Hmd4 as Hmd. pose proof Htext4 as Htext.
  destruct (store_step_spec state4 store4) as (_ & Hstore);
    [rewrite Hid4; rewrite Hid3 in Ht4; apply Ht4|].
  destruct (Hstore md Hmd) as (r & t_store & Hr & Hfields & Hlog).
  rewrite Hid4 in Hr.
  exists r, t_store. split; [done|]. split; [congruence|]. split.
  - by rewrite Hlog, Hlog4.
  - by rewrite Hlog, last_snoc.
Qed.

(** X24. When the extractor returns, the snapshot left under the
    transaction id is [COMPLETED] with no error message and carries the
    text and the metadata of the extractor; the first line of its log is
    the parsing line, not the line written on upload, and the last is the
    line of the storing step, not [Completed processing]; the status route
    then answers progress 100 with that last line as its message. *)
Theorem process_document_completed `{Externals} (tid path name : string)
    (store : InMemoryStorage) (text : string) (raw : list RawElement)
    (md : DocumentMetadata) :
  processor_process_document path name = Ok (text, raw, md) ->
  exists r t_parse t_store,
    lookup_result tid (process_document tid path name store).2 = Some r /\
    (transaction_id r, status r, result_metadata r, raw_text r, error_message r)
    = (tid, COMPLETED, md, Some text, None) /\
    head (processing_log r) = Some ("Started parsing: " +:+ str_datetime t_parse) /\
    last (processing_log r) = Some ("Started storing: " +:+ str_datetime t_store) /\
    (get_processing_status tid (process_document tid path name store).2).1
    = Response
        {| response_transaction_id := tid;
           response_status := COMPLETED;
           progress := 100;
           message := Some ("Started storing: " +:+ str_datetime t_store);
           error := None |}.
Proof.
  intros Hparse.
  destruct (process_document_store tid path name store) as (store0 & -> & Hown & _).
  destruct (run_steps_completed tid path name store0 text raw md Hparse Hown)
    as (r & t_store & Hr & Hfields & Hhead & Hlast).
  exists r, (clock store0), t_store. repeat (split; [done|]).
  unfold get_processing_status. unfold lookup_result in Hr.
  destruct (get_result tid _) as [found store5]. cbn [fst] in *. subst found.
  rewrite Hlast.
  assert (Hstatus : status r = COMPLETED) by congruence.
  assert (Herr : error_message r = None) by congruence.
  by rewrite Hstatus, Herr.
Qed.

Lemma process_document_completed_witness :
  exists r t_store,
    lookup_result "t2"
      (@process_document RouteSamples.working_extractor "t2" "/uploads/b.pdf"
         "b.pdf" RouteSamples.sample_store).2
    = Some r /\
    status r = COMPLETED /\
    last (processing_log r)
    = Some ("Started storing: "
              +:+ @str_datetime RouteSamples.working_extractor t_store).
Proof.
  destruct (@process_document_completed RouteSamples.working_extractor
              "t2" "/uploads/b.pdf" "b.pdf" RouteSamples.sample_store
              "Hello world" Samples.three_fragments RouteSamples.sample_metadata)
    as (r & t_parse & t_store & Hr & Hfields & _ & Hlast & _).
  - reflexivity.
  - exists r, t_store. split; [exact Hr|]. split; [congruence|exact Hlast].
Defined.

End PipelineRunFacts.

(** ** The summary by page *)

Module GroupFacts.
Import Py PyFacts Workflow Observations.

Section Group.
Context `{Externals}.

(** The body of the loop of [_group_elements_by_page]. *)
Local Abbreviation file_summary :=
  (fun (pages : list (string * value)) (element : ExtractedElement) =>
     let key := str_int (page_number (grounding element)) in
     match dict_get key pages with
     | Some (VList l) => dict_set key (VList (l ++ [element_summary element])) pages
     | _ => dict_set key (VList [element_summary element]) pages
     end).

Lemma group_snoc els e :
  _group_elements_by_page (els ++ [e])
  = file_summary (_group_elements_by_page els) e.
Proof. unfold _group_elements_by_page. by rewrite fold_left_app. Qed.

Lemma page_total_set_new key l d :
  dict_get key d = None ->
  page_total (dict_set key (VList l) d) = page_total d + length l.
Proof.
  unfold page_total. induction d as [|[k v] d IH]; cbn; [lia|].
  destruct (String.eqb k key); [done|]. intros Hnone. cbn. rewrite IH by done. lia.
Qed.

Lemma page_total_set_list key l x d :
  dict_get key d = Some (VList l) ->
  page_total (dict_set key (VList (l ++ [x])) d) = S (page_total d).
Proof.
  unfold page_total. induction d as [|[k v] d IH]; cbn; [done|].
  destruct (String.eqb k key).
  - intros [= ->]. cbn. rewrite length_app. cbn. lia.
  - intros Hget. cbn. rewrite IH by done. lia.
Qed.

Lemma dict_set_lists key l d :
  Forall (fun kv => is_list kv.2 = true) d ->
  Forall (fun kv => is_list kv.2 = true) (dict_set key (VList l) d).
Proof.
  induction 1 as [|[k v] d Hv Hd IH]; cbn.
  - by repeat constructor.
  - destruct (String.eqb k key); constructor; done.
Qed.

Lemma dict_get_list key d v :
  Forall (fun kv => is_list kv.2 = true) d ->
  dict_get key d = Some v -> is_list v = true.
Proof.
  induction 1 as [|[k w] d Hw Hd IH]; cbn; [done|].
  destruct (String.eqb k key); [by intros [= <-]|done].
Qed.

Lemma group_lists els :
  Forall (fun kv => is_list kv.2 = true) (_group_elements_by_page els).
Proof.
  induction els as [|e els IH] using rev_ind; [constructor|].
  rewrite group_snoc. cbn zeta.
  destruct (dict_get _ _) as [[| | | |l|]|]; by apply dict_set_lists.
Qed.

(** X25. [_group_elements_by_page] files every element exactly once:
    the lists under the pages hold as many summaries as there are
    elements, and the summary of each element is in the list under its own
    page number. *)
Theorem group_elements_by_page_complete (els : list ExtractedElement) :
  page_total (_group_elements_by_page els) = length els /\
  forall e, e ∈ els ->
    exists l,
      dict_get (str_int (page_number (grounding e))) (_group_elements_by_page els)
      = Some (VList l) /\
      element_summary e ∈ l.
Proof.
  induction els as [|e0 els [IHtotal IHmem]] using rev_ind.
  - split; [done|]. intros e He. inversion He.
  - rewrite group_snoc, length_app. cbn zeta.
    pose proof (group_lists els) as Hlists.
    set (pages := _group_elements_by_page els) in *.
    set (key := str_int (page_number (grounding e0))).
    destruct (dict_get key pages) as [v|] eqn:Hget.
    + pose proof (dict_get_list _ _ _ Hlists Hget) as Hv.
      destruct v as [| | | |l|]; try discriminate Hv. split.
      * rewrite (page_total_set_list _ _ _ _ Hget), IHtotal. cbn. lia.
      * intros e [He|He]%elem_of_app.
        -- destruct (IHmem e He) as (l' & Hl' & Hin).
           destruct (decide (str_int (page_number (grounding e)) = key)) as [Hk|Hk].
           ++ rewrite Hk in *. rewrite dict_get_set_eq. eexists. split; [done|].
              apply elem_of_app. left. congruence.
           ++ rewrite dict_get_set_ne by done. by exists l'.
        -- apply list_elem_of_singleton in He as ->. fold key.
           rewrite dict_get_set_eq. eexists. split; [done|].
           apply elem_of_app. right. left.
    + split.
      * rewrite (page_total_set_new _ _ _ Hget), IHtotal. done.
      * intros e [He|He]%elem_of_app.
        -- destruct (IHmem e He) as (l' & Hl' & Hin).
           destruct (decide (str_int (page_number (grounding e)) = key)) as [Hk|Hk].
           ++ rewrite Hk in *. congruence.
           ++ rewrite dict_get_set_ne by done. by exists l'.
        -- apply list_elem_of_singleton in He as ->. fold key.
           rewrite dict_get_set_eq. eexists. split; [done|]. left.
Qed.

End Group.

End GroupFacts.

(** ** The status route after a failed extraction *)

Module StatusRouteFacts.
Import Py Storage Workflow Routes PipelineFacts.

(** X26. When the extractor raises with a non-empty text, the status
    route answers, for the transaction, status [FAILED] and progress 0
    with the text of the error as the last log line in [message], and with
    [error] empty: the [error] field of the answer is read from
    [error_message], which no step writes into the snapshot. *)
Theorem status_after_extractor_failure `{Externals} (tid path name : string)
    (store : InMemoryStorage) (e : exn) :
  processor_process_document path name = Raised e ->
  exn_str e <> "" ->
  (get_processing_status tid (process_document tid path name store).2).1
  = Response
      {| response_transaction_id := tid;
         response_status := FAILED;
         progress := 0;
         message := Some (str_datetime (clock store + 7) +:+ ": " +:+ exn_str e);
         error := None |}.
Proof.
  intros Hraise Hne.
  destruct (parse_failure_persisted tid path name store e Hraise)
    as (r & Hmem & Hst & Herr & Hlog).
  unfold get_processing_status, get_result. rewrite Hmem. cbn [fst].
  rewrite Hst, Herr, Hlog. cbn [message_given].
  apply String.eqb_neq in Hne. rewrite Hne. reflexivity.
Qed.

Lemma status_after_extractor_failure_witness :
  (get_processing_status "tx-1"
     (@process_document Samples.failing_extractor
        "tx-1" "/uploads/scan.pdf" "scan.pdf" Samples.empty_storage).2).1
  = Response
      {| response_transaction_id := "tx-1";
         response_status := FAILED;
         progress := 0;
         message := Some "2024-05-01 10:00:7: cannot open file";
         error := None |}.
Proof.
  apply (@status_after_extractor_failure Samples.failing_extractor
           "tx-1" "/uploads/scan.pdf" "scan.pdf" Samples.empty_storage
           (Raise "cannot open file")).
  - reflexivity.
  - discriminate.
Defined.

End StatusRouteFacts.

(** ** Structure enhancement by chunks *)

Module EnhancementFacts.
Import Py TextChunking Enhancement Observations ChunkElementsFacts
  SchedulerReturnFacts.

Lemma concat_Permutation {A} (ls ls' : list (list A)) :
  ls ≡ₚ ls' -> concat ls ≡ₚ concat ls'.
Proof.
  induction 1 as [|l ls ls' _ IH|l1 l2 ls|ls1 ls2 ls3 _ IH1 _ IH2]; cbn.
  - done.
  - by rewrite IH.
  - rewrite !(assoc_L (++)). by rewrite (comm (++) l2 l1).
  - by rewrite IH1.
Qed.

Lemma lookups_of_seq {A} (chunks : list (list A)) :
  (fun i => default [] (chunks !! i)) <$> seq 0 (length chunks) = chunks.
Proof.
  apply list_eq. intros i. rewrite list_lookup_fmap.
  destruct (chunks !! i) as [c|] eqn:Hi.
  - rewrite lookup_seq_lt by (by eapply lookup_lt_Some). cbn. by rewrite Hi.
  - apply lookup_ge_None in Hi. by rewrite lookup_seq_ge.
Qed.

Section EnhanceDocumentStructure.
Variable has_api_key : bool.
Variable chat_completion : list value -> nat -> nat -> result string.
Variable json_loads : string -> option value.

Hypothesis answers_unused : forall content, answer_used (json_loads content) = false.

Lemma process_structure_chunk_unused element_chunk index total r :
  process_structure_chunk chat_completion json_loads element_chunk index total
  = Ok r ->
  r = VList element_chunk.
Proof using answers_unused.
  unfold process_structure_chunk.
  destruct (chat_completion element_chunk index total) as [content|e]; [|done].
  cbn. pose proof (answers_unused content) as Hunused.
  destruct (json_loads content) as [[| | | |l|d]|]; cbn in *;
    try discriminate Hunused; try (by intros [= <-]).
  destruct (dict_get "elements" d); [discriminate Hunused|]. by intros [= <-].
Qed.

Lemma combine_unused chunks order results :
  Forall2
    (fun i r =>
       exists chunk,
         chunks !! i = Some chunk /\
         process_structure_chunk chat_completion json_loads chunk i (length chunks)
         = Ok r)
    order results ->
  combine_chunks results
  = concat ((fun i => default [] (chunks !! i)) <$> order).
Proof using answers_unused.
  induction 1 as [|i r order results (chunk & Hi & Hr) _ IH]; [done|].
  apply process_structure_chunk_unused in Hr as ->.
  unfold combine_chunks in *. rewrite bind_cons, IH. cbn. by rewrite Hi.
Qed.

(** X28. When no answer of the chat completion is one the code hands
    on (it does not parse, or parses to something that is neither a list
    nor a dict with the key [elements]), structure enhancement loses and
    invents nothing on any run that lets it return: it returns the
    elements given, in the order of submission when a worker raised or the
    key is not set, and otherwise chunk by chunk in the order of
    completion. *)
Theorem enhance_unused_answers_keep_elements (elements : list value)
    (events : list event) (out : list value) :
  enhance_document_structure has_api_key chat_completion json_loads elements events
  = Some out ->
  out ≡ₚ elements.
Proof using answers_unused.
  unfold enhance_document_structure.
  destruct has_api_key; cbn [negb]; [|by intros [= <-]].
  destruct (process_chunks_with_rate_limit _ _ _ _) as [[results|e]|] eqn:Hrun;
    [|by intros [= <-]|done].
  intros [= <-].
  apply returns_each_result_once in Hrun as (order & Hperm & Hall).
  rewrite (combine_unused _ _ _ Hall).
  transitivity (concat (chunk_elements elements 20));
    [|by rewrite chunk_elements_flat].
  apply concat_Permutation.
  transitivity ((fun i => default [] (chunk_elements elements 20 !! i))
                  <$> seq 0 (length (chunk_elements elements 20)));
    [by apply fmap_Permutation|by rewrite lookups_of_seq].
Qed.

End EnhanceDocumentStructure.

Lemma enhance_unused_answers_keep_elements_witness :
  exists out,
    enhance_document_structure true (fun _ _ _ => Ok "not json") (fun _ => None)
      [VStr "a"; VStr "b"] [Acquire 0; WorkerEnds 0; Wake 0]
    = Some out /\
    out ≡ₚ [VStr "a"; VStr "b"].
Proof.
  exists [VStr "a"; VStr "b"]. split; [reflexivity|].
  apply (enhance_unused_answers_keep_elements true
           (fun _ _ _ => Ok "not json") (fun _ => None) (fun _ => eq_refl)
           [VStr "a"; VStr "b"] [Acquire 0; WorkerEnds 0; Wake 0]).
  reflexivity.
Defined.

End EnhancementFacts.

(** ** Upload *)

Module UploadFacts.
Import Py Storage Workflow Routes Upload Observations ChunkFacts StoreFacts
  PipelineRunFacts.

Lemma splitext_app p : (splitext p).1 +:+ (splitext p).2 = p.
Proof.
  unfold splitext. destruct (rfind "."%char p) as [d|]; [|apply str_app_nil_r].
  destruct (_ && _); [|apply str_app_nil_r]. cbn [fst snd].
  rewrite (substring_add 0 d). apply substring_all. lia.
Qed.

Lemma substring_app_skip a b i k :
  String.substring (String.length a + i) k (a +:+ b) = String.substring i k b.
Proof.
  induction a as [|c a IH]; [by rewrite str_app_nil_l|].
  rewrite str_app_cons. cbn. apply IH.
Qed.

Lemma endswith_app root ext suffix i :
  String.length ext = i + String.length suffix ->
  endswith (root +:+ ext) suffix
  = String.eqb (String.substring i (String.length suffix) ext) suffix.
Proof.
  intros Hlen. unfold endswith. rewrite str_length_app, Hlen.
  replace (String.length root + (i + String.length suffix) - String.length suffix)
    with (String.length root + i) by lia.
  rewrite substring_app_skip.
  replace (_ <=? _)%nat with true; [done|]. symmetry. apply Nat.leb_le. lia.
Qed.

(** X29. For a file name that the upload route accepts, the document
    type that [process_document] writes into the first snapshot agrees
    with the extension by which the route accepted it: [.pdf] gives PDF,
    [.png] gives PNG, and both [.jpg] and [.jpeg] give JPEG; the type JPG
    is never written. *)
Theorem accepted_document_type `{Externals} (tid path name : string)
    (store : InMemoryStorage) :
  is_supported_format name = true ->
  document_type (result_metadata (initial_result tid path name store).1)
  = (if String.eqb (splitext (lower name)).2 ".pdf" then PDF
     else if String.eqb (splitext (lower name)).2 ".png" then PNG
     else JPEG) /\
  document_type (result_metadata (initial_result tid path name store).1) <> JPG.
Proof.
  intros Hok.
  assert (Htype : document_type (result_metadata (initial_result tid path name store).1)
                  = if endswith (lower name) ".pdf" then PDF
                    else if endswith (lower name) ".png" then PNG else JPEG)
    by reflexivity.
  rewrite Htype. clear Htype.
  unfold is_supported_format, supported_formats in Hok. cbn [existsb] in Hok.
  pose proof (splitext_app (lower name)) as Happ.
  set (root := (splitext (lower name)).1) in *.
  set (ext := (splitext (lower name)).2) in *.
  clearbody root ext. rewrite <- Happ. clear Happ.
  repeat (apply orb_true_iff in Hok as [Hok|Hok]); try discriminate Hok;
    apply String.eqb_eq in Hok; subst ext;
    first [ rewrite (endswith_app root _ ".pdf" 0) by reflexivity
          | rewrite (endswith_app root _ ".pdf" 1) by reflexivity ];
    first [ rewrite (endswith_app root _ ".png" 0) by reflexivity
          | rewrite (endswith_app root _ ".png" 1) by reflexivity
          | idtac ];
    cbn; done.
Qed.

Lemma accepted_document_type_witness :
  document_type
    (result_metadata
       (@initial_result Samples.failing_extractor "t1" "/uploads/Scan.JPG"
          "Scan.JPG" Samples.empty_storage).1)
  = JPEG.
Proof.
  destruct (@accepted_document_type Samples.failing_extractor "t1"
              "/uploads/Scan.JPG" "Scan.JPG" Samples.empty_storage) as [Htype _].
  - reflexivity.
  - exact Htype.
Defined.

Section UploadDocument.
Context `{Externals}.
Variable upload_path : string -> string.
Variable megabytes : nat -> string.

(** X30. The id that an accepted upload hands to the client is not the
    id under which its background task stores the result: the task draws
    an id of its own, the result sits under that one, and the status route
    still answers 404 for the id of the upload when it was unknown
    before. *)
Theorem uploaded_id_never_resolves (filename : option string) (size : option nat)
    (max_size : nat) (file_id tid : string) (store : InMemoryStorage)
    (resp : UploadResponse) (path name : string) :
  upload_document upload_path megabytes filename size max_size file_id
  = (Response resp, Some (path, name)) ->
  tid <> file_id ->
  lookup_result file_id store = None ->
  upload_transaction_id resp = file_id /\
  filename = Some name /\
  owned tid (process_document_background tid path name store) /\
  get_processing_status file_id (process_document_background tid path name store)
  = (HTTPException 404 "Transaction not found",
     process_document_background tid path name store).
Proof.
  intros Hup Hne Hfresh. unfold process_document_background.
  assert (Hresp : upload_transaction_id resp = file_id /\ filename = Some name).
  { unfold upload_document in Hup.
    destruct filename as [[|c fname]|]; try discriminate Hup.
    destruct (negb (is_supported_format _)); [discriminate Hup|].
    destruct (match size with Some _ => _ | None => _ end); [discriminate Hup|].
    by injection Hup as <- _ <-. }
  destruct Hresp as [-> ->]. split; [done|]. split; [done|].
  destruct (process_document_store tid path name store) as (store0 & -> & Hown & H0).
  destruct (run_steps_touches (initial_state tid path name) store0 Hown)
    as [Hfinal Hrun].
  cbn [initial_state state_transaction_id] in Hrun, Hfinal.
  split; [done|].
  unfold get_processing_status.
  assert (Hnone : lookup_result file_id
                    (run_steps (initial_state tid path name) store0).2 = None).
  { rewrite Hrun, H0 by done. done. }
  by rewrite (RouteFacts.get_result_unknown _ _ Hnone).
Qed.

End UploadDocument.

Lemma uploaded_id_never_resolves_witness :
  (get_processing_status "file-1"
     (@process_document_background RouteSamples.working_extractor "tx-9"
        "/uploads/file-1.pdf" "report.pdf" Samples.empty_storage)).1
  = HTTPException 404 "Transaction not found".
Proof.
  destruct (@uploaded_id_never_resolves RouteSamples.working_extractor
              (fun f => "/uploads/" +:+ f) (fun _ => "0.004096")
              (Some "report.pdf") (Some 1024) 4096 "file-1" "tx-9"
              Samples.empty_storage
              {| upload_transaction_id := "file-1"; upload_status := PENDING;
                 upload_message :=
                   "Document uploaded successfully. Processing started." |}
              "/uploads/file-1.pdf" "report.pdf")
    as (_ & _ & _ & Hstatus).
  - reflexivity.
  - discriminate.
  - reflexivity.
  - by rewrite Hstatus.
Defined.

End UploadFacts.
